(** * Analizador semantico: lexer, single-pass analyzer and diagnostics

    Shallow embedding of [main.py] (classes [AnalizadorLexico] and
    [AnalizadorSemantico]) and proofs of the properties stated about it.

    Python strings are sequences of Unicode code points; they are modelled
    as lists of [N].  Python integers used as line numbers, columns and
    cursor positions are never negative here and are modelled as [nat].
    A Python exception (IndexError, KeyError) is modelled by [None]. *)

From Stdlib Require Import String Ascii.
From Stdlib Require Import List NArith Arith Bool Lia Sorted.
Import ListNotations.

Set Implicit Arguments.

(* ================================================================== *)
(** ** Python strings *)

Module PyStr.

Definition char := N.
Definition str := list char.

(** An ASCII literal of the source, as a list of code points. *)
Definition lit (s : string) : str := map N_of_ascii (list_ascii_of_string s).
Arguments lit s%_string.

Fixpoint eqb (a b : str) : bool :=
  match a, b with
  | [], [] => true
  | x :: a', y :: b' => N.eqb x y && eqb a' b'
  | _, _ => false
  end.

(** [x in s] for a one-character [x]. *)
Definition contains (c : char) (s : str) : bool := existsb (N.eqb c) s.

(** [s in [a, b, ...]] for a list of strings. *)
Definition in_list (s : str) (l : list str) : bool := existsb (eqb s) l.

(** [s.startswith(p)] *)
Fixpoint startswith (p s : str) : bool :=
  match p, s with
  | [], _ => true
  | x :: p', y :: s' => N.eqb x y && startswith p' s'
  | _ :: _, [] => false
  end.

(** [s.split('\n')]: always at least one piece. *)
Fixpoint split_nl (s : str) : list str :=
  match s with
  | [] => [[]]
  | c :: s' =>
      if N.eqb c 10%N then [] :: split_nl s'
      else match split_nl s' with
           | l :: ls => (c :: l) :: ls
           | [] => [[c]]
           end
  end.

Fixpoint dropwhile (p : char -> bool) (s : str) : str :=
  match s with
  | c :: s' => if p c then dropwhile p s' else s
  | [] => []
  end.

(** [s[i:j]] for [0 <= i <= j]. *)
Definition slice (s : str) (i j : nat) : str := firstn (j - i) (skipn i s).

(** [str(n)] for a non-negative integer. *)
Fixpoint digits (u : Decimal.uint) : str :=
  match u with
  | Decimal.Nil => []
  | Decimal.D0 u => 48%N :: digits u
  | Decimal.D1 u => 49%N :: digits u
  | Decimal.D2 u => 50%N :: digits u
  | Decimal.D3 u => 51%N :: digits u
  | Decimal.D4 u => 52%N :: digits u
  | Decimal.D5 u => 53%N :: digits u
  | Decimal.D6 u => 54%N :: digits u
  | Decimal.D7 u => 55%N :: digits u
  | Decimal.D8 u => 56%N :: digits u
  | Decimal.D9 u => 57%N :: digits u
  end.

Definition of_nat (n : nat) : str := digits (Nat.to_uint n).

(** Classification of the code points from 128 on by the Unicode tables of
    the Python runtime ([str.isspace], and the [\d] and [\w] classes of
    [re] on [str] patterns).  The tables are not part of the program; the
    ASCII part is fixed below. *)
Record Unicode := {
  u_space : char -> bool;
  u_digit : char -> bool;
  u_word  : char -> bool
}.

Definition between (lo hi c : char) : bool := N.leb lo c && N.leb c hi.

Definition ascii_alpha (c : char) : bool := between 97%N 122%N c || between 65%N 90%N c.
Definition ascii_digit (c : char) : bool := between 48%N 57%N c.

(** [c.isspace()]: in ASCII, TAB LF VT FF CR, FS GS RS US and SPACE. *)
Definition isspace (U : Unicode) (c : char) : bool :=
  if N.ltb c 128%N then between 9%N 13%N c || between 28%N 31%N c || N.eqb c 32%N
  else u_space U c.

(** [\d] *)
Definition isdigit (U : Unicode) (c : char) : bool :=
  if N.ltb c 128%N then ascii_digit c else u_digit U c.

(** [\w] *)
Definition isword (U : Unicode) (c : char) : bool :=
  if N.ltb c 128%N then ascii_alpha c || ascii_digit c || N.eqb c 95%N
  else u_word U c.

(** [s.strip()] *)
Definition strip (U : Unicode) (s : str) : str :=
  rev (dropwhile (isspace U) (rev (dropwhile (isspace U) s))).

End PyStr.

Import PyStr.

Notation "x <- e ;; k" :=
  (match e with Some x => k | None => None end)
  (at level 61, e at next level, right associativity).

(* ================================================================== *)
(** ** Regular expressions as interpreted by [re]

    A backtracking matcher in continuation-passing style: alternatives are
    tried left to right, repetitions are greedy, [\b] looks at the
    character before the cursor in the whole subject string. Repetition is
    only ever applied to a character class in the patterns of the lexer. *)

Module Regex.

Inductive re :=
| Lit  (l : str)                (* a literal run of characters *)
| Cls  (p : char -> bool)       (* one character of a class *)
| Seq  (a b : re)
| Alt  (a b : re)
| Opt  (a : re)                 (* a? *)
| Star (p : char -> bool)       (* [p]* *)
| Plus (p : char -> bool)       (* [p]+ *)
| Bnd  (w : char -> bool).      (* \b, for the word class w *)

(** A continuation receives the previous character, the position and the
    rest of the subject, and returns the end of the whole match. *)
Definition cont := option char -> nat -> str -> option nat.

Definition accept : cont := fun _ pos _ => Some pos.

Fixpoint prefix (l s : str) : option str :=
  match l, s with
  | [], _ => Some s
  | x :: l', y :: s' => if N.eqb x y then prefix l' s' else None
  | _ :: _, [] => None
  end.

Definition last_of (prev : option char) (l : str) : option char :=
  match rev l with
  | c :: _ => Some c
  | [] => prev
  end.

Definition is_word (w : char -> bool) (c : option char) : bool :=
  match c with
  | Some x => w x
  | None => false
  end.

Fixpoint rep (p : char -> bool) (k : cont)
         (prev : option char) (pos : nat) (s : str) {struct s} : option nat :=
  match s with
  | c :: s' =>
      if p c then
        match rep p k (Some c) (S pos) s' with
        | Some r => Some r
        | None => k prev pos s
        end
      else k prev pos s
  | [] => k prev pos s
  end.

Fixpoint run (r : re) (k : cont)
         (prev : option char) (pos : nat) (s : str) {struct r} : option nat :=
  match r with
  | Lit l =>
      match prefix l s with
      | Some s' => k (last_of prev l) (pos + length l) s'
      | None => None
      end
  | Cls p =>
      match s with
      | c :: s' => if p c then k (Some c) (S pos) s' else None
      | [] => None
      end
  | Seq a b => run a (run b k) prev pos s
  | Alt a b =>
      match run a k prev pos s with
      | Some e => Some e
      | None => run b k prev pos s
      end
  | Opt a =>
      match run a k prev pos s with
      | Some e => Some e
      | None => k prev pos s
      end
  | Star p => rep p k prev pos s
  | Plus p =>
      match s with
      | c :: s' => if p c then rep p k (Some c) (S pos) s' else None
      | [] => None
      end
  | Bnd w =>
      if xorb (is_word w prev) (is_word w (hd_error s))
      then k prev pos s else None
  end.

(** [a|b|c|...] over literals. *)
Fixpoint alts (l : list str) : re :=
  match l with
  | [] => Cls (fun _ => false)
  | [x] => Lit x
  | x :: l' => Alt (Lit x) (alts l')
  end.

(** A pattern [(?P<n1>r1)|(?P<n2>r2)|...]: the first group that matches at
    the position wins; the result is [lastgroup] and the end of the match.
    A named group that encloses an unnamed one closes last, so
    [lastgroup] is the name of the enclosing group. *)
Fixpoint match_at (groups : list (str * re))
         (prev : option char) (pos : nat) (s : str) : option (str * nat) :=
  match groups with
  | [] => None
  | (name, r) :: gs =>
      match run r accept prev pos s with
      | Some e => Some (name, e)
      | None => match_at gs prev pos s
      end
  end.

Definition before (subject : str) (pos : nat) : option char :=
  match pos with
  | 0 => None
  | S p => nth_error subject p
  end.

(** [regex.finditer(subject)]: the non-overlapping matches, left to right,
    as (lastgroup, start, end).  After an empty match the scan moves one
    character on; the patterns of the lexer never match the empty string
    (lemma [patron_no_vacio] below), so that branch is not taken. *)
Fixpoint finditer_fuel (fuel : nat) (groups : list (str * re))
         (subject : str) (pos : nat) : list (str * nat * nat) :=
  match fuel with
  | 0 => []
  | S f =>
      if length subject <? pos then []
      else
        match match_at groups (before subject pos) pos (skipn pos subject) with
        | Some (g, e) =>
            (g, pos, e) ::
            finditer_fuel f groups subject (if e =? pos then S pos else e)
        | None => finditer_fuel f groups subject (S pos)
        end
  end.

Definition finditer (groups : list (str * re)) (subject : str)
  : list (str * nat * nat) :=
  finditer_fuel (S (length subject)) groups subject 0.

End Regex.

Import Regex.

(* ================================================================== *)
(** ** Data model *)

Inductive TipoToken :=
| TIPO_DATO | IDENTIFICADOR | NUMERO | CADENA | BOOLEANO | OPERADOR
| ASIGNACION | PALABRA_CLAVE | PARENTESIS | PUNTO_COMA | DESCONOCIDO.

Definition TipoToken_eqb (a b : TipoToken) : bool :=
  match a, b with
  | TIPO_DATO, TIPO_DATO | IDENTIFICADOR, IDENTIFICADOR | NUMERO, NUMERO
  | CADENA, CADENA | BOOLEANO, BOOLEANO | OPERADOR, OPERADOR
  | ASIGNACION, ASIGNACION | PALABRA_CLAVE, PALABRA_CLAVE
  | PARENTESIS, PARENTESIS | PUNTO_COMA, PUNTO_COMA
  | DESCONOCIDO, DESCONOCIDO => true
  | _, _ => false
  end.

(** [tipo.name] *)
Definition TipoToken_name (t : TipoToken) : str :=
  match t with
  | TIPO_DATO => lit "TIPO_DATO"
  | IDENTIFICADOR => lit "IDENTIFICADOR"
  | NUMERO => lit "NUMERO"
  | CADENA => lit "CADENA"
  | BOOLEANO => lit "BOOLEANO"
  | OPERADOR => lit "OPERADOR"
  | ASIGNACION => lit "ASIGNACION"
  | PALABRA_CLAVE => lit "PALABRA_CLAVE"
  | PARENTESIS => lit "PARENTESIS"
  | PUNTO_COMA => lit "PUNTO_COMA"
  | DESCONOCIDO => lit "DESCONOCIDO"
  end.

Definition TipoToken_members : list TipoToken :=
  [TIPO_DATO; IDENTIFICADOR; NUMERO; CADENA; BOOLEANO; OPERADOR;
   ASIGNACION; PALABRA_CLAVE; PARENTESIS; PUNTO_COMA; DESCONOCIDO].

(** [TipoToken[name]]: [None] is the KeyError. *)
Definition TipoToken_getitem (name : str) : option TipoToken :=
  find (fun t => PyStr.eqb (TipoToken_name t) name) TipoToken_members.

(** The fields of [Token] and [Error] carry a prefix: [tipo] and [linea]
    name fields of several classes of the source. *)
Record Token := mkToken {
  tk_tipo : TipoToken;
  tk_valor : str;
  tk_linea : nat;
  tk_columna : nat
}.

(** The class [Variable] ([Variable] is a reserved word here). *)
Record Variable_ := mkVariable {
  nombre : str;
  tipo : str;
  linea_declaracion : nat;
  inicializada : bool;
  usada : bool
}.

Record Error := mkError {
  e_tipo : str;
  mensaje : str;
  e_linea : nat;
  e_columna : nat
}.

(* ================================================================== *)
(** ** AnalizadorLexico *)

Section Lexico.

Variable U : Unicode.

Definition quote : char := 34%N.

Fixpoint seqs (l : list re) : re :=
  match l with
  | [] => Lit []
  | [r] => r
  | r :: l' => Seq r (seqs l')
  end.

Definition word_bnd : re := Bnd (isword U).

(** [self.patrones], in the order of the source. *)
Definition patrones : list (TipoToken * re) :=
  [ (TIPO_DATO,
     seqs [word_bnd;
           alts [lit "int"; lit "float"; lit "double"; lit "bool";
                 lit "char"; lit "string"; lit "void"];
           word_bnd]);
    (PALABRA_CLAVE,
     seqs [word_bnd;
           alts [lit "if"; lit "else"; lit "while"; lit "for"; lit "return";
                 lit "break"; lit "continue"; lit "switch"; lit "case";
                 lit "default"];
           word_bnd]);
    (BOOLEANO, seqs [word_bnd; alts [lit "true"; lit "false"]; word_bnd]);
    (NUMERO,
     seqs [word_bnd; Plus (isdigit U); Opt (Lit (lit "."));
           Star (isdigit U); word_bnd]);
    (CADENA,
     seqs [Lit [quote]; Star (fun c => negb (N.eqb c quote)); Lit [quote]]);
    (IDENTIFICADOR,
     seqs [word_bnd;
           Cls (fun c => ascii_alpha c || N.eqb c 95%N);
           Star (fun c => ascii_alpha c || ascii_digit c || N.eqb c 95%N);
           word_bnd]);
    (ASIGNACION, Lit (lit "="));
    (OPERADOR, Plus (fun c => contains c (lit "+-*/%<>=!&|")));
    (PARENTESIS, Cls (fun c => contains c (lit "(){}[]")));
    (PUNTO_COMA, Lit (lit ";")) ].

(** [self.patron_compilado]: one named group per entry, joined by [|]. *)
Definition patron_compilado : list (str * re) :=
  map (fun tp => (TipoToken_name (fst tp), snd tp)) patrones.

(** Body of the inner loop of [tokenizar], over the matches of one line. *)
Fixpoint tokens_de_matches (linea : str) (num_linea : nat)
         (ms : list (str * nat * nat)) : option (list Token) :=
  match ms with
  | [] => Some []
  | (lastgroup, ini, fin) :: ms' =>
      tipo_token <- TipoToken_getitem lastgroup ;;
      let valor := slice linea ini fin in
      let columna := ini in
      resto <- tokens_de_matches linea num_linea ms' ;;
      Some (mkToken tipo_token valor num_linea columna :: resto)
  end.

(** Outer loop of [tokenizar], over [enumerate(lineas, num_linea)]. *)
Fixpoint tokenizar_lineas (num_linea : nat) (lineas : list str)
  : option (list Token) :=
  match lineas with
  | [] => Some []
  | linea0 :: resto =>
      let linea := strip U linea0 in
      if match linea with [] => true | _ => false end
         || startswith (lit "//") linea
      then tokenizar_lineas (S num_linea) resto
      else
        ts <- tokens_de_matches linea num_linea
                (finditer patron_compilado linea) ;;
        ts' <- tokenizar_lineas (S num_linea) resto ;;
        Some (ts ++ ts')
  end.

Definition tokenizar (codigo : str) : option (list Token) :=
  tokenizar_lineas 1 (split_nl codigo).

End Lexico.

(** A table that agrees with Unicode on U+0080..U+00FF and classifies
    nothing beyond; it serves to instantiate statements on ASCII inputs. *)
Definition latin1 : Unicode := {|
  u_space := fun c => N.eqb c 133%N || N.eqb c 160%N;
  u_digit := fun _ => false;
  u_word := fun c =>
    N.eqb c 170%N || N.eqb c 178%N || N.eqb c 179%N || N.eqb c 181%N
    || N.eqb c 185%N || N.eqb c 186%N || between 188%N 190%N c
    || between 192%N 214%N c || between 216%N 246%N c
    || between 248%N 255%N c
|}.

(* ================================================================== *)
(** ** The symbol table: a Python dict, which iterates in insertion order *)

Module Dict.

Definition dict (V : Type) := list (str * V).

Section Ops.
Variable V : Type.

(** [d[k]]; [None] is the KeyError.  Also [d.get(k)]. *)
Fixpoint get (k : str) (d : dict V) : option V :=
  match d with
  | [] => None
  | (k', v) :: d' => if PyStr.eqb k' k then Some v else get k d'
  end.

(** [k in d] *)
Definition mem (k : str) (d : dict V) : bool :=
  match get k d with Some _ => true | None => false end.

(** [d[k] = v]: an existing key keeps its place, a new key goes last. *)
Fixpoint set (k : str) (v : V) (d : dict V) : dict V :=
  match d with
  | [] => [(k, v)]
  | (k', v') :: d' =>
      if PyStr.eqb k' k then (k', v) :: d' else (k', v') :: set k v d'
  end.

(** Mutation of the object stored under [k] (an attribute assignment
    through any reference to that object). *)
Fixpoint update (k : str) (f : V -> V) (d : dict V) : dict V :=
  match d with
  | [] => []
  | (k', v') :: d' =>
      if PyStr.eqb k' k then (k', f v') :: d' else (k', v') :: update k f d'
  end.

Definition keys (d : dict V) : list str := map fst d.
Definition values (d : dict V) : list V := map snd d.

End Ops.
End Dict.

(* ================================================================== *)
(** ** AnalizadorSemantico *)

(** The mutable attributes of an [AnalizadorSemantico] instance.
    [tipos_validos] and [compatibilidad_tipos] are set once by [__init__]
    and never assigned again; they are constants below. *)
Record Estado := mkEstado {
  tabla_simbolos : Dict.dict Variable_;
  errores : list Error;
  advertencias : list Error;
  tokens : list Token;
  posicion : nat
}.

Definition con_posicion (st : Estado) (p : nat) : Estado :=
  mkEstado (tabla_simbolos st) (errores st) (advertencias st) (tokens st) p.

Definition con_tabla (st : Estado) (t : Dict.dict Variable_) : Estado :=
  mkEstado t (errores st) (advertencias st) (tokens st) (posicion st).

Definition con_tokens (st : Estado) (ts : list Token) : Estado :=
  mkEstado (tabla_simbolos st) (errores st) (advertencias st) ts (posicion st).

(** [self.posicion += 1] *)
Definition avanzar (st : Estado) : Estado := con_posicion st (S (posicion st)).

(** [self.errores.append(e)] *)
Definition agregar_error (st : Estado) (e : Error) : Estado :=
  mkEstado (tabla_simbolos st) (errores st ++ [e]) (advertencias st)
           (tokens st) (posicion st).

(** [self.advertencias.append(e)] *)
Definition agregar_advertencia (st : Estado) (e : Error) : Estado :=
  mkEstado (tabla_simbolos st) (errores st) (advertencias st ++ [e])
           (tokens st) (posicion st).

(** [__init__] *)
Definition estado_inicial : Estado := mkEstado [] [] [] [] 0.

Definition compatibilidad_tipos : Dict.dict (list str) :=
  [ (lit "int", [lit "int"; lit "float"; lit "double"]);
    (lit "float", [lit "float"; lit "double"]);
    (lit "double", [lit "double"]);
    (lit "bool", [lit "bool"]);
    (lit "char", [lit "char"]);
    (lit "string", [lit "string"]) ].

(** *** Messages *)

Definition ERROR : str := lit "ERROR".
Definition ADVERTENCIA : str := lit "ADVERTENCIA".

(** The accented letters of the messages, as code points. *)
Definition a' : str := [225%N].
Definition e' : str := [233%N].
Definition i' : str := [237%N].
Definition o' : str := [243%N].

Definition en_linea (n : nat) : str :=
  lit " en l" ++ i' ++ lit "nea " ++ of_nat n.

Definition msg_declaracion_incompleta (linea : nat) : str :=
  lit "Declaraci" ++ o' ++ lit "n incompleta" ++ en_linea linea.

Definition msg_se_esperaba_identificador (valor : str) (linea : nat) : str :=
  lit "Se esperaba un identificador despu" ++ e' ++ lit "s de '" ++ valor
  ++ lit "'" ++ en_linea linea.

Definition msg_ya_declarada (valor : str) (linea : nat) : str :=
  lit "Variable '" ++ valor ++ lit "' ya declarada" ++ en_linea linea.

Definition msg_inicializacion_incompleta (nombre : str) (linea : nat) : str :=
  lit "Inicializaci" ++ o' ++ lit "n incompleta para variable '" ++ nombre
  ++ lit "'" ++ en_linea linea.

Definition msg_incompatible_inicializacion (nombre : str) (linea : nat) : str :=
  lit "Tipo incompatible en inicializaci" ++ o' ++ lit "n de '" ++ nombre
  ++ lit "'" ++ en_linea linea.

Definition msg_no_declarada (valor : str) (linea : nat) : str :=
  lit "Variable '" ++ valor ++ lit "' no declarada" ++ en_linea linea.

Definition msg_asignacion_incompleta (nombre : str) : str :=
  lit "Asignaci" ++ o' ++ lit "n incompleta a variable '" ++ nombre ++ lit "'".

Definition msg_incompatible_asignacion (nombre : str) (linea : nat) : str :=
  lit "Tipo incompatible en asignaci" ++ o' ++ lit "n a '" ++ nombre
  ++ lit "'" ++ en_linea linea.

Definition msg_se_esperaba_parentesis (valor : str) (linea : nat) : str :=
  lit "Se esperaba '(' despu" ++ e' ++ lit "s de '" ++ valor ++ lit "'"
  ++ en_linea linea.

Definition msg_sin_tokens : str :=
  lit "No se encontraron tokens v" ++ a' ++ lit "lidos".

Definition msg_no_usada (nombre : str) : str :=
  lit "Variable '" ++ nombre ++ lit "' declarada pero no usada".

Definition msg_sin_inicializar (nombre : str) : str :=
  lit "Variable '" ++ nombre ++ lit "' usada sin inicializar".

(** [Error("ERROR", m, l)]: the column takes its default, 0. *)
Definition error_en (m : str) (l : nat) : Error := mkError ERROR m l 0.
Definition advertencia_en (m : str) (l : nat) : Error :=
  mkError ADVERTENCIA m l 0.

(** *** Type compatibility *)

Definition verificar_compatibilidad_tipos
           (tabla : Dict.dict Variable_) (tipo_variable : str)
           (token_valor : Token) : option bool :=
  match tk_tipo token_valor with
  | NUMERO =>
      if contains 46%N (tk_valor token_valor)
      then Some (in_list tipo_variable [lit "float"; lit "double"])
      else Some (in_list tipo_variable [lit "int"; lit "float"; lit "double"])
  | BOOLEANO => Some (PyStr.eqb tipo_variable (lit "bool"))
  | CADENA => Some (PyStr.eqb tipo_variable (lit "string"))
  | IDENTIFICADOR =>
      if Dict.mem (tk_valor token_valor) tabla then
        v <- Dict.get (tk_valor token_valor) tabla ;;
        let tipo_origen := tipo v in
        Some (in_list tipo_origen
                (match Dict.get tipo_variable compatibilidad_tipos with
                 | Some l => l
                 | None => []
                 end))
      else Some false
  | _ => Some false
  end.

(** *** Handlers *)

Definition marcar_inicializada (v : Variable_) : Variable_ :=
  mkVariable (nombre v) (tipo v) (linea_declaracion v) true (usada v).

Definition marcar_usada (v : Variable_) : Variable_ :=
  mkVariable (nombre v) (tipo v) (linea_declaracion v) (inicializada v) true.

(** [variable] is the object just stored in the table under its own name:
    the assignment [variable.inicializada = True] is seen through the
    table, where it is applied. *)
Definition analizar_inicializacion (st : Estado) (variable : Variable_)
  : option Estado :=
  let st := avanzar st in
  if length (tokens st) <=? posicion st then
    Some (agregar_error st
            (error_en (msg_inicializacion_incompleta
                         (nombre variable) (linea_declaracion variable))
                      (linea_declaracion variable)))
  else
    token_valor <- nth_error (tokens st) (posicion st) ;;
    ok <- verificar_compatibilidad_tipos
            (tabla_simbolos st) (tipo variable) token_valor ;;
    let st :=
      if ok then
        con_tabla st (Dict.update (nombre variable) marcar_inicializada
                                  (tabla_simbolos st))
      else
        agregar_error st
          (error_en (msg_incompatible_inicializacion
                       (nombre variable) (linea_declaracion variable))
                    (linea_declaracion variable)) in
    Some (avanzar st).

Definition analizar_declaracion (st : Estado) : option Estado :=
  if length (tokens st) <=? posicion st then Some st
  else
    token_tipo <- nth_error (tokens st) (posicion st) ;;
    let st := avanzar st in
    if length (tokens st) <=? posicion st then
      Some (agregar_error st
              (error_en (msg_declaracion_incompleta (tk_linea token_tipo))
                        (tk_linea token_tipo)))
    else
      token_nombre <- nth_error (tokens st) (posicion st) ;;
      if negb (TipoToken_eqb (tk_tipo token_nombre) IDENTIFICADOR) then
        Some (agregar_error st
                (error_en (msg_se_esperaba_identificador
                             (tk_valor token_tipo) (tk_linea token_tipo))
                          (tk_linea token_tipo)))
      else if Dict.mem (tk_valor token_nombre) (tabla_simbolos st) then
        Some (agregar_error st
                (error_en (msg_ya_declarada
                             (tk_valor token_nombre) (tk_linea token_nombre))
                          (tk_linea token_nombre)))
      else
        let variable :=
          mkVariable (tk_valor token_nombre) (tk_valor token_tipo)
                     (tk_linea token_nombre) false false in
        let st :=
          con_tabla st (Dict.set (tk_valor token_nombre) variable
                                 (tabla_simbolos st)) in
        let st := avanzar st in
        if posicion st <? length (tokens st) then
          t <- nth_error (tokens st) (posicion st) ;;
          if TipoToken_eqb (tk_tipo t) ASIGNACION
          then analizar_inicializacion st variable
          else Some st
        else Some st.

Definition analizar_asignacion (st : Estado) (nombre_variable : str)
  : option Estado :=
  let st := avanzar st in
  if length (tokens st) <=? posicion st then
    anterior <- nth_error (tokens st) (posicion st - 1) ;;
    Some (agregar_error st
            (error_en (msg_asignacion_incompleta nombre_variable)
                      (tk_linea anterior)))
  else
    token_valor <- nth_error (tokens st) (posicion st) ;;
    variable <- Dict.get nombre_variable (tabla_simbolos st) ;;
    ok <- verificar_compatibilidad_tipos
            (tabla_simbolos st) (tipo variable) token_valor ;;
    let st :=
      if ok then
        con_tabla st (Dict.update nombre_variable marcar_inicializada
                                  (tabla_simbolos st))
      else
        agregar_error st
          (error_en (msg_incompatible_asignacion
                       nombre_variable (tk_linea token_valor))
                    (tk_linea token_valor)) in
    Some (avanzar st).

Definition analizar_identificador (st : Estado) : option Estado :=
  token_identificador <- nth_error (tokens st) (posicion st) ;;
  if negb (Dict.mem (tk_valor token_identificador) (tabla_simbolos st)) then
    let st :=
      agregar_error st
        (error_en (msg_no_declarada (tk_valor token_identificador)
                                    (tk_linea token_identificador))
                  (tk_linea token_identificador)) in
    Some (avanzar st)
  else
    _ <- Dict.get (tk_valor token_identificador) (tabla_simbolos st) ;;
    let st :=
      con_tabla st (Dict.update (tk_valor token_identificador) marcar_usada
                                (tabla_simbolos st)) in
    if S (posicion st) <? length (tokens st) then
      t <- nth_error (tokens st) (S (posicion st)) ;;
      if TipoToken_eqb (tk_tipo t) ASIGNACION then
        let st := avanzar st in
        analizar_asignacion st (tk_valor token_identificador)
      else Some (avanzar st)
    else Some (avanzar st).

Definition es_parentesis_apertura (t : Token) : bool :=
  TipoToken_eqb (tk_tipo t) PARENTESIS && PyStr.eqb (tk_valor t) (lit "(").

(** The search loop of [analizar_estructura_control], over the tokens from
    [pos_temp] on: the final value of [parentesis_encontrado]. *)
Fixpoint buscar_parentesis (resto : list Token) : bool :=
  match resto with
  | [] => false
  | t :: resto' =>
      if es_parentesis_apertura t then true else buscar_parentesis resto'
  end.

Definition analizar_estructura_control (st : Estado) (token_palabra : Token)
  : Estado :=
  let parentesis_encontrado :=
    buscar_parentesis (skipn (S (posicion st)) (tokens st)) in
  if negb parentesis_encontrado then
    agregar_error st
      (error_en (msg_se_esperaba_parentesis
                   (tk_valor token_palabra) (tk_linea token_palabra))
                (tk_linea token_palabra))
  else st.

Definition analizar_palabra_clave (st : Estado) : option Estado :=
  token_palabra <- nth_error (tokens st) (posicion st) ;;
  let st :=
    if in_list (tk_valor token_palabra) [lit "if"; lit "while"; lit "for"]
    then analizar_estructura_control st token_palabra
    else st in
  Some (avanzar st).

(** One iteration of the loop of [analizar_tokens]. *)
Definition paso (st : Estado) : option Estado :=
  token_actual <- nth_error (tokens st) (posicion st) ;;
  match tk_tipo token_actual with
  | TIPO_DATO => analizar_declaracion st
  | IDENTIFICADOR => analizar_identificador st
  | PALABRA_CLAVE => analizar_palabra_clave st
  | _ => Some (avanzar st)
  end.

(** The loop of [analizar_tokens]; [None] when an iteration raises or when
    the fuel runs out before the loop condition fails. *)
Fixpoint analizar_tokens_fuel (fuel : nat) (st : Estado) : option Estado :=
  if posicion st <? length (tokens st) then
    match fuel with
    | 0 => None
    | S f => st' <- paso st ;; analizar_tokens_fuel f st'
    end
  else Some st.

(** Every iteration moves the cursor forward (lemma [paso_sigue]), so the
    number of tokens left bounds the number of iterations. *)
Definition analizar_tokens (st : Estado) : option Estado :=
  analizar_tokens_fuel (length (tokens st) - posicion st) st.

Definition verificar_variables_no_usadas (st : Estado) : Estado :=
  fold_left
    (fun st variable =>
       if negb (usada variable) then
         agregar_advertencia st
           (advertencia_en (msg_no_usada (nombre variable))
                           (linea_declaracion variable))
       else st)
    (Dict.values (tabla_simbolos st)) st.

Definition verificar_variables_no_inicializadas (st : Estado) : Estado :=
  fold_left
    (fun st variable =>
       if usada variable && negb (inicializada variable) then
         agregar_advertencia st
           (advertencia_en (msg_sin_inicializar (nombre variable))
                           (linea_declaracion variable))
       else st)
    (Dict.values (tabla_simbolos st)) st.

(** [limpiar_estado] *)
Definition limpiar_estado (st : Estado) : Estado := mkEstado [] [] [] [] 0.

(** [analizar]: the state in which [generar_reporte] is called.  The
    report is a rendering of that state and is not modelled. *)
Definition analizar (U : Unicode) (st : Estado) (codigo : str)
  : option Estado :=
  let st := limpiar_estado st in
  ts <- tokenizar U codigo ;;
  let st := con_tokens st ts in
  match tokens st with
  | [] => Some (agregar_error st (error_en msg_sin_tokens 1))
  | _ :: _ =>
      st <- analizar_tokens st ;;
      let st := verificar_variables_no_usadas st in
      let st := verificar_variables_no_inicializadas st in
      Some st
  end.


(* ================================================================== *)
(** * Vocabulary of the statements *)

Unset Implicit Arguments.

Ltac simpl_st :=
  cbn [tokens posicion tabla_simbolos errores advertencias avanzar
       con_posicion con_tabla con_tokens agregar_error agregar_advertencia]
    in *.

Definition error_incompatible_inicializacion (variable : Variable_) : Error :=
  error_en (msg_incompatible_inicializacion
              (nombre variable) (linea_declaracion variable))
           (linea_declaracion variable).

Definition error_incompatible_asignacion (nombre_variable : str)
           (token_valor : Token) : Error :=
  error_en (msg_incompatible_asignacion nombre_variable (tk_linea token_valor))
           (tk_linea token_valor).

Definition nueva_variable (token_tipo token_nombre : Token) : Variable_ :=
  mkVariable (tk_valor token_nombre) (tk_valor token_tipo)
             (tk_linea token_nombre) false false.

(** The changes a handler makes to the symbol table. *)
Inductive cambio : Dict.dict Variable_ -> Dict.dict Variable_ -> Prop :=
| cambio_nada d : cambio d d
| cambio_usada d k :
    Dict.mem k d = true -> cambio d (Dict.update k marcar_usada d)
| cambio_inicializada d k v tok :
    Dict.get k d = Some v ->
    verificar_compatibilidad_tipos d (tipo v) tok = Some true ->
    cambio d (Dict.update k marcar_inicializada d)
| cambio_declarada d token_tipo token_nombre :
    Dict.mem (tk_valor token_nombre) d = false ->
    cambio d (d ++ [(tk_valor token_nombre,
                     nueva_variable token_tipo token_nombre)])
| cambio_trans d1 d2 d3 : cambio d1 d2 -> cambio d2 d3 -> cambio d1 d3.

#[local] Hint Constructors cambio : core.

Record sigue (st st' : Estado) : Prop := {
  sigue_tokens : tokens st' = tokens st;
  sigue_posicion : posicion st < posicion st';
  sigue_tabla : cambio (tabla_simbolos st) (tabla_simbolos st');
  sigue_advertencias : advertencias st' = advertencias st;
  sigue_errores : exists es, errores st' = errores st ++ es
}.

(** The reflexive-transitive closure: any number of iterations. *)
Record alcanza (st st' : Estado) : Prop := {
  alcanza_tokens : tokens st' = tokens st;
  alcanza_posicion : posicion st <= posicion st';
  alcanza_tabla : cambio (tabla_simbolos st) (tabla_simbolos st');
  alcanza_advertencias : advertencias st' = advertencias st;
  alcanza_errores : exists es, errores st' = errores st ++ es
}.

Fixpoint nullable (r : re) : bool :=
  match r with
  | Lit l => match l with [] => true | _ => false end
  | Cls _ => false
  | Seq a b => nullable a && nullable b
  | Alt a b => nullable a || nullable b
  | Opt _ => true
  | Star _ => true
  | Plus _ => false
  | Bnd _ => true
  end.

(** A line that [tokenizar] passes over. *)
Definition linea_omitida (U : Unicode) (linea0 : str) : bool :=
  match strip U linea0 with [] => true | _ => false end
  || startswith (lit "//") (strip U linea0).

Definition advertencias_no_usadas (d : Dict.dict Variable_) : list Error :=
  map (fun v => advertencia_en (msg_no_usada (nombre v)) (linea_declaracion v))
      (filter (fun v => negb (usada v)) (Dict.values d)).

Definition advertencias_sin_inicializar (d : Dict.dict Variable_) : list Error :=
  map (fun v =>
         advertencia_en (msg_sin_inicializar (nombre v)) (linea_declaracion v))
      (filter (fun v => usada v && negb (inicializada v)) (Dict.values d)).

(** The state in which a run ends, for a token list that is not empty. *)
Definition estado_final (st1 : Estado) : Estado :=
  mkEstado (tabla_simbolos st1) (errores st1)
           (advertencias_no_usadas (tabla_simbolos st1)
            ++ advertencias_sin_inicializar (tabla_simbolos st1))
           (tokens st1) (posicion st1).

Definition estado_sin_tokens : Estado :=
  mkEstado [] [error_en msg_sin_tokens 1] [] [] 0.

(** [ensancha destino origen]: [origen] is in the widening set of
    [destino]. *)
Inductive ensancha : str -> str -> Prop :=
| ens_int_int : ensancha (lit "int") (lit "int")
| ens_int_float : ensancha (lit "int") (lit "float")
| ens_int_double : ensancha (lit "int") (lit "double")
| ens_float_float : ensancha (lit "float") (lit "float")
| ens_float_double : ensancha (lit "float") (lit "double")
| ens_double_double : ensancha (lit "double") (lit "double")
| ens_bool_bool : ensancha (lit "bool") (lit "bool")
| ens_char_char : ensancha (lit "char") (lit "char")
| ens_string_string : ensancha (lit "string") (lit "string").

(** The rows of the table: the right-hand-side token against the declared
    type of the target. *)
Inductive compatible (tabla : Dict.dict Variable_) (token_valor : Token)
          (destino : str) : Prop :=
| compat_numero_con_punto :
    tk_tipo token_valor = NUMERO ->
    contains 46%N (tk_valor token_valor) = true ->
    In destino [lit "float"; lit "double"] ->
    compatible tabla token_valor destino
| compat_numero_sin_punto :
    tk_tipo token_valor = NUMERO ->
    contains 46%N (tk_valor token_valor) = false ->
    In destino [lit "int"; lit "float"; lit "double"] ->
    compatible tabla token_valor destino
| compat_booleano :
    tk_tipo token_valor = BOOLEANO ->
    destino = lit "bool" ->
    compatible tabla token_valor destino
| compat_cadena :
    tk_tipo token_valor = CADENA ->
    destino = lit "string" ->
    compatible tabla token_valor destino
| compat_identificador v :
    tk_tipo token_valor = IDENTIFICADOR ->
    Dict.get (tk_valor token_valor) tabla = Some v ->
    ensancha destino (tipo v) ->
    compatible tabla token_valor destino.

(** Keys are unique, and every symbol is stored under its own name. *)
Definition tabla_bien_formada (d : Dict.dict Variable_) : Prop :=
  NoDup (Dict.keys d) /\ Forall (fun kv => nombre (snd kv) = fst kv) d.

(** A symbol of type void is never initialized. *)
Definition void_sin_inicializar (d : Dict.dict Variable_) : Prop :=
  forall k v, In (k, v) d -> tipo v = lit "void" -> inicializada v = false.

Definition error_ya_declarada (token_nombre : Token) : Error :=
  error_en (msg_ya_declarada (tk_valor token_nombre) (tk_linea token_nombre))
           (tk_linea token_nombre).

Definition error_declaracion_incompleta (token_tipo : Token) : Error :=
  error_en (msg_declaracion_incompleta (tk_linea token_tipo))
           (tk_linea token_tipo).

Definition error_se_esperaba_identificador (token_tipo : Token) : Error :=
  error_en (msg_se_esperaba_identificador
              (tk_valor token_tipo) (tk_linea token_tipo))
           (tk_linea token_tipo).

Definition error_se_esperaba_parentesis (token_palabra : Token) : Error :=
  error_en (msg_se_esperaba_parentesis
              (tk_valor token_palabra) (tk_linea token_palabra))
           (tk_linea token_palabra).

(** An opening parenthesis somewhere after position [pos]. *)
Definition hay_parentesis_despues (ts : list Token) (pos : nat) : Prop :=
  exists j t, pos < j /\ nth_error ts j = Some t
              /\ tk_tipo t = PARENTESIS /\ tk_valor t = lit "(".

(** The states that the loop of [analizar_tokens] goes through on the
    tokens [ts]. *)
Inductive en_curso (ts : list Token) : Estado -> Prop :=
| en_curso_inicio : en_curso ts (mkEstado [] [] [] ts 0)
| en_curso_paso st st' :
    en_curso ts st ->
    posicion st < length (tokens st) ->
    paso st = Some st' ->
    en_curso ts st'.

(** The declaration that the iteration at [st] carries out, if any: the
    cursor is on a type keyword, an identifier follows, and its name is
    not yet a key.  The entry holds the index of the name token. *)
Definition declaracion_exitosa (st : Estado) : list (nat * str) :=
  match nth_error (tokens st) (posicion st),
        nth_error (tokens st) (S (posicion st)) with
  | Some token_actual, Some token_nombre =>
      if TipoToken_eqb (tk_tipo token_actual) TIPO_DATO
         && TipoToken_eqb (tk_tipo token_nombre) IDENTIFICADOR
         && negb (Dict.mem (tk_valor token_nombre) (tabla_simbolos st))
      then [(S (posicion st), tk_valor token_nombre)]
      else []
  | _, _ => []
  end.

(** The successful declarations of the loop of [analizar_tokens], in the
    order in which they happen. *)
Fixpoint declaraciones (fuel : nat) (st : Estado) : list (nat * str) :=
  if posicion st <? length (tokens st) then
    match fuel with
    | 0 => []
    | S f =>
        declaracion_exitosa st
        ++ match paso st with
           | Some st' => declaraciones f st'
           | None => []
           end
    end
  else [].

Definition antes (a b : nat * str) : Prop := fst a < fst b.

(** ** Sample inputs *)

Definition c1_token : Token := mkToken NUMERO (lit "2.5") 1 4.

Definition c1_estado : Estado :=
  mkEstado [(lit "x", mkVariable (lit "x") (lit "int") 1 false true)] [] []
           [mkToken IDENTIFICADOR (lit "x") 1 0; mkToken ASIGNACION (lit "=") 1 2;
            c1_token]
           1.

Definition c6_codigo : str := lit "  // nada" ++ [10%N] ++ lit "   ".

Definition c3_estado : Estado :=
  mkEstado [(lit "x", mkVariable (lit "x") (lit "int") 1 false false)] [] []
           [mkToken TIPO_DATO (lit "float") 2 0;
            mkToken IDENTIFICADOR (lit "x") 2 6;
            mkToken PUNTO_COMA (lit ";") 2 7]
           0.

Definition c4_estado : Estado :=
  mkEstado [] [] [] [mkToken TIPO_DATO (lit "int") 1 0] 0.

Definition c4_estado_numero : Estado :=
  mkEstado [] [] []
           [mkToken TIPO_DATO (lit "int") 3 0; mkToken NUMERO (lit "5") 3 4] 0.

Definition c5_estado : Estado :=
  mkEstado [] [] []
           [mkToken PALABRA_CLAVE (lit "while") 1 0;
            mkToken IDENTIFICADOR (lit "a") 1 6;
            mkToken PARENTESIS (lit "(") 2 0]
           0.

Definition c10_variable : Variable_ :=
  mkVariable (lit "v") (lit "void") 1 false true.

Definition c10_estado : Estado :=
  mkEstado [(lit "v", c10_variable)] [] []
           [mkToken IDENTIFICADOR (lit "v") 2 0; mkToken ASIGNACION (lit "=") 2 2;
            mkToken NUMERO (lit "1") 2 4]
           1.

Definition c7_codigo : str := lit "int a; a; int b;".

Definition c7_codigo_cruzado : str :=
  lit "int a;" ++ [10%N] ++ lit "a;" ++ [10%N] ++ lit "int b;".

(** The warning that one pass over the table would give a symbol: "no
    usada" when it is not used, else "usada sin inicializar" when it is
    not initialized. *)
Definition advertencia_de (v : Variable_) : list Error :=
  if negb (usada v)
  then [advertencia_en (msg_no_usada (nombre v)) (linea_declaracion v)]
  else if negb (inicializada v)
       then [advertencia_en (msg_sin_inicializar (nombre v))
                            (linea_declaracion v)]
       else [].

(** The warnings in the order of a single pass over the table, symbol by
    symbol in insertion order. *)
Definition advertencias_en_un_recorrido (d : Dict.dict Variable_)
  : list Error :=
  flat_map advertencia_de (Dict.values d).

Definition c10_variable_nueva : Variable_ :=
  mkVariable (lit "v") (lit "void") 1 false false.

(** The state at the [=] of [void v =]. *)
Definition c10_estado_sin_valor : Estado :=
  mkEstado [(lit "v", c10_variable_nueva)] [] []
           [mkToken TIPO_DATO (lit "void") 1 0;
            mkToken IDENTIFICADOR (lit "v") 1 5;
            mkToken ASIGNACION (lit "=") 1 7]
           2.

Definition c9_codigo : str :=
  lit "// uno" ++ [10%N] ++ lit "   bool ok = true;".

(* ================================================================== *)
(** * Further vocabulary *)

(** ** What a regular expression matches

    [matches r prev w s']: [r] matches the text [w] when [prev] is the
    character before it and [s'] is what follows in the subject. *)
Fixpoint matches (r : re) (prev : option char) (w s' : str) : Prop :=
  match r with
  | Lit l => w = l
  | Cls p => exists c, w = [c] /\ p c = true
  | Seq a b =>
      exists w1 w2,
        w = w1 ++ w2
        /\ matches a prev w1 (w2 ++ s')
        /\ matches b (last_of prev w1) w2 s'
  | Alt a b => matches a prev w s' \/ matches b prev w s'
  | Opt a => w = [] \/ matches a prev w s'
  | Star p => forallb p w = true
  | Plus p => w <> [] /\ forallb p w = true
  | Bnd wd =>
      w = [] /\ xorb (is_word wd prev) (is_word wd (hd_error s')) = true
  end.

(** The pattern that [self.patrones] pairs with a token type. *)
Definition patron_de (U : Unicode) (t : TipoToken) : re :=
  match find (fun tp => TipoToken_eqb (fst tp) t) (patrones U) with
  | Some tp => snd tp
  | None => Cls (fun _ => false)
  end.

(** ** The shape of the text of a token *)

(** [self.tipos_validos]; a set in the source, of which only membership is
    observed. *)
Definition tipos_validos : list str :=
  [lit "int"; lit "float"; lit "double"; lit "bool"; lit "char";
   lit "string"; lit "void"].

(** The words of the control-keyword rule and of the boolean rule. *)
Definition palabras_clave : list str :=
  [lit "if"; lit "else"; lit "while"; lit "for"; lit "return"; lit "break";
   lit "continue"; lit "switch"; lit "case"; lit "default"].

Definition booleanos : list str := [lit "true"; lit "false"].

Definition reservadas : list str :=
  tipos_validos ++ palabras_clave ++ booleanos.

Definition es_inicial (c : char) : bool := ascii_alpha c || N.eqb c 95%N.

Definition es_letra (c : char) : bool :=
  ascii_alpha c || ascii_digit c || N.eqb c 95%N.

(** What the text [w] of a token of type [t] looks like. *)
Definition forma (U : Unicode) (t : TipoToken) (w : str) : Prop :=
  match t with
  | TIPO_DATO => In w tipos_validos
  | PALABRA_CLAVE => In w palabras_clave
  | BOOLEANO => In w booleanos
  | NUMERO =>
      (w <> [] /\ forallb (isdigit U) w = true)
      \/ exists ent dec,
           w = ent ++ lit "." ++ dec
           /\ ent <> []
           /\ forallb (isdigit U) ent = true
           /\ forallb (isdigit U) dec = true
  | CADENA =>
      exists cuerpo,
        w = quote :: cuerpo ++ [quote]
        /\ forallb (fun c => negb (N.eqb c quote)) cuerpo = true
  | IDENTIFICADOR =>
      (exists c cs,
         w = c :: cs /\ es_inicial c = true /\ forallb es_letra cs = true)
      /\ ~ In w reservadas
  | ASIGNACION => w = lit "="
  | OPERADOR =>
      w <> [] /\ forallb (fun c => contains c (lit "+-*/%<>=!&|")) w = true
  | PARENTESIS => exists c, w = [c] /\ contains c (lit "(){}[]") = true
  | PUNTO_COMA => w = lit ";"
  | DESCONOCIDO => False
  end.

(** ** Order of the tokens *)

(** [t1] ends before [t2] starts: on an earlier line, or on the same line
    and to its left without overlap. *)
Definition precede (t1 t2 : Token) : Prop :=
  tk_linea t1 < tk_linea t2
  \/ (tk_linea t1 = tk_linea t2
      /\ tk_columna t1 + length (tk_valor t1) <= tk_columna t2).

(** The token [t] moved [k] lines down. *)
Definition desplazar (k : nat) (t : Token) : Token :=
  mkToken (tk_tipo t) (tk_valor t) (k + tk_linea t) (tk_columna t).

(** The token that [tokenizar] builds from the match [m] found in [linea],
    the line number [n]. *)
Definition de_match (linea : str) (n : nat) (m : str * nat * nat) (t : Token)
  : Prop :=
  TipoToken_getitem (fst (fst m)) = Some (tk_tipo t)
  /\ tk_valor t = slice linea (snd (fst m)) (snd m)
  /\ tk_linea t = n
  /\ tk_columna t = snd (fst m).

(** The match [m1] ends where [m2] starts or before. *)
Definition match_antes (m1 m2 : str * nat * nat) : Prop :=
  snd m1 <= snd (fst m2).

(** ** A finer account of one iteration of the dispatch loop *)

Record fino (st st' : Estado) : Prop := {
  fino_tokens : tokens st' = tokens st;
  fino_posicion : posicion st < posicion st' <= length (tokens st);
  fino_errores :
    exists es, errores st' = errores st ++ es /\ length es <= 1;
  fino_tabla :
    2 * length (tabla_simbolos st') + posicion st
    <= 2 * length (tabla_simbolos st) + posicion st'
}.

(** ** Where a symbol comes from *)

(** The symbol [v] was declared by a type keyword followed by an identifier
    in the tokens [ts]. *)
Definition procede (ts : list Token) (v : Variable_) : Prop :=
  exists i token_tipo token_nombre,
    nth_error ts i = Some token_tipo
    /\ tk_tipo token_tipo = TIPO_DATO
    /\ nth_error ts (S i) = Some token_nombre
    /\ tk_tipo token_nombre = IDENTIFICADOR
    /\ nombre v = tk_valor token_nombre
    /\ tipo v = tk_valor token_tipo
    /\ linea_declaracion v = tk_linea token_nombre.

(** The symbol [v'] is the symbol [v] later in the run: same name, type
    and declaration line, and no flag taken back. *)
Definition persiste (v v' : Variable_) : Prop :=
  nombre v' = nombre v
  /\ tipo v' = tipo v
  /\ linea_declaracion v' = linea_declaracion v
  /\ (inicializada v = true -> inicializada v' = true)
  /\ (usada v = true -> usada v' = true).

(** ** More sample inputs *)

Definition x_codigo : str :=
  lit "  int total = 42;" ++ [10%N] ++ lit "// nota" ++ [10%N]
  ++ lit "while (total >= 1.5) { total = total - 1; }".

Definition x5_codigo : str := lit "int a = 1; a;".

Definition x6_estado : Estado :=
  mkEstado [(lit "n", mkVariable (lit "n") (lit "int") 1 true false)] [] []
           [mkToken IDENTIFICADOR (lit "n") 2 0;
            mkToken ASIGNACION (lit "=") 2 2;
            mkToken CADENA (34%N :: lit "a" ++ [34%N]) 2 4;
            mkToken PUNTO_COMA (lit ";") 2 7]
           0.

(** ** Programs without declarations *)

Definition error_no_declarada (t : Token) : Error :=
  error_en (msg_no_declarada (tk_valor t) (tk_linea t)) (tk_linea t).

(** The errors of a token sequence in which nothing is declared: one for
    every identifier, and one for every [if], [while] or [for] that no
    opening parenthesis follows. *)
Fixpoint errores_de_usos (resto : list Token) : list Error :=
  match resto with
  | [] => []
  | t :: resto' =>
      match tk_tipo t with
      | IDENTIFICADOR => [error_no_declarada t]
      | PALABRA_CLAVE =>
          if in_list (tk_valor t) [lit "if"; lit "while"; lit "for"]
             && negb (buscar_parentesis resto')
          then [error_se_esperaba_parentesis t]
          else []
      | _ => []
      end ++ errores_de_usos resto'
  end.

Definition x8_codigo : str := lit "y = 5;" ++ [10%N] ++ lit "while y".

(** The types that have an entry in [compatibilidad_tipos]. *)
Definition tipos_con_valor : list str :=
  [lit "int"; lit "float"; lit "double"; lit "bool"; lit "char";
   lit "string"].

Definition x9_estado : Estado :=
  mkEstado [(lit "x", mkVariable (lit "x") (lit "int") 1 false false)] [] []
           [mkToken TIPO_DATO (lit "float") 2 0;
            mkToken IDENTIFICADOR (lit "x") 2 6;
            mkToken ASIGNACION (lit "=") 2 8;
            mkToken NUMERO (lit "1.5") 2 10;
            mkToken PUNTO_COMA (lit ";") 2 13]
           0.

Definition x10_estado : Estado :=
  mkEstado [] [] []
           [mkToken TIPO_DATO (lit "char") 1 0;
            mkToken IDENTIFICADOR (lit "c") 1 5;
            mkToken ASIGNACION (lit "=") 1 7;
            mkToken IDENTIFICADOR (lit "c") 1 9;
            mkToken PUNTO_COMA (lit ";") 1 10]
           0.

Definition x11_estado : Estado :=
  mkEstado [(lit "x", mkVariable (lit "x") (lit "int") 1 false false)] [] []
           [mkToken TIPO_DATO (lit "int") 2 0;
            mkToken IDENTIFICADOR (lit "y") 2 4;
            mkToken ASIGNACION (lit "=") 3 0]
           0.

Definition x11_estado_asignacion : Estado :=
  mkEstado [(lit "x", mkVariable (lit "x") (lit "int") 1 false false)] [] []
           [mkToken IDENTIFICADOR (lit "x") 2 0;
            mkToken ASIGNACION (lit "=") 3 0]
           0.

(** ** Lines of the diagnostics *)

(** [l] is the line of a token with index from [a] to [b]. *)
Definition linea_entre (ts : list Token) (a b l : nat) : Prop :=
  exists i t, a <= i <= b /\ nth_error ts i = Some t /\ l = tk_linea t.

(** The lines of the tokens do not decrease along the list. *)
Definition lineas_crecientes (ts : list Token) : Prop :=
  forall i j ti tj,
    i <= j -> nth_error ts i = Some ti -> nth_error ts j = Some tj ->
    tk_linea ti <= tk_linea tj.

(** The lines of the declarations in a table, in table order. *)
Definition lineas_de_tabla (d : Dict.dict Variable_) : list nat :=
  map linea_declaracion (Dict.values d).

(** What one iteration adds to a list of lines [L]: nothing, or one line
    of a token between the old and the new cursor. *)
Definition agrega_linea (st st' : Estado) (L L' : list nat) : Prop :=
  L' = L
  \/ exists l,
       L' = L ++ [l]
       /\ linea_entre (tokens st) (posicion st) (posicion st') l.

(** The lines [L] do not decrease and are lines of tokens up to the
    cursor [pos]. *)
Definition ordenadas (ts : list Token) (pos : nat) (L : list nat) : Prop :=
  StronglySorted le L /\ Forall (linea_entre ts 0 pos) L.

(* ================================================================== *)
(** * The report *)

(** [c * n] *)
Definition veces (n : nat) (c : char) : str := repeat c n.

(** [format(s, '<n')]: left-aligned in a field of [n] characters. *)
Definition ljust (ancho : nat) (s : str) : str :=
  s ++ repeat 32%N (ancho - length s).

(** ["\n".join(l)] *)
Fixpoint join_nl (l : list str) : str :=
  match l with
  | [] => []
  | [x] => x
  | x :: l' => x ++ 10%N :: join_nl l'
  end.

Definition rep_titulo : str :=
  lit "REPORTE DE AN" ++ [193%N] ++ lit "LISIS SEM" ++ [193%N] ++ lit "NTICO".
Definition rep_tabla : str :=
  [128203%N] ++ lit " TABLA DE S" ++ [205%N] ++ lit "MBOLOS:".
Definition rep_inicializada : str := [10003%N] ++ lit " Inicializada".
Definition rep_no_inicializada : str := [9888%N] ++ lit " No inicializada".
Definition rep_usada : str := [10003%N] ++ lit " Usada".
Definition rep_no_usada : str := [9888%N] ++ lit " No usada".
Definition rep_linea : str := lit "L" ++ [237%N] ++ lit "nea ".
Definition rep_errores (n : nat) : str :=
  [10060%N] ++ lit " ERRORES ENCONTRADOS (" ++ of_nat n ++ lit "):".
Definition rep_advertencias (n : nat) : str :=
  [9888%N] ++ [65039%N] ++ lit " ADVERTENCIAS (" ++ of_nat n ++ lit "):".
Definition rep_resumen : str := [128202%N] ++ lit " RESUMEN:".
Definition rep_con_errores : str :=
  [10060%N] ++ lit " AN" ++ [193%N] ++ lit "LISIS COMPLETADO CON ERRORES".
Definition rep_exito : str :=
  [9989%N] ++ lit " AN" ++ [193%N] ++ lit "LISIS COMPLETADO EXITOSAMENTE".

(** The row of a symbol in the table of the report. *)
Definition fila_simbolo (kv : str * Variable_) : str :=
  let nombre := fst kv in
  let variable := snd kv in
  let estado :=
    if inicializada variable then rep_inicializada
    else rep_no_inicializada in
  let uso := if usada variable then rep_usada else rep_no_usada in
  ljust 15 nombre ++ lit " | " ++ ljust 8 (tipo variable) ++ lit " | "
  ++ rep_linea ++ ljust 3 (of_nat (linea_declaracion variable)) ++ lit " | "
  ++ estado ++ lit " | " ++ uso.

(** The line of an error or of a warning in the report. *)
Definition linea_diagnostico (e : Error) : str :=
  rep_linea ++ of_nat (e_linea e) ++ lit ": " ++ mensaje e.

(** The list [reporte] that [generar_reporte] builds. *)
Definition reporte (st : Estado) : list str :=
  [veces 50 61%N; rep_titulo; veces 50 61%N]
  ++ match tabla_simbolos st with
     | [] => []
     | _ :: _ =>
         [10%N :: rep_tabla; veces 30 45%N]
         ++ map fila_simbolo (tabla_simbolos st)
     end
  ++ match errores st with
     | [] => []
     | _ :: _ =>
         [10%N :: rep_errores (length (errores st)); veces 30 45%N]
         ++ map linea_diagnostico (errores st)
     end
  ++ match advertencias st with
     | [] => []
     | _ :: _ =>
         [10%N :: rep_advertencias (length (advertencias st)); veces 30 45%N]
         ++ map linea_diagnostico (advertencias st)
     end
  ++ [10%N :: rep_resumen; veces 20 45%N;
      lit "Variables declaradas: " ++ of_nat (length (tabla_simbolos st));
      lit "Errores: " ++ of_nat (length (errores st));
      lit "Advertencias: " ++ of_nat (length (advertencias st));
      lit "Tokens procesados: " ++ of_nat (length (tokens st))]
  ++ [match errores st with
      | [] => 10%N :: rep_exito
      | _ :: _ => 10%N :: rep_con_errores
      end].

Definition generar_reporte (st : Estado) : str := join_nl (reporte st).

(** What [analizar] returns: the report of the state it ends in. *)
Definition analizar_reporte (U : Unicode) (st : Estado) (codigo : str)
  : option str :=
  option_map generar_reporte (analizar U st codigo).

(** ** The lines of the report *)

Definition sin_salto (s : str) : bool :=
  forallb (fun c => negb (N.eqb c 10%N)) s.

(** A section of the report, as lines: nothing when there are no rows,
    else an empty line, the heading, a rule and the rows. *)
Definition seccion (titulo : str) (filas : list str) : list str :=
  match filas with
  | [] => []
  | _ :: _ => [[]; titulo; veces 30 45%N] ++ filas
  end.

Definition lineas_de_reporte (st : Estado) : list str :=
  [veces 50 61%N; rep_titulo; veces 50 61%N]
  ++ seccion rep_tabla (map fila_simbolo (tabla_simbolos st))
  ++ seccion (rep_errores (length (errores st)))
             (map linea_diagnostico (errores st))
  ++ seccion (rep_advertencias (length (advertencias st)))
             (map linea_diagnostico (advertencias st))
  ++ [[]; rep_resumen; veces 20 45%N;
      lit "Variables declaradas: " ++ of_nat (length (tabla_simbolos st));
      lit "Errores: " ++ of_nat (length (errores st));
      lit "Advertencias: " ++ of_nat (length (advertencias st));
      lit "Tokens procesados: " ++ of_nat (length (tokens st))]
  ++ [[]; match errores st with [] => rep_exito | _ :: _ => rep_con_errores end].

(** No message of the list holds a newline. *)
Definition mensajes_sin_salto (es : list Error) : Prop :=
  Forall (fun e => sin_salto (mensaje e) = true) es.

(** ** The interactive reader of [main] *)

(** [s == ""] *)
Definition es_vacia (s : str) : bool :=
  match s with
  | [] => true
  | _ :: _ => false
  end.

(** [len(lineas) > 0 and lineas[-1] == ""] *)
Definition ultima_vacia (lineas : list str) : bool :=
  negb (Nat.eqb (length lineas) 0) && es_vacia (last lineas []).

(** The loop of [main] that reads the user's text.  [entrada] is what
    the successive calls of [input()] return; [None] is the [EOFError]
    that [input()] raises once the input is exhausted.  The result is
    the list [lineas] at the [break] and the input left unread. *)
Fixpoint leer_lineas (lineas entrada : list str)
  : option (list str * list str) :=
  match entrada with
  | [] => None
  | linea :: resto =>
      if es_vacia linea && ultima_vacia lineas
      then Some (lineas, resto)
      else leer_lineas (lineas ++ [linea]) resto
  end.

(** No two neighbours of [l] are both empty, and [l] does not start
    with an empty line when [p] says that an empty line came before. *)
Fixpoint sin_doble_tras (p : bool) (l : list str) : bool :=
  match l with
  | [] => true
  | a :: t => negb (p && es_vacia a) && sin_doble_tras (es_vacia a) t
  end.

Definition sin_doble (l : list str) : bool := sin_doble_tras false l.

Definition x17_entrada : list str :=
  [lit "int x = 5;"; []; lit "x = 7;"; []; []; lit "int y;"].

(* ================================================================== *)
(** * Properties *)

(** ** Strings and dictionaries *)

Lemma str_eqb_eq (a b : str) : PyStr.eqb a b = true <-> a = b.
Proof.
  revert b; induction a as [|x a IH]; intros [|y b]; simpl;
    try (split; (discriminate || reflexivity)).
  rewrite andb_true_iff, N.eqb_eq, IH.
  split; [intros [-> ->]; reflexivity | intros H; inversion H; auto].
Qed.

Lemma str_eqb_refl (a : str) : PyStr.eqb a a = true.
Proof. apply str_eqb_eq; reflexivity. Qed.

Lemma str_eqb_neq (a b : str) : PyStr.eqb a b = false <-> a <> b.
Proof.
  rewrite <- str_eqb_eq. destruct (PyStr.eqb a b); split; congruence.
Qed.

Lemma str_eqb_sym (a b : str) : PyStr.eqb a b = PyStr.eqb b a.
Proof.
  destruct (PyStr.eqb b a) eqn:E.
  - apply str_eqb_eq in E; subst. apply str_eqb_refl.
  - apply str_eqb_neq in E. apply str_eqb_neq. congruence.
Qed.

Lemma in_list_In (s : str) (l : list str) : in_list s l = true <-> In s l.
Proof.
  unfold in_list. rewrite existsb_exists. split.
  - intros [x [Hx He]]. apply str_eqb_eq in He. subst; assumption.
  - intros H. exists s. split; [assumption | apply str_eqb_refl].
Qed.

Section DictFacts.
Context {V : Type}.
Implicit Types (d : Dict.dict V) (k : str).

Lemma dict_mem_get k d : Dict.mem k d = true <-> exists v, Dict.get k d = Some v.
Proof.
  unfold Dict.mem. destruct (Dict.get k d).
  - split; eauto.
  - split; [discriminate | intros [v Hv]; discriminate].
Qed.

Lemma dict_mem_keys k d : Dict.mem k d = true <-> In k (Dict.keys d).
Proof.
  unfold Dict.mem. induction d as [|[k' v'] d IH]; simpl.
  - split; [discriminate | tauto].
  - destruct (PyStr.eqb k' k) eqn:E.
    + apply str_eqb_eq in E. split; auto.
    + apply str_eqb_neq in E. rewrite IH. split; [auto | intros [H|H]; congruence].
Qed.

Lemma dict_get_In k d v : Dict.get k d = Some v -> In (k, v) d.
Proof.
  induction d as [|[k' v'] d IH]; simpl; [discriminate|].
  destruct (PyStr.eqb k' k) eqn:E.
  - apply str_eqb_eq in E. intros H; inversion H; subst; auto.
  - auto.
Qed.

Lemma dict_In_get k d v :
  NoDup (Dict.keys d) -> In (k, v) d -> Dict.get k d = Some v.
Proof.
  induction d as [|[k' v'] d IH]; simpl; [tauto|].
  intros Hnd [H|H].
  - inversion H; subst. rewrite str_eqb_refl. reflexivity.
  - inversion Hnd as [|? ? Hni Hnd']; subst.
    destruct (PyStr.eqb k' k) eqn:E; [|auto].
    apply str_eqb_eq in E; subst. exfalso; apply Hni.
    change k with (fst (k, v)). apply in_map; assumption.
Qed.

Lemma dict_keys_update k f d : Dict.keys (Dict.update k f d) = Dict.keys d.
Proof.
  induction d as [|[k' v'] d IH]; simpl; [reflexivity|].
  destruct (PyStr.eqb k' k); simpl; [reflexivity | f_equal; exact IH].
Qed.

Lemma dict_get_update k k0 f d :
  Dict.get k0 (Dict.update k f d) =
  if PyStr.eqb k k0 then option_map f (Dict.get k0 d) else Dict.get k0 d.
Proof.
  induction d as [|[k' v'] d IH]; simpl.
  - destruct (PyStr.eqb k k0); reflexivity.
  - destruct (PyStr.eqb k' k) eqn:E; simpl.
    + apply str_eqb_eq in E; subst k'.
      destruct (PyStr.eqb k k0); reflexivity.
    + rewrite IH. destruct (PyStr.eqb k' k0) eqn:E0; [|reflexivity].
      apply str_eqb_eq in E0; subst k'.
      rewrite (str_eqb_sym k k0), E. reflexivity.
Qed.

Lemma dict_mem_update k k0 f d :
  Dict.mem k0 (Dict.update k f d) = Dict.mem k0 d.
Proof.
  unfold Dict.mem. rewrite dict_get_update.
  destruct (PyStr.eqb k k0), (Dict.get k0 d); reflexivity.
Qed.

Lemma dict_set_new k v d :
  Dict.mem k d = false -> Dict.set k v d = d ++ [(k, v)].
Proof.
  unfold Dict.mem. induction d as [|[k' v'] d IH]; simpl; [reflexivity|].
  destruct (PyStr.eqb k' k); [discriminate|].
  intros H. rewrite IH by assumption. reflexivity.
Qed.

Lemma dict_update_In k f d kv :
  In kv (Dict.update k f d) ->
  In kv d \/ exists v, Dict.get k d = Some v /\ kv = (k, f v).
Proof.
  induction d as [|[k' v'] d IH]; simpl; [tauto|].
  destruct (PyStr.eqb k' k) eqn:E; simpl.
  - apply str_eqb_eq in E; subst k'.
    intros [H|H]; [right; exists v'; auto | auto].
  - intros [H|H]; [auto|].
    destruct (IH H) as [H'|[v [H1 H2]]]; [auto | right; exists v; auto].
Qed.

End DictFacts.

(** ** The handlers, case by case *)

Lemma leb_length_nth {A : Type} (l : list A) (n : nat) :
  (length l <=? n) = match nth_error l n with Some _ => false | None => true end.
Proof.
  destruct (nth_error l n) eqn:E.
  - apply Nat.leb_gt. apply nth_error_Some. congruence.
  - apply Nat.leb_le. apply nth_error_None. assumption.
Qed.

Lemma ltb_length_nth {A : Type} (l : list A) (n : nat) :
  (n <? length l) = match nth_error l n with Some _ => true | None => false end.
Proof.
  destruct (nth_error l n) eqn:E.
  - apply Nat.ltb_lt. apply nth_error_Some. congruence.
  - apply Nat.ltb_ge. apply nth_error_None. assumption.
Qed.

Lemma verificar_compatibilidad_tipos_total tabla tipo_variable token_valor :
  exists b,
    verificar_compatibilidad_tipos tabla tipo_variable token_valor = Some b.
Proof.
  unfold verificar_compatibilidad_tipos.
  destruct (tk_tipo token_valor); eauto.
  - destruct (Dict.mem (tk_valor token_valor) tabla) eqn:E; eauto.
    apply dict_mem_get in E. destruct E as [v ->]. eauto.
  - destruct (contains _ _); eauto.
Qed.

Lemma analizar_inicializacion_eq st variable :
  analizar_inicializacion st variable =
  match nth_error (tokens st) (S (posicion st)) with
  | None =>
      Some (agregar_error (avanzar st)
              (error_en (msg_inicializacion_incompleta
                           (nombre variable) (linea_declaracion variable))
                        (linea_declaracion variable)))
  | Some token_valor =>
      match verificar_compatibilidad_tipos
              (tabla_simbolos st) (tipo variable) token_valor with
      | Some true =>
          Some (avanzar (con_tabla (avanzar st)
                  (Dict.update (nombre variable) marcar_inicializada
                               (tabla_simbolos st))))
      | Some false =>
          Some (avanzar (agregar_error (avanzar st)
                  (error_incompatible_inicializacion variable)))
      | None => None
      end
  end.
Proof.
  unfold analizar_inicializacion. simpl_st.
  rewrite leb_length_nth.
  destruct (nth_error (tokens st) (S (posicion st))); [|reflexivity].
  destruct (verificar_compatibilidad_tipos _ _ _) as [[|]|]; reflexivity.
Qed.

Lemma analizar_asignacion_eq st nombre_variable :
  analizar_asignacion st nombre_variable =
  match nth_error (tokens st) (S (posicion st)) with
  | None =>
      anterior <- nth_error (tokens st) (posicion st) ;;
      Some (agregar_error (avanzar st)
              (error_en (msg_asignacion_incompleta nombre_variable)
                        (tk_linea anterior)))
  | Some token_valor =>
      variable <- Dict.get nombre_variable (tabla_simbolos st) ;;
      match verificar_compatibilidad_tipos
              (tabla_simbolos st) (tipo variable) token_valor with
      | Some true =>
          Some (avanzar (con_tabla (avanzar st)
                  (Dict.update nombre_variable marcar_inicializada
                               (tabla_simbolos st))))
      | Some false =>
          Some (avanzar (agregar_error (avanzar st)
                  (error_incompatible_asignacion nombre_variable token_valor)))
      | None => None
      end
  end.
Proof.
  unfold analizar_asignacion. simpl_st.
  rewrite leb_length_nth.
  replace (S (posicion st) - 1) with (posicion st) by lia.
  destruct (nth_error (tokens st) (S (posicion st))); [|reflexivity].
  destruct (Dict.get nombre_variable (tabla_simbolos st)); [|reflexivity].
  destruct (verificar_compatibilidad_tipos _ _ _) as [[|]|]; reflexivity.
Qed.

Lemma analizar_declaracion_eq st :
  analizar_declaracion st =
  match nth_error (tokens st) (posicion st) with
  | None => Some st
  | Some token_tipo =>
      match nth_error (tokens st) (S (posicion st)) with
      | None =>
          Some (agregar_error (avanzar st)
                  (error_en (msg_declaracion_incompleta (tk_linea token_tipo))
                            (tk_linea token_tipo)))
      | Some token_nombre =>
          if negb (TipoToken_eqb (tk_tipo token_nombre) IDENTIFICADOR) then
            Some (agregar_error (avanzar st)
                    (error_en (msg_se_esperaba_identificador
                                 (tk_valor token_tipo) (tk_linea token_tipo))
                              (tk_linea token_tipo)))
          else if Dict.mem (tk_valor token_nombre) (tabla_simbolos st) then
            Some (agregar_error (avanzar st)
                    (error_en (msg_ya_declarada (tk_valor token_nombre)
                                                (tk_linea token_nombre))
                              (tk_linea token_nombre)))
          else
            let variable := nueva_variable token_tipo token_nombre in
            let st2 :=
              avanzar (con_tabla (avanzar st)
                         (Dict.set (tk_valor token_nombre) variable
                                   (tabla_simbolos st))) in
            match nth_error (tokens st) (S (S (posicion st))) with
            | Some t =>
                if TipoToken_eqb (tk_tipo t) ASIGNACION
                then analizar_inicializacion st2 variable
                else Some st2
            | None => Some st2
            end
      end
  end.
Proof.
  unfold analizar_declaracion. simpl_st.
  rewrite !leb_length_nth.
  destruct (nth_error (tokens st) (posicion st)); [|reflexivity].
  destruct (nth_error (tokens st) (S (posicion st))) as [tn|]; [|reflexivity].
  destruct (negb _); [reflexivity|].
  destruct (Dict.mem _ _); [reflexivity|].
  rewrite ltb_length_nth.
  destruct (nth_error (tokens st) (S (S (posicion st)))); reflexivity.
Qed.

Lemma analizar_identificador_eq st :
  analizar_identificador st =
  token_identificador <- nth_error (tokens st) (posicion st) ;;
  if Dict.mem (tk_valor token_identificador) (tabla_simbolos st) then
    let st1 :=
      con_tabla st (Dict.update (tk_valor token_identificador) marcar_usada
                                (tabla_simbolos st)) in
    match nth_error (tokens st) (S (posicion st)) with
    | Some t =>
        if TipoToken_eqb (tk_tipo t) ASIGNACION
        then analizar_asignacion (avanzar st1) (tk_valor token_identificador)
        else Some (avanzar st1)
    | None => Some (avanzar st1)
    end
  else
    Some (avanzar (agregar_error st
            (error_en (msg_no_declarada (tk_valor token_identificador)
                                        (tk_linea token_identificador))
                      (tk_linea token_identificador)))).
Proof.
  unfold analizar_identificador.
  destruct (nth_error (tokens st) (posicion st)) as [ti|]; [|reflexivity].
  destruct (Dict.mem (tk_valor ti) (tabla_simbolos st)) eqn:E; simpl_st;
    cbn [negb]; [|reflexivity].
  apply dict_mem_get in E. destruct E as [v ->].
  rewrite ltb_length_nth.
  destruct (nth_error (tokens st) (S (posicion st))); reflexivity.
Qed.

(** ** What one iteration of the dispatch loop can do *)

Lemma sigue_avanzar st : sigue st (avanzar st).
Proof.
  split; simpl_st; auto. exists []. rewrite app_nil_r. reflexivity.
Qed.

Lemma sigue_trans st1 st2 st3 : sigue st1 st2 -> sigue st2 st3 -> sigue st1 st3.
Proof.
  intros [T1 P1 C1 A1 [e1 E1]] [T2 P2 C2 A2 [e2 E2]]. split.
  - congruence.
  - lia.
  - eauto.
  - congruence.
  - exists (e1 ++ e2). rewrite E2, E1, app_assoc. reflexivity.
Qed.

Lemma sigue_error st e : sigue st (agregar_error (avanzar st) e).
Proof. split; simpl_st; eauto. Qed.

Lemma sigue_avanzar_error st e : sigue st (avanzar (agregar_error st e)).
Proof. split; simpl_st; eauto. Qed.

Lemma dict_get_app_new {V : Type} k (v : V) d :
  Dict.get k (d ++ [(k, v)]) =
  match Dict.get k d with Some v' => Some v' | None => Some v end.
Proof.
  induction d as [|[k' v'] d IH]; simpl.
  - rewrite str_eqb_refl. reflexivity.
  - destruct (PyStr.eqb k' k); [reflexivity | exact IH].
Qed.

Lemma analizar_inicializacion_sigue st variable :
  Dict.get (nombre variable) (tabla_simbolos st) = Some variable ->
  exists st', analizar_inicializacion st variable = Some st' /\ sigue st st'.
Proof.
  intros Hget. rewrite analizar_inicializacion_eq.
  destruct (nth_error (tokens st) (S (posicion st))) as [tok|].
  - destruct (verificar_compatibilidad_tipos_total
                (tabla_simbolos st) (tipo variable) tok) as [[|] Hb];
      rewrite Hb; eexists; split; try reflexivity.
    + split; simpl_st; eauto. exists []. rewrite app_nil_r. reflexivity.
    + split; simpl_st; eauto.
  - eexists; split; [reflexivity | apply sigue_error].
Qed.

Lemma analizar_asignacion_sigue st k :
  Dict.mem k (tabla_simbolos st) = true ->
  posicion st < length (tokens st) ->
  exists st', analizar_asignacion st k = Some st' /\ sigue st st'.
Proof.
  intros Hmem Hpos. rewrite analizar_asignacion_eq.
  apply dict_mem_get in Hmem. destruct Hmem as [v Hv].
  destruct (nth_error (tokens st) (S (posicion st))) as [tok|].
  - rewrite Hv.
    destruct (verificar_compatibilidad_tipos_total
                (tabla_simbolos st) (tipo v) tok) as [[|] Hb];
      rewrite Hb; eexists; split; try reflexivity.
    + split; simpl_st; eauto. exists []. rewrite app_nil_r. reflexivity.
    + split; simpl_st; eauto.
  - destruct (nth_error (tokens st) (posicion st)) as [ant|] eqn:E.
    + eexists; split; [reflexivity | apply sigue_error].
    + apply nth_error_None in E. lia.
Qed.

Lemma analizar_declaracion_sigue st :
  posicion st < length (tokens st) ->
  exists st', analizar_declaracion st = Some st' /\ sigue st st'.
Proof.
  intros Hpos. rewrite analizar_declaracion_eq.
  destruct (nth_error (tokens st) (posicion st)) as [tt|] eqn:E;
    [|apply nth_error_None in E; lia].
  destruct (nth_error (tokens st) (S (posicion st))) as [tn|];
    [|eexists; split; [reflexivity | apply sigue_error]].
  destruct (negb _); [eexists; split; [reflexivity | apply sigue_error]|].
  destruct (Dict.mem _ _) eqn:Hmem;
    [eexists; split; [reflexivity | apply sigue_error]|].
  cbv zeta. rewrite dict_set_new by exact Hmem.
  set (st2 := avanzar (con_tabla (avanzar st) _)).
  assert (S2 : sigue st st2).
  { split; subst st2; simpl_st; eauto. exists []. rewrite app_nil_r. reflexivity. }
  destruct (nth_error (tokens st) (S (S (posicion st)))) as [t|]; [|eauto].
  destruct (TipoToken_eqb (tk_tipo t) ASIGNACION); [|eauto].
  destruct (analizar_inicializacion_sigue st2 (nueva_variable tt tn))
    as [st' [H1 H2]].
  - subst st2; simpl_st. cbn [nueva_variable nombre].
    rewrite dict_get_app_new.
    unfold Dict.mem in Hmem.
    destruct (Dict.get (tk_valor tn) (tabla_simbolos st)); [discriminate|].
    reflexivity.
  - exists st'. split; [assumption | eapply sigue_trans; eassumption].
Qed.

Lemma analizar_identificador_sigue st :
  posicion st < length (tokens st) ->
  exists st', analizar_identificador st = Some st' /\ sigue st st'.
Proof.
  intros Hpos. rewrite analizar_identificador_eq.
  destruct (nth_error (tokens st) (posicion st)) as [ti|] eqn:E;
    [|apply nth_error_None in E; lia].
  destruct (Dict.mem _ _) eqn:Hmem;
    [|eexists; split; [reflexivity | apply sigue_avanzar_error]].
  cbv zeta.
  set (st1 := con_tabla st _).
  assert (S1 : sigue st (avanzar st1)).
  { split; subst st1; simpl_st; eauto. exists []. rewrite app_nil_r. reflexivity. }
  destruct (nth_error (tokens st) (S (posicion st))) as [t|] eqn:E1; [|eauto].
  destruct (TipoToken_eqb (tk_tipo t) ASIGNACION); [|eauto].
  destruct (analizar_asignacion_sigue (avanzar st1) (tk_valor ti))
    as [st' [H1 H2]].
  - subst st1; simpl_st. rewrite dict_mem_update. assumption.
  - subst st1; simpl_st. apply nth_error_Some. congruence.
  - exists st'. split; [assumption | eapply sigue_trans; eassumption].
Qed.

Lemma analizar_palabra_clave_sigue st :
  posicion st < length (tokens st) ->
  exists st', analizar_palabra_clave st = Some st' /\ sigue st st'.
Proof.
  intros Hpos. unfold analizar_palabra_clave.
  destruct (nth_error (tokens st) (posicion st)) as [tp|] eqn:E;
    [|apply nth_error_None in E; lia].
  eexists; split; [reflexivity|].
  destruct (in_list _ _); [|apply sigue_avanzar].
  unfold analizar_estructura_control.
  destruct (negb _); [apply sigue_avanzar_error | apply sigue_avanzar].
Qed.

Lemma paso_sigue st :
  posicion st < length (tokens st) ->
  exists st', paso st = Some st' /\ sigue st st'.
Proof.
  intros Hpos. unfold paso.
  destruct (nth_error (tokens st) (posicion st)) as [t|] eqn:E;
    [|apply nth_error_None in E; lia].
  destruct (tk_tipo t);
    try (eexists; split; [reflexivity | apply sigue_avanzar]).
  - apply analizar_declaracion_sigue; assumption.
  - apply analizar_identificador_sigue; assumption.
  - apply analizar_palabra_clave_sigue; assumption.
Qed.

Lemma analizar_tokens_fuel_alcanza fuel st :
  length (tokens st) - posicion st <= fuel ->
  exists st',
    analizar_tokens_fuel fuel st = Some st' /\ alcanza st st'
    /\ length (tokens st') <= posicion st'.
Proof.
  revert st. induction fuel as [|fuel IH]; intros st Hf; simpl.
  - destruct (posicion st <? length (tokens st)) eqn:E.
    + apply Nat.ltb_lt in E. lia.
    + apply Nat.ltb_ge in E. exists st. repeat split; auto.
      exists []. rewrite app_nil_r. reflexivity.
  - destruct (posicion st <? length (tokens st)) eqn:E.
    + apply Nat.ltb_lt in E.
      destruct (paso_sigue st E) as [st1 [H1 [T1 P1 C1 A1 [e1 E1]]]].
      rewrite H1.
      destruct (IH st1) as [st2 [H2 [[T2 P2 C2 A2 [e2 E2]] L2]]].
      { rewrite T1. lia. }
      exists st2. split; [assumption|]. split; [|assumption].
      split; try congruence; try lia; eauto.
      exists (e1 ++ e2). rewrite E2, E1, app_assoc. reflexivity.
    + apply Nat.ltb_ge in E. exists st. repeat split; auto.
      exists []. rewrite app_nil_r. reflexivity.
Qed.

(** The fuel of [analizar_tokens] is enough: the loop ends by its own
    condition, and more fuel gives the same result. *)
Lemma analizar_tokens_termina st :
  exists st',
    analizar_tokens st = Some st' /\ alcanza st st'
    /\ length (tokens st') <= posicion st'.
Proof. apply analizar_tokens_fuel_alcanza. unfold ge. lia. Qed.

Lemma analizar_tokens_fuel_mas fuel st st' :
  analizar_tokens_fuel fuel st = Some st' ->
  forall fuel', fuel <= fuel' -> analizar_tokens_fuel fuel' st = Some st'.
Proof.
  revert st. induction fuel as [|fuel IH]; intros st H fuel' Hle.
  - simpl in H. destruct (posicion st <? length (tokens st)) eqn:E;
      [discriminate|].
    destruct fuel'; simpl; rewrite E; assumption.
  - destruct fuel' as [|fuel']; [lia|]. simpl in *.
    destruct (posicion st <? length (tokens st)); [|assumption].
    destruct (paso st) as [st1|]; [|discriminate].
    apply IH; [assumption | lia].
Qed.

(** ** The matcher *)

Lemma prefix_skipn l s s' :
  prefix l s = Some s' -> s' = skipn (length l) s /\ length l <= length s.
Proof.
  revert s. induction l as [|x l IH]; intros [|y s]; simpl; try discriminate.
  - intros H; inversion H; auto.
  - intros H; inversion H; split; [reflexivity | lia].
  - destruct (N.eqb x y); [|discriminate].
    intros H. destruct (IH _ H). split; [assumption | lia].
Qed.

(** A successful repetition hands over to its continuation further on in
    the subject. *)
Lemma rep_inv p k prev pos s x :
  rep p k prev pos s = Some x ->
  exists prev' n,
    k prev' (pos + n) (skipn n s) = Some x /\ n <= length s.
Proof.
  revert prev pos. induction s as [|c s IH]; intros prev pos; simpl.
  - intros H. exists prev, 0. rewrite Nat.add_0_r. auto.
  - assert (Hk : k prev pos (c :: s) = Some x ->
                 exists prev' n,
                   k prev' (pos + n) (skipn n (c :: s)) = Some x
                   /\ n <= S (length s)).
    { intros H. exists prev, 0. rewrite Nat.add_0_r. split; [assumption|lia]. }
    destruct (p c); [|assumption].
    destruct (rep p k (Some c) (S pos) s) as [r|] eqn:E; [|assumption].
    intros H; inversion H; subst r.
    destruct (IH _ _ E) as [prev' [n [H1 H2]]].
    exists prev', (S n). rewrite Nat.add_succ_r. simpl. split; [assumption|lia].
Qed.

Lemma run_inv r : forall k prev pos s x,
  run r k prev pos s = Some x ->
  exists prev' n,
    k prev' (pos + n) (skipn n s) = Some x /\ n <= length s
    /\ (nullable r = false -> 0 < n).
Proof.
  induction r as [l|p|a IHa b IHb|a IHa b IHb|a IHa|p|p|w];
    intros k prev pos s x; simpl.
  - destruct (prefix l s) as [s'|] eqn:E; [|discriminate].
    destruct (prefix_skipn _ _ _ E) as [-> Hl]. intros H.
    exists (last_of prev l), (length l). repeat split; auto.
    destruct l; [discriminate | simpl; lia].
  - destruct s as [|c s]; [discriminate|].
    destruct (p c); [|discriminate]. intros H.
    exists (Some c), 1. rewrite Nat.add_1_r. simpl. repeat split; auto; lia.
  - intros H. destruct (IHa _ _ _ _ _ H) as [p1 [n1 [H1 [L1 N1]]]].
    destruct (IHb _ _ _ _ _ H1) as [p2 [n2 [H2 [L2 N2]]]].
    exists p2, (n1 + n2).
    rewrite skipn_skipn, (Nat.add_comm n2 n1), <- Nat.add_assoc in H2.
    rewrite length_skipn in L2.
    repeat split; [assumption | lia |].
    intros Hn. apply andb_false_iff in Hn. destruct Hn as [Hn|Hn];
      [specialize (N1 Hn) | specialize (N2 Hn)]; lia.
  - destruct (run a k prev pos s) as [e|] eqn:E.
    + intros H; inversion H; subst e.
      destruct (IHa _ _ _ _ _ E) as [p1 [n1 [H1 [L1 N1]]]].
      exists p1, n1. repeat split; auto.
      intros Hn. apply orb_false_iff in Hn. tauto.
    + intros H. destruct (IHb _ _ _ _ _ H) as [p1 [n1 [H1 [L1 N1]]]].
      exists p1, n1. repeat split; auto.
      intros Hn. apply orb_false_iff in Hn. tauto.
  - destruct (run a k prev pos s) as [e|] eqn:E.
    + intros H; inversion H; subst e.
      destruct (IHa _ _ _ _ _ E) as [p1 [n1 [H1 [L1 N1]]]].
      exists p1, n1. repeat split; auto. discriminate.
    + intros H. exists prev, 0. rewrite Nat.add_0_r.
      repeat split; auto; [lia | discriminate].
  - intros H. destruct (rep_inv _ _ _ _ _ _ H) as [p1 [n1 [H1 L1]]].
    exists p1, n1. repeat split; auto. discriminate.
  - destruct s as [|c s]; [discriminate|].
    destruct (p c); [|discriminate]. intros H.
    destruct (rep_inv _ _ _ _ _ _ H) as [p1 [n1 [H1 L1]]].
    exists p1, (S n1). rewrite Nat.add_succ_r. simpl.
    repeat split; auto; lia.
  - destruct (xorb _ _); [|discriminate]. intros H.
    exists prev, 0. rewrite Nat.add_0_r. repeat split; auto; [lia|discriminate].
Qed.

Lemma match_at_inv groups prev pos s g e :
  match_at groups prev pos s = Some (g, e) ->
  exists r, In (g, r) groups /\ pos <= e <= pos + length s
            /\ (nullable r = false -> pos < e).
Proof.
  induction groups as [|[name r] gs IH]; simpl; [discriminate|].
  destruct (run r accept prev pos s) as [x|] eqn:E.
  - intros H; inversion H; subst. exists r.
    destruct (run_inv _ _ _ _ _ _ E) as [p1 [n [H1 [L1 N1]]]].
    unfold accept in H1. inversion H1; subst.
    split; [auto|]. split; [lia|]. intros Hn. specialize (N1 Hn). lia.
  - intros H. destruct (IH H) as [r' [H1 H2]]. exists r'. auto.
Qed.

(** Every match reported by [finditer] lies inside the subject and carries
    the name of one of the groups. *)
Lemma finditer_fuel_inv groups subject fuel : forall pos g ini fin,
  In (g, ini, fin) (finditer_fuel fuel groups subject pos) ->
  exists r, In (g, r) groups /\ pos <= ini /\ ini <= fin <= length subject
            /\ (nullable r = false -> ini < fin).
Proof.
  induction fuel as [|fuel IH]; intros pos g ini fin; simpl; [tauto|].
  destruct (length subject <? pos) eqn:Hp; [simpl; tauto|].
  apply Nat.ltb_ge in Hp.
  destruct (match_at groups (before subject pos) pos (skipn pos subject))
    as [[g0 e]|] eqn:E.
  - destruct (match_at_inv _ _ _ _ _ _ E) as [r [H1 [H2 H3]]].
    rewrite length_skipn in H2.
    intros [H|H].
    + inversion H; subst. exists r. repeat split; auto; lia.
    + destruct (IH _ _ _ _ H) as [r' [G1 [G2 G3]]].
      exists r'. repeat split; try tauto.
      destruct (e =? pos) eqn:Ee; [|apply Nat.eqb_neq in Ee]; lia.
  - intros H. destruct (IH _ _ _ _ H) as [r' [G1 [G2 G3]]].
    exists r'. repeat split; try tauto. lia.
Qed.

(** The fuel of [finditer] is enough: every round moves the position
    forward, and more fuel reports the same matches. *)
Lemma finditer_fuel_mas groups subject fuel : forall pos fuel',
  S (length subject) - pos <= fuel -> fuel <= fuel' ->
  finditer_fuel fuel' groups subject pos = finditer_fuel fuel groups subject pos.
Proof.
  induction fuel as [|fuel IH]; intros pos fuel' Hf Hle.
  - destruct fuel'; simpl; [reflexivity|].
    destruct (length subject <? pos) eqn:Hp; [reflexivity|].
    apply Nat.ltb_ge in Hp. lia.
  - destruct fuel' as [|fuel']; [lia|]. simpl.
    destruct (length subject <? pos) eqn:Hp; [reflexivity|].
    apply Nat.ltb_ge in Hp.
    destruct (match_at groups (before subject pos) pos (skipn pos subject))
      as [[g0 e]|] eqn:E.
    + destruct (match_at_inv _ _ _ _ _ _ E) as [r [H1 [H2 H3]]].
      f_equal. apply IH; [|lia].
      destruct (e =? pos) eqn:Ee; [|apply Nat.eqb_neq in Ee]; lia.
    + apply IH; lia.
Qed.

(** ** The lexer *)

Lemma TipoToken_getitem_name t : TipoToken_getitem (TipoToken_name t) = Some t.
Proof. destruct t; reflexivity. Qed.

Lemma patron_compilado_In U g r :
  In (g, r) (patron_compilado U) ->
  (exists t, g = TipoToken_name t) /\ nullable r = false.
Proof.
  unfold patron_compilado, patrones. cbn [map fst snd In].
  intros H.
  repeat (destruct H as [H|H];
          [match type of H with
           | (TipoToken_name ?t, _) = _ =>
               injection H as <- <-;
               split; [exists t; reflexivity | reflexivity]
           end|]).
  destruct H.
Qed.

(** The pattern of the lexer never matches the empty string. *)
Lemma patron_no_vacio U linea g ini fin :
  In (g, ini, fin) (finditer (patron_compilado U) linea) ->
  (exists t, g = TipoToken_name t) /\ ini < fin <= length linea.
Proof.
  intros H. apply finditer_fuel_inv in H.
  destruct H as [r [H1 [_ [H2 H3]]]].
  destruct (patron_compilado_In _ _ _ H1) as [Ht Hn].
  split; [assumption|]. specialize (H3 Hn). lia.
Qed.

Lemma tokens_de_matches_spec linea num_linea ms :
  (forall g ini fin, In (g, ini, fin) ms -> exists t, g = TipoToken_name t) ->
  exists ts,
    tokens_de_matches linea num_linea ms = Some ts
    /\ forall t, In t ts ->
         exists g fin,
           In (g, tk_columna t, fin) ms
           /\ tk_valor t = slice linea (tk_columna t) fin
           /\ tk_linea t = num_linea.
Proof.
  induction ms as [|[[g ini] fin] ms IH]; intros Hn; simpl.
  - exists []. split; [reflexivity | simpl; tauto].
  - destruct (Hn g ini fin (or_introl eq_refl)) as [t0 ->].
    rewrite TipoToken_getitem_name.
    destruct IH as [ts [H1 H2]].
    { intros g' i' f' H. apply (Hn g' i' f'). right; assumption. }
    rewrite H1. eexists; split; [reflexivity|].
    intros t [<-|Ht]; simpl.
    + exists (TipoToken_name t0), fin. auto.
    + destruct (H2 t Ht) as [g' [f' [G1 G2]]]. exists g', f'. auto.
Qed.

Lemma tokenizar_lineas_spec U lineas : forall num_linea,
  exists ts,
    tokenizar_lineas U num_linea lineas = Some ts
    /\ forall t, In t ts ->
         exists i linea0,
           nth_error lineas i = Some linea0
           /\ tk_linea t = num_linea + i
           /\ linea_omitida U linea0 = false
           /\ tk_valor t <> []
           /\ tk_valor t =
              slice (strip U linea0) (tk_columna t)
                    (tk_columna t + length (tk_valor t)).
Proof.
  induction lineas as [|linea0 resto IH]; intros num_linea;
    cbn [tokenizar_lineas].
  - exists []. split; [reflexivity | simpl; tauto].
  - destruct (IH (S num_linea)) as [ts' [H1 H2]].
    assert (Hresto : forall t, In t ts' ->
              exists i l0,
                nth_error (linea0 :: resto) i = Some l0
                /\ tk_linea t = num_linea + i
                /\ linea_omitida U l0 = false
                /\ tk_valor t <> []
                /\ tk_valor t =
                   slice (strip U l0) (tk_columna t)
                         (tk_columna t + length (tk_valor t))).
    { intros t Ht. destruct (H2 t Ht) as [i [l0 [G1 [G2 G3]]]].
      exists (S i), l0. simpl. repeat split; try tauto. lia. }
    cbv zeta. fold (linea_omitida U linea0).
    destruct (linea_omitida U linea0) eqn:Hom.
    + exists ts'. split; assumption.
    + destruct (tokens_de_matches_spec (strip U linea0) num_linea
                  (finditer (patron_compilado U) (strip U linea0)))
        as [ts [T1 T2]].
      { intros g ini fin H. apply (patron_no_vacio _ _ _ _ _ H). }
      rewrite T1, H1. eexists; split; [reflexivity|].
      intros t Ht. apply in_app_or in Ht. destruct Ht as [Ht|Ht]; [|auto].
      destruct (T2 t Ht) as [g [fin [G1 [G2 G3]]]].
      destruct (patron_no_vacio _ _ _ _ _ G1) as [_ Hb].
      assert (Hlen : length (tk_valor t) = fin - tk_columna t).
      { rewrite G2. unfold slice.
        rewrite length_firstn, length_skipn. lia. }
      exists 0, linea0. simpl. repeat split; auto.
      * lia.
      * intros Hv. rewrite Hv in Hlen. simpl in Hlen. lia.
      * rewrite Hlen.
        replace (tk_columna t + (fin - tk_columna t)) with fin by lia.
        assumption.
Qed.

Lemma tokenizar_total U codigo : exists ts, tokenizar U codigo = Some ts.
Proof.
  destruct (tokenizar_lineas_spec U (split_nl codigo) 1) as [ts [H _]].
  exists ts. exact H.
Qed.

(** ** The whole run *)

Lemma fold_advertencias (c : Variable_ -> bool) (w : Variable_ -> Error) vs :
  forall st,
    fold_left (fun st v => if c v then agregar_advertencia st (w v) else st)
              vs st
    = mkEstado (tabla_simbolos st) (errores st)
               (advertencias st ++ map w (filter c vs))
               (tokens st) (posicion st).
Proof.
  induction vs as [|v vs IH]; intros st; simpl.
  - rewrite app_nil_r. destruct st; reflexivity.
  - rewrite IH. destruct (c v); simpl_st; [|reflexivity].
    simpl. rewrite <- app_assoc. reflexivity.
Qed.

Lemma verificar_variables_no_usadas_eq st :
  verificar_variables_no_usadas st =
  mkEstado (tabla_simbolos st) (errores st)
           (advertencias st ++ advertencias_no_usadas (tabla_simbolos st))
           (tokens st) (posicion st).
Proof.
  unfold verificar_variables_no_usadas, advertencias_no_usadas.
  apply (fold_advertencias (fun v => negb (usada v))).
Qed.

Lemma verificar_variables_no_inicializadas_eq st :
  verificar_variables_no_inicializadas st =
  mkEstado (tabla_simbolos st) (errores st)
           (advertencias st ++ advertencias_sin_inicializar (tabla_simbolos st))
           (tokens st) (posicion st).
Proof.
  unfold verificar_variables_no_inicializadas, advertencias_sin_inicializar.
  apply (fold_advertencias (fun v => usada v && negb (inicializada v))).
Qed.

Lemma analizar_sin_tokens U st codigo :
  tokenizar U codigo = Some [] ->
  analizar U st codigo = Some estado_sin_tokens.
Proof. intros H. unfold analizar. rewrite H. reflexivity. Qed.

Lemma analizar_con_tokens U st codigo ts :
  tokenizar U codigo = Some ts -> ts <> [] ->
  exists st1,
    analizar_tokens (mkEstado [] [] [] ts 0) = Some st1
    /\ alcanza (mkEstado [] [] [] ts 0) st1
    /\ length ts <= posicion st1
    /\ analizar U st codigo = Some (estado_final st1).
Proof.
  intros H Hne. unfold analizar. rewrite H.
  unfold limpiar_estado, con_tokens. simpl_st.
  destruct ts as [|t ts]; [congruence|].
  destruct (analizar_tokens_termina (mkEstado [] [] [] (t :: ts) 0))
    as [st1 [H1 [H2 H3]]].
  exists st1. rewrite H1. split; [reflexivity|]. split; [assumption|].
  destruct H2 as [T2 _ _ A2 _]. simpl_st. split.
  - rewrite T2 in H3. exact H3.
  - rewrite verificar_variables_no_inicializadas_eq,
      verificar_variables_no_usadas_eq. simpl_st.
    rewrite A2. reflexivity.
Qed.

Lemma analizar_total U st codigo : exists r, analizar U st codigo = Some r.
Proof.
  destruct (tokenizar_total U codigo) as [[|t ts] H].
  - eexists. apply analizar_sin_tokens. exact H.
  - destruct (analizar_con_tokens U st codigo (t :: ts) H) as [st1 [_ [_ [_ R]]]];
      [discriminate|]. eexists. exact R.
Qed.

(** A run does not look at the state it starts from. *)
Lemma analizar_limpia U st1 st2 codigo :
  analizar U st1 codigo = analizar U st2 codigo.
Proof. reflexivity. Qed.

(* ================================================================== *)
(** * The compatibility table, as stated *)

Lemma ensancha_compatibilidad_tipos destino origen :
  in_list origen
    (match Dict.get destino compatibilidad_tipos with
     | Some l => l
     | None => []
     end) = true
  <-> ensancha destino origen.
Proof.
  split.
  - destruct (Dict.get destino compatibilidad_tipos) as [l|] eqn:E;
      [|discriminate].
    apply dict_get_In in E. intros H. apply in_list_In in H.
    unfold compatibilidad_tipos in E. cbn [In] in E.
    repeat (destruct E as [E|E];
            [injection E as <- <-; cbn [In] in H;
             repeat (destruct H as [H|H]; [subst origen; constructor|]);
             destruct H|]).
    destruct E.
  - intros H. destruct H; reflexivity.
Qed.

Lemma verificar_compatibilidad_tipos_correcta tabla destino token_valor :
  exists b,
    verificar_compatibilidad_tipos tabla destino token_valor = Some b
    /\ (b = true <-> compatible tabla token_valor destino).
Proof.
  unfold verificar_compatibilidad_tipos.
  destruct (tk_tipo token_valor) eqn:Et;
    try (exists false; split; [reflexivity|];
         split; [discriminate | intros H; destruct H; congruence]).
  - (* IDENTIFICADOR *)
    destruct (Dict.mem (tk_valor token_valor) tabla) eqn:Em.
    + apply dict_mem_get in Em. destruct Em as [v Hv]. rewrite Hv.
      eexists; split; [reflexivity|].
      rewrite ensancha_compatibilidad_tipos. split.
      * intros H. eapply compat_identificador; eassumption.
      * intros H; destruct H; congruence.
    + exists false. split; [reflexivity|].
      split; [discriminate|]. intros H; destruct H; try congruence.
      unfold Dict.mem in Em. destruct (Dict.get _ _); discriminate.
  - (* NUMERO *)
    destruct (contains 46%N (tk_valor token_valor)) eqn:Ec;
      (eexists; split; [reflexivity|]); rewrite in_list_In; split.
    + intros H. apply compat_numero_con_punto; assumption.
    + intros H; destruct H; congruence.
    + intros H. apply compat_numero_sin_punto; assumption.
    + intros H; destruct H; congruence.
  - (* CADENA *)
    eexists; split; [reflexivity|]. rewrite str_eqb_eq. split.
    + intros H. apply compat_cadena; assumption.
    + intros H; destruct H; congruence.
  - (* BOOLEANO *)
    eexists; split; [reflexivity|]. rewrite str_eqb_eq. split.
    + intros H. apply compat_booleano; assumption.
    + intros H; destruct H; congruence.
Qed.

(** C1. The check shared by initialization and assignment accepts exactly
    the pairs of the compatibility table: a number with a point goes with
    float and double, a number without with int, float and double, a
    boolean with bool, a string with string, an identifier of a declared
    symbol with the targets whose widening set holds its type; anything
    else is rejected.  Both handlers add no error on a compatible pair and
    add their "Tipo incompatible" error on an incompatible one. *)
Theorem C1_tabla_de_compatibilidad :
  forall st nombre_variable variable token_valor,
    nth_error (tokens st) (S (posicion st)) = Some token_valor ->
    Dict.get nombre_variable (tabla_simbolos st) = Some variable ->
    let ok := compatible (tabla_simbolos st) token_valor (tipo variable) in
    (exists b,
       verificar_compatibilidad_tipos
         (tabla_simbolos st) (tipo variable) token_valor = Some b
       /\ (b = true <-> ok))
    /\ (exists st',
          analizar_inicializacion st variable = Some st'
          /\ (ok -> errores st' = errores st)
          /\ (~ ok ->
              errores st' =
              errores st ++ [error_incompatible_inicializacion variable]))
    /\ (exists st',
          analizar_asignacion st nombre_variable = Some st'
          /\ (ok -> errores st' = errores st)
          /\ (~ ok ->
              errores st' =
              errores st
              ++ [error_incompatible_asignacion nombre_variable token_valor])).
Proof.
  intros st nombre_variable variable token_valor Htok Hvar ok.
  destruct (verificar_compatibilidad_tipos_correcta
              (tabla_simbolos st) (tipo variable) token_valor)
    as [b [Hb Hok]].
  fold ok in Hok.
  split; [exists b; auto|]. split.
  - rewrite analizar_inicializacion_eq, Htok, Hb.
    destruct b; eexists; (split; [reflexivity|]); simpl_st; split;
      intros H; try reflexivity.
    + exfalso. apply H. apply Hok. reflexivity.
    + apply Hok in H. discriminate.
  - rewrite analizar_asignacion_eq, Htok, Hvar, Hb.
    destruct b; eexists; (split; [reflexivity|]); simpl_st; split;
      intros H; try reflexivity.
    + exfalso. apply H. apply Hok. reflexivity.
    + apply Hok in H. discriminate.
Qed.

Lemma C1_tabla_de_compatibilidad_witness :
  nth_error (tokens c1_estado) (S (posicion c1_estado)) = Some c1_token
  /\ Dict.get (lit "x") (tabla_simbolos c1_estado)
     = Some (mkVariable (lit "x") (lit "int") 1 false true)
  /\ exists st',
       analizar_asignacion c1_estado (lit "x") = Some st'
       /\ (compatible (tabla_simbolos c1_estado) c1_token (lit "int") ->
           errores st' = errores c1_estado)
       /\ (~ compatible (tabla_simbolos c1_estado) c1_token (lit "int") ->
           errores st' =
           errores c1_estado
           ++ [error_incompatible_asignacion (lit "x") c1_token]).
Proof.
  split; [reflexivity|]. split; [reflexivity|].
  exact (proj2 (proj2 (C1_tabla_de_compatibilidad
                         c1_estado (lit "x")
                         (mkVariable (lit "x") (lit "int") 1 false true)
                         c1_token eq_refl eq_refl))).
Defined.

(** C6. When tokenization yields no token (the empty string is such an
    input) the run ends at once with the single error "No se encontraron
    tokens validos" at line 1, an empty symbol table and no warning: the
    cursor is untouched, and neither the dispatch loop nor the post-scan
    checks have added anything. *)
Theorem C6_sin_tokens :
  forall U st codigo,
    tokenizar U codigo = Some [] ->
    analizar U st codigo = Some estado_sin_tokens
    /\ tabla_simbolos estado_sin_tokens = []
    /\ advertencias estado_sin_tokens = []
    /\ errores estado_sin_tokens = [mkError ERROR msg_sin_tokens 1 0]
    /\ posicion estado_sin_tokens = 0
    /\ tokenizar U [] = Some []
    /\ analizar U st [] = Some estado_sin_tokens.
Proof.
  intros U st codigo H. split; [apply analizar_sin_tokens; exact H|].
  repeat split; reflexivity.
Qed.

Lemma C6_sin_tokens_witness :
  tokenizar latin1 c6_codigo = Some []
  /\ analizar latin1 estado_inicial c6_codigo = Some estado_sin_tokens.
Proof.
  split; [reflexivity|].
  exact (proj1 (C6_sin_tokens latin1 estado_inicial c6_codigo eq_refl)).
Defined.

(** C8. A run is a function of the source text alone: started from any two
    states it returns, and returns the same symbol table, errors and
    warnings in the same order; a second run on the state left by a run
    on another text gives what a fresh analyzer gives. *)
Theorem C8_determinismo :
  forall U st1 st2 codigo_previo codigo,
    exists previo r,
      analizar U st1 codigo = Some r
      /\ analizar U st2 codigo = Some r
      /\ analizar U st1 codigo_previo = Some previo
      /\ analizar U previo codigo = Some r
      /\ analizar U estado_inicial codigo = Some r.
Proof.
  intros U st1 st2 codigo_previo codigo.
  destruct (analizar_total U st1 codigo_previo) as [previo Hp].
  destruct (analizar_total U st1 codigo) as [r Hr].
  exists previo, r. repeat split; try assumption;
    rewrite <- Hr; apply analizar_limpia.
Qed.

(* ================================================================== *)
(** * Invariants of the symbol table *)

Lemma keys_app {V : Type} (d1 d2 : Dict.dict V) :
  Dict.keys (d1 ++ d2) = Dict.keys d1 ++ Dict.keys d2.
Proof. apply map_app. Qed.

Lemma update_bien_formada k f d :
  (forall v, nombre (f v) = nombre v) ->
  tabla_bien_formada d -> tabla_bien_formada (Dict.update k f d).
Proof.
  intros Hf [Hnd Hn]. split.
  - rewrite dict_keys_update. assumption.
  - rewrite Forall_forall in *. intros kv Hin.
    destruct (dict_update_In _ _ _ _ Hin) as [H|[v [H1 H2]]]; [auto|].
    subst kv. simpl. rewrite Hf.
    apply (Hn (k, v)). apply dict_get_In. assumption.
Qed.

Lemma cambio_bien_formada d d' :
  cambio d d' -> tabla_bien_formada d -> tabla_bien_formada d'.
Proof.
  induction 1 as [d|d k Hm|d k v tok Hg Hv|d tt tn Hm|d1 d2 d3 _ IH1 _ IH2];
    intros Hd; auto.
  - apply update_bien_formada; [reflexivity | assumption].
  - apply update_bien_formada; [reflexivity | assumption].
  - destruct Hd as [Hnd Hn]. split.
    + rewrite keys_app. apply NoDup_app; [assumption | |].
      * simpl. constructor; [simpl; tauto | constructor].
      * simpl. intros a Ha [<-|[]].
        apply dict_mem_keys in Ha. congruence.
    + apply Forall_app. split; [assumption|].
      constructor; [reflexivity | constructor].
Qed.

Lemma verificar_compatibilidad_tipos_void tabla token_valor :
  verificar_compatibilidad_tipos tabla (lit "void") token_valor = Some false.
Proof.
  unfold verificar_compatibilidad_tipos.
  destruct (tk_tipo token_valor); try reflexivity.
  - destruct (Dict.mem _ _) eqn:E; [|reflexivity].
    apply dict_mem_get in E. destruct E as [v ->].
    replace (Dict.get (lit "void") compatibilidad_tipos) with (@None (list str))
      by reflexivity.
    reflexivity.
  - destruct (contains _ _); reflexivity.
Qed.

Lemma cambio_void d d' :
  cambio d d' -> void_sin_inicializar d -> void_sin_inicializar d'.
Proof.
  induction 1 as [d|d k Hm|d k v tok Hg Hv|d tt tn Hm|d1 d2 d3 _ IH1 _ IH2];
    intros Hd; auto.
  - intros k0 v0 Hin Ht.
    destruct (dict_update_In _ _ _ _ Hin) as [H|[v [H1 H2]]]; [eauto|].
    inversion H2; subst. simpl in *.
    apply (Hd k v); [apply dict_get_In; assumption | assumption].
  - intros k0 v0 Hin Ht.
    destruct (dict_update_In _ _ _ _ Hin) as [H|[v1 [H1 H2]]]; [eauto|].
    inversion H2; subst. simpl in Ht.
    assert (v1 = v) by congruence. subst v1.
    rewrite Ht, verificar_compatibilidad_tipos_void in Hv. discriminate.
  - intros k0 v0 Hin Ht. apply in_app_or in Hin.
    destruct Hin as [Hin|[Hin|[]]]; [eauto|].
    inversion Hin; subst. reflexivity.
Qed.

(** Every run ends, and its table is reached from the empty one. *)
Lemma analizar_tabla U st codigo :
  exists r, analizar U st codigo = Some r /\ cambio [] (tabla_simbolos r).
Proof.
  destruct (tokenizar_total U codigo) as [[|t ts] H].
  - exists estado_sin_tokens. split; [apply analizar_sin_tokens; exact H|].
    simpl. constructor.
  - destruct (analizar_con_tokens U st codigo (t :: ts) H)
      as [st1 [_ [[_ _ C _ _] [_ R]]]]; [discriminate|].
    exists (estado_final st1). split; assumption.
Qed.

Lemma tabla_vacia_bien_formada : tabla_bien_formada [].
Proof. split; constructor. Qed.

Lemma buscar_parentesis_existsb resto :
  buscar_parentesis resto = existsb es_parentesis_apertura resto.
Proof.
  induction resto as [|t resto IH]; simpl; [reflexivity|].
  rewrite IH. destruct (es_parentesis_apertura t); reflexivity.
Qed.

Lemma buscar_parentesis_nth ts n :
  buscar_parentesis (skipn n ts) = true <->
  exists j t, n <= j /\ nth_error ts j = Some t
              /\ tk_tipo t = PARENTESIS /\ tk_valor t = lit "(".
Proof.
  rewrite buscar_parentesis_existsb, existsb_exists. split.
  - intros [t [Hin Ht]]. apply In_nth_error in Hin. destruct Hin as [i Hi].
    rewrite nth_error_skipn in Hi. exists (n + i), t.
    unfold es_parentesis_apertura in Ht. apply andb_true_iff in Ht.
    destruct Ht as [H1 H2]. apply str_eqb_eq in H2.
    repeat split; auto; [lia|]. destruct (tk_tipo t); try discriminate.
    reflexivity.
  - intros [j [t [Hj [Hn [H1 H2]]]]]. exists t. split.
    + apply (nth_error_In _ (j - n)). rewrite nth_error_skipn.
      replace (n + (j - n)) with j by lia. assumption.
    + unfold es_parentesis_apertura. rewrite H1, H2. reflexivity.
Qed.

(* ================================================================== *)
(** * Declarations *)

(** C3. A name has at most one entry in the symbol table of a run.  When
    the declaration handler meets an identifier that is already a key, it
    adds the error "Variable ... ya declarada", leaves the table as it was
    (no symbol added, none changed) and stops on the identifier.  For
    [int x; int x;] the table keeps the single entry of [x]. *)
Theorem C3_declaracion_duplicada :
  (forall U st codigo,
     exists r, analizar U st codigo = Some r
               /\ NoDup (Dict.keys (tabla_simbolos r)))
  /\ (forall U st,
        exists r,
          analizar U st (lit "int x; int x;") = Some r
          /\ tabla_simbolos r
             = [(lit "x", mkVariable (lit "x") (lit "int") 1 false true)]
          /\ errores r = [error_en (msg_ya_declarada (lit "x") 1) 1])
  /\ (forall st token_tipo token_nombre,
        nth_error (tokens st) (posicion st) = Some token_tipo ->
        nth_error (tokens st) (S (posicion st)) = Some token_nombre ->
        tk_tipo token_nombre = IDENTIFICADOR ->
        Dict.mem (tk_valor token_nombre) (tabla_simbolos st) = true ->
        exists st',
          analizar_declaracion st = Some st'
          /\ tabla_simbolos st' = tabla_simbolos st
          /\ errores st' = errores st ++ [error_ya_declarada token_nombre]
          /\ advertencias st' = advertencias st
          /\ posicion st' = S (posicion st)).
Proof.
  split; [|split].
  - intros U st codigo.
    destruct (analizar_tabla U st codigo) as [r [H1 H2]].
    exists r. split; [assumption|].
    apply (cambio_bien_formada _ _ H2 tabla_vacia_bien_formada).
  - intros U st. eexists. split; [vm_compute; reflexivity|].
    split; reflexivity.
  - intros st token_tipo token_nombre H1 H2 H3 H4.
    rewrite analizar_declaracion_eq, H1, H2, H3, H4. simpl.
    eexists. split; [reflexivity|]. repeat split.
Qed.

Lemma C3_declaracion_duplicada_witness :
  nth_error (tokens c3_estado) (posicion c3_estado)
  = Some (mkToken TIPO_DATO (lit "float") 2 0)
  /\ nth_error (tokens c3_estado) (S (posicion c3_estado))
     = Some (mkToken IDENTIFICADOR (lit "x") 2 6)
  /\ Dict.mem (lit "x") (tabla_simbolos c3_estado) = true
  /\ exists st',
       analizar_declaracion c3_estado = Some st'
       /\ tabla_simbolos st' = tabla_simbolos c3_estado
       /\ errores st'
          = errores c3_estado
            ++ [error_ya_declarada (mkToken IDENTIFICADOR (lit "x") 2 6)]
       /\ advertencias st' = advertencias c3_estado
       /\ posicion st' = S (posicion c3_estado).
Proof.
  split; [reflexivity|]. split; [reflexivity|]. split; [reflexivity|].
  exact (proj2 (proj2 C3_declaracion_duplicada)
           c3_estado (mkToken TIPO_DATO (lit "float") 2 0)
           (mkToken IDENTIFICADOR (lit "x") 2 6)
           eq_refl eq_refl eq_refl eq_refl).
Defined.

(** C4, as stated, fails when the type keyword is the last token: the
    error is then "Declaracion incompleta", not "Se esperaba un
    identificador". *)
Lemma C4_identificador_ausente_counterexample :
  nth_error (tokens c4_estado) (posicion c4_estado)
  = Some (mkToken TIPO_DATO (lit "int") 1 0)
  /\ nth_error (tokens c4_estado) (S (posicion c4_estado)) = None
  /\ analizar_declaracion c4_estado
     = Some (mkEstado [] [error_en (msg_declaracion_incompleta 1) 1] []
                      [mkToken TIPO_DATO (lit "int") 1 0] 1)
  /\ ~ In (error_se_esperaba_identificador (mkToken TIPO_DATO (lit "int") 1 0))
          [error_en (msg_declaracion_incompleta 1) 1]
  /\ exists r,
       analizar latin1 estado_inicial (lit "int") = Some r
       /\ errores r = [error_en (msg_declaracion_incompleta 1) 1].
Proof.
  split; [reflexivity|]. split; [reflexivity|]. split; [reflexivity|].
  split.
  - intros [H|[]]. discriminate H.
  - eexists. split; [vm_compute; reflexivity | reflexivity].
Qed.

(** C4, amended. At a type keyword followed by a token that is not an
    identifier the declaration handler adds the error "Se esperaba un
    identificador despues de '<tipo>'" at the line of the keyword; at a
    type keyword that ends the sequence it adds the error "Declaracion
    incompleta" at that line.  Either way the table is unchanged and the
    cursor stands just past the type keyword. *)
Theorem C4_identificador_esperado :
  forall st token_tipo,
    nth_error (tokens st) (posicion st) = Some token_tipo ->
    (nth_error (tokens st) (S (posicion st)) = None ->
     analizar_declaracion st
     = Some (agregar_error (avanzar st)
               (error_declaracion_incompleta token_tipo)))
    /\ (forall t,
          nth_error (tokens st) (S (posicion st)) = Some t ->
          tk_tipo t <> IDENTIFICADOR ->
          analizar_declaracion st
          = Some (agregar_error (avanzar st)
                    (error_se_esperaba_identificador token_tipo)))
    /\ (forall e,
          tabla_simbolos (agregar_error (avanzar st) e) = tabla_simbolos st
          /\ errores (agregar_error (avanzar st) e) = errores st ++ [e]
          /\ posicion (agregar_error (avanzar st) e) = S (posicion st)).
Proof.
  intros st token_tipo H. split; [|split].
  - intros Hn. rewrite analizar_declaracion_eq, H, Hn. reflexivity.
  - intros t Ht Hk. rewrite analizar_declaracion_eq, H, Ht.
    destruct (tk_tipo t); try reflexivity. congruence.
  - intros e. repeat split.
Qed.

Lemma C4_identificador_esperado_witness :
  nth_error (tokens c4_estado_numero) (posicion c4_estado_numero)
  = Some (mkToken TIPO_DATO (lit "int") 3 0)
  /\ nth_error (tokens c4_estado_numero) (S (posicion c4_estado_numero))
     = Some (mkToken NUMERO (lit "5") 3 4)
  /\ analizar_declaracion c4_estado_numero
     = Some (agregar_error (avanzar c4_estado_numero)
               (error_se_esperaba_identificador
                  (mkToken TIPO_DATO (lit "int") 3 0)))
  /\ analizar_declaracion c4_estado
     = Some (agregar_error (avanzar c4_estado)
               (error_declaracion_incompleta
                  (mkToken TIPO_DATO (lit "int") 1 0))).
Proof.
  split; [reflexivity|]. split; [reflexivity|]. split.
  - apply (proj1 (proj2 (C4_identificador_esperado
                           c4_estado_numero _ eq_refl))
             (mkToken NUMERO (lit "5") 3 4) eq_refl).
    discriminate.
  - exact (proj1 (C4_identificador_esperado c4_estado _ eq_refl) eq_refl).
Defined.

(* ================================================================== *)
(** * Control structures *)

(** C5. At an [if], [while] or [for] token the dispatch loop looks through
    all the tokens that follow, to the end of the sequence, for an
    opening parenthesis; it adds the error "Se esperaba '(' despues de
    '<palabra>'" at the line of the keyword exactly when there is none,
    and in both cases moves the cursor by one only, so that no
    parenthesis is consumed.  [if x > 0 { }] gets the error. *)
Theorem C5_estructura_de_control :
  forall st token_palabra,
    nth_error (tokens st) (posicion st) = Some token_palabra ->
    tk_tipo token_palabra = PALABRA_CLAVE ->
    In (tk_valor token_palabra) [lit "if"; lit "while"; lit "for"] ->
    (exists st',
       paso st = Some st'
       /\ posicion st' = S (posicion st)
       /\ tokens st' = tokens st
       /\ tabla_simbolos st' = tabla_simbolos st
       /\ (hay_parentesis_despues (tokens st) (posicion st) ->
           errores st' = errores st)
       /\ (~ hay_parentesis_despues (tokens st) (posicion st) ->
           errores st'
           = errores st ++ [error_se_esperaba_parentesis token_palabra])
       /\ (forall j t, posicion st < j -> nth_error (tokens st) j = Some t ->
                       posicion st' <= j))
    /\ (forall U st0,
          exists r,
            analizar U st0 (lit "if x > 0 { }") = Some r
            /\ In (error_en (msg_se_esperaba_parentesis (lit "if") 1) 1)
                  (errores r)).
Proof.
  intros st token_palabra Htok Htipo Hval. split.
  - unfold paso. rewrite Htok, Htipo.
    unfold analizar_palabra_clave. rewrite Htok.
    apply in_list_In in Hval. rewrite Hval.
    unfold analizar_estructura_control.
    destruct (buscar_parentesis (skipn (S (posicion st)) (tokens st))) eqn:E;
      cbn [negb]; eexists; (split; [reflexivity|]); simpl_st;
      repeat split; try lia.
    + intros H. exfalso. apply H. apply buscar_parentesis_nth in E.
      exact E.
    + intros H. apply buscar_parentesis_nth in H. congruence.
  - intros U st0. eexists. split; [vm_compute; reflexivity|].
    left. reflexivity.
Qed.

Lemma C5_estructura_de_control_witness :
  nth_error (tokens c5_estado) (posicion c5_estado)
  = Some (mkToken PALABRA_CLAVE (lit "while") 1 0)
  /\ In (lit "while") [lit "if"; lit "while"; lit "for"]
  /\ hay_parentesis_despues (tokens c5_estado) (posicion c5_estado)
  /\ exists st',
       paso c5_estado = Some st'
       /\ posicion st' = 1
       /\ errores st' = [].
Proof.
  split; [reflexivity|]. split; [right; left; reflexivity|].
  assert (Hp : hay_parentesis_despues (tokens c5_estado) (posicion c5_estado)).
  { exists 2, (mkToken PARENTESIS (lit "(") 2 0). repeat split. simpl. lia. }
  split; [exact Hp|].
  destruct (proj1 (C5_estructura_de_control
                     c5_estado (mkToken PALABRA_CLAVE (lit "while") 1 0)
                     eq_refl eq_refl (or_intror (or_introl eq_refl))))
    as [st' [H1 [H2 [_ [_ [H3 _]]]]]].
  exists st'. split; [exact H1|]. split; [exact H2 | exact (H3 Hp)].
Defined.

(* ================================================================== *)
(** * Variables of type void *)

Lemma en_curso_cambio ts st : en_curso ts st -> cambio [] (tabla_simbolos st).
Proof.
  induction 1 as [|st st' _ IH Hpos Hp]; [constructor|].
  destruct (paso_sigue st Hpos) as [st2 [H2 [_ _ C _ _]]].
  assert (st2 = st') by congruence. subst st2.
  eapply cambio_trans; eassumption.
Qed.

(** C10, as stated, fails when the text ends right after the [=]: the
    initialization of a void variable then adds the error "Inicializacion
    incompleta" and the assignment the error "Asignacion incompleta";
    neither adds a "Tipo incompatible" error. *)
Lemma C10_sin_valor_counterexample :
  (exists r,
     analizar latin1 estado_inicial (lit "void v =") = Some r
     /\ Dict.get (lit "v") (tabla_simbolos r) = Some c10_variable_nueva
     /\ errores r = [error_en (msg_inicializacion_incompleta (lit "v") 1) 1]
     /\ ~ In (error_incompatible_inicializacion c10_variable_nueva)
             (errores r))
  /\ (exists r,
        analizar latin1 estado_inicial (lit "void v; v =") = Some r
        /\ Dict.get (lit "v") (tabla_simbolos r)
           = Some (mkVariable (lit "v") (lit "void") 1 false true)
        /\ errores r = [error_en (msg_asignacion_incompleta (lit "v")) 1]
        /\ forall token_valor,
             ~ In (error_incompatible_asignacion (lit "v") token_valor)
                  (errores r)).
Proof.
  split.
  - eexists. split; [vm_compute; reflexivity|].
    split; [reflexivity|]. split; [reflexivity|].
    intros [H|[]]. discriminate H.
  - eexists. split; [vm_compute; reflexivity|].
    split; [reflexivity|]. split; [reflexivity|].
    intros token_valor [H|[]].
    apply (f_equal mensaje) in H. discriminate H.
Qed.

(** C10, amended. No right-hand side is compatible with the type void:
    the check answers false for every token and every table.  An
    initialization of or an assignment to a void variable that has a
    value token adds the "Tipo incompatible" error; when the tokens end
    right after the [=], the initialization adds the error
    "Inicializacion incompleta" and the assignment the error "Asignacion
    incompleta" instead.  In each of these cases the table is left as it
    was; in every state of the dispatch loop and at the end of every run
    each void symbol is not initialized. *)
Theorem C10_void_nunca_inicializada :
  (forall tabla token_valor,
     verificar_compatibilidad_tipos tabla (lit "void") token_valor
     = Some false)
  /\ (forall U st codigo,
        exists r,
          analizar U st codigo = Some r
          /\ forall k v, Dict.get k (tabla_simbolos r) = Some v ->
                         tipo v = lit "void" -> inicializada v = false)
  /\ (forall ts st,
        en_curso ts st ->
        forall k v, Dict.get k (tabla_simbolos st) = Some v ->
                    tipo v = lit "void" -> inicializada v = false)
  /\ (forall st nombre_variable variable,
        Dict.get nombre_variable (tabla_simbolos st) = Some variable ->
        tipo variable = lit "void" ->
        (forall token_valor,
           nth_error (tokens st) (S (posicion st)) = Some token_valor ->
           (exists st',
              analizar_inicializacion st variable = Some st'
              /\ tabla_simbolos st' = tabla_simbolos st
              /\ errores st'
                 = errores st
                   ++ [error_incompatible_inicializacion variable])
           /\ (exists st',
                 analizar_asignacion st nombre_variable = Some st'
                 /\ tabla_simbolos st' = tabla_simbolos st
                 /\ errores st'
                    = errores st
                      ++ [error_incompatible_asignacion
                            nombre_variable token_valor]))
        /\ (forall token_igual,
              nth_error (tokens st) (posicion st) = Some token_igual ->
              nth_error (tokens st) (S (posicion st)) = None ->
              (exists st',
                 analizar_inicializacion st variable = Some st'
                 /\ tabla_simbolos st' = tabla_simbolos st
                 /\ errores st'
                    = errores st
                      ++ [error_en
                            (msg_inicializacion_incompleta
                               (nombre variable) (linea_declaracion variable))
                            (linea_declaracion variable)])
              /\ (exists st',
                    analizar_asignacion st nombre_variable = Some st'
                    /\ tabla_simbolos st' = tabla_simbolos st
                    /\ errores st'
                       = errores st
                         ++ [error_en
                               (msg_asignacion_incompleta nombre_variable)
                               (tk_linea token_igual)]))).
Proof.
  split; [|split; [|split]].
  - apply verificar_compatibilidad_tipos_void.
  - intros U st codigo.
    destruct (analizar_tabla U st codigo) as [r [H1 H2]].
    exists r. split; [assumption|]. intros k v Hg.
    apply dict_get_In in Hg. revert k v Hg.
    apply (cambio_void _ _ H2). intros k v [].
  - intros ts st Hc k v Hg.
    apply dict_get_In in Hg. revert k v Hg.
    apply (cambio_void _ _ (en_curso_cambio _ _ Hc)). intros k v [].
  - intros st nombre_variable variable Hvar Ht. split.
    + intros token_valor Htok. split.
      * rewrite analizar_inicializacion_eq, Htok, Ht,
          verificar_compatibilidad_tipos_void.
        eexists. split; [reflexivity|]. split; reflexivity.
      * rewrite analizar_asignacion_eq, Htok, Hvar, Ht,
          verificar_compatibilidad_tipos_void.
        eexists. split; [reflexivity|]. split; reflexivity.
    + intros token_igual Hig Hfin. split.
      * rewrite analizar_inicializacion_eq, Hfin.
        eexists. split; [reflexivity|]. split; reflexivity.
      * rewrite analizar_asignacion_eq, Hfin, Hig.
        eexists. split; [reflexivity|]. split; reflexivity.
Qed.

Lemma C10_void_nunca_inicializada_witness :
  nth_error (tokens c10_estado) (S (posicion c10_estado))
  = Some (mkToken NUMERO (lit "1") 2 4)
  /\ Dict.get (lit "v") (tabla_simbolos c10_estado) = Some c10_variable
  /\ tipo c10_variable = lit "void"
  /\ (exists st',
        analizar_asignacion c10_estado (lit "v") = Some st'
        /\ tabla_simbolos st' = tabla_simbolos c10_estado
        /\ errores st'
           = errores c10_estado
             ++ [error_incompatible_asignacion
                   (lit "v") (mkToken NUMERO (lit "1") 2 4)])
  /\ nth_error (tokens c10_estado_sin_valor) (posicion c10_estado_sin_valor)
     = Some (mkToken ASIGNACION (lit "=") 1 7)
  /\ nth_error (tokens c10_estado_sin_valor)
               (S (posicion c10_estado_sin_valor)) = None
  /\ Dict.get (lit "v") (tabla_simbolos c10_estado_sin_valor)
     = Some c10_variable_nueva
  /\ exists st',
       analizar_inicializacion c10_estado_sin_valor c10_variable_nueva
       = Some st'
       /\ tabla_simbolos st' = tabla_simbolos c10_estado_sin_valor
       /\ errores st'
          = errores c10_estado_sin_valor
            ++ [error_en (msg_inicializacion_incompleta (lit "v") 1) 1].
Proof.
  split; [reflexivity|]. split; [reflexivity|]. split; [reflexivity|].
  split.
  - exact (proj2 (proj1 (proj2 (proj2 (proj2 C10_void_nunca_inicializada))
                           c10_estado (lit "v") c10_variable
                           eq_refl eq_refl)
                    (mkToken NUMERO (lit "1") 2 4) eq_refl)).
  - split; [reflexivity|]. split; [reflexivity|]. split; [reflexivity|].
    exact (proj1 (proj2 (proj2 (proj2 (proj2 C10_void_nunca_inicializada))
                           c10_estado_sin_valor (lit "v") c10_variable_nueva
                           eq_refl eq_refl)
                    (mkToken ASIGNACION (lit "=") 1 7) eq_refl eq_refl)).
Defined.

(* ================================================================== *)
(** * Order of the symbol table and of the warnings *)

Lemma analizar_inicializacion_keys st variable st' :
  analizar_inicializacion st variable = Some st' ->
  Dict.keys (tabla_simbolos st') = Dict.keys (tabla_simbolos st).
Proof.
  rewrite analizar_inicializacion_eq.
  destruct (nth_error _ _); [|intros H; inversion H; reflexivity].
  destruct (verificar_compatibilidad_tipos _ _ _) as [[|]|];
    intros H; inversion H; simpl_st; [apply dict_keys_update | reflexivity].
Qed.

Lemma analizar_asignacion_keys st k st' :
  analizar_asignacion st k = Some st' ->
  Dict.keys (tabla_simbolos st') = Dict.keys (tabla_simbolos st).
Proof.
  rewrite analizar_asignacion_eq.
  destruct (nth_error (tokens st) (S (posicion st))).
  - destruct (Dict.get _ _); [|discriminate].
    destruct (verificar_compatibilidad_tipos _ _ _) as [[|]|];
      intros H; inversion H; simpl_st; [apply dict_keys_update | reflexivity].
  - destruct (nth_error _ _); [|discriminate].
    intros H; inversion H; reflexivity.
Qed.

Lemma paso_keys st st' :
  paso st = Some st' ->
  Dict.keys (tabla_simbolos st')
  = Dict.keys (tabla_simbolos st) ++ map snd (declaracion_exitosa st).
Proof.
  unfold paso, declaracion_exitosa.
  destruct (nth_error (tokens st) (posicion st)) as [ta|] eqn:Ea;
    [|discriminate].
  assert (Hno : forall l : list (nat * str),
            TipoToken_eqb (tk_tipo ta) TIPO_DATO = false ->
            Dict.keys (tabla_simbolos st') = Dict.keys (tabla_simbolos st) ->
            Dict.keys (tabla_simbolos st')
            = Dict.keys (tabla_simbolos st)
              ++ map snd
                   match nth_error (tokens st) (S (posicion st)) with
                   | Some token_nombre =>
                       if TipoToken_eqb (tk_tipo ta) TIPO_DATO
                          && TipoToken_eqb (tk_tipo token_nombre) IDENTIFICADOR
                          && negb (Dict.mem (tk_valor token_nombre)
                                            (tabla_simbolos st))
                       then [(S (posicion st), tk_valor token_nombre)]
                       else []
                   | None => []
                   end).
  { intros _ Hf Hk. rewrite Hf, Hk.
    destruct (nth_error (tokens st) (S (posicion st)));
      simpl; rewrite app_nil_r; reflexivity. }
  destruct (tk_tipo ta) eqn:Et;
    try (intros H; inversion H; subst st'; apply (Hno []); reflexivity).
  - (* TIPO_DATO *)
    clear Hno. rewrite analizar_declaracion_eq, Ea. cbn [TipoToken_eqb andb].
    destruct (nth_error (tokens st) (S (posicion st))) as [tn|];
      [|intros H; inversion H; simpl; rewrite app_nil_r; reflexivity].
    destruct (TipoToken_eqb (tk_tipo tn) IDENTIFICADOR); cbn [negb andb];
      [|intros H; inversion H; simpl; rewrite app_nil_r; reflexivity].
    destruct (Dict.mem (tk_valor tn) (tabla_simbolos st)) eqn:Em; cbn [negb];
      [intros H; inversion H; simpl; rewrite app_nil_r; reflexivity|].
    cbv zeta. rewrite dict_set_new by exact Em.
    assert (Hk : Dict.keys (tabla_simbolos st ++ [(tk_valor tn,
                                nueva_variable ta tn)])
                 = Dict.keys (tabla_simbolos st) ++ [tk_valor tn]).
    { apply keys_app. }
    destruct (nth_error (tokens st) (S (S (posicion st)))) as [t|];
      [|intros H; inversion H; exact Hk].
    destruct (TipoToken_eqb (tk_tipo t) ASIGNACION);
      [|intros H; inversion H; exact Hk].
    intros H. apply analizar_inicializacion_keys in H.
    rewrite H. exact Hk.
  - (* IDENTIFICADOR *)
    intros H. apply (Hno []); [reflexivity|]. revert H.
    rewrite analizar_identificador_eq, Ea.
    destruct (Dict.mem _ _); [|intros H; inversion H; reflexivity].
    cbv zeta.
    destruct (nth_error (tokens st) (S (posicion st))) as [t|];
      [|intros H; inversion H; simpl_st; apply dict_keys_update].
    destruct (TipoToken_eqb (tk_tipo t) ASIGNACION);
      [|intros H; inversion H; simpl_st; apply dict_keys_update].
    intros H. apply analizar_asignacion_keys in H. rewrite H. simpl_st.
    apply dict_keys_update.
  - (* PALABRA_CLAVE *)
    intros H. apply (Hno []); [reflexivity|]. revert H.
    unfold analizar_palabra_clave. rewrite Ea.
    destruct (in_list _ _); intros H; injection H as <-; [|reflexivity].
    unfold analizar_estructura_control. destruct (negb _); reflexivity.
Qed.

Lemma declaracion_exitosa_spec st i n :
  In (i, n) (declaracion_exitosa st) ->
  i = S (posicion st)
  /\ exists token_tipo token_nombre,
       nth_error (tokens st) (i - 1) = Some token_tipo
       /\ tk_tipo token_tipo = TIPO_DATO
       /\ nth_error (tokens st) i = Some token_nombre
       /\ tk_tipo token_nombre = IDENTIFICADOR
       /\ tk_valor token_nombre = n.
Proof.
  unfold declaracion_exitosa.
  destruct (nth_error (tokens st) (posicion st)) as [ta|] eqn:Ea; [|simpl; tauto].
  destruct (nth_error (tokens st) (S (posicion st))) as [tn|] eqn:En;
    [|simpl; tauto].
  destruct (TipoToken_eqb (tk_tipo ta) TIPO_DATO) eqn:E1; [|simpl; tauto].
  destruct (TipoToken_eqb (tk_tipo tn) IDENTIFICADOR) eqn:E2; [|simpl; tauto].
  destruct (negb _); [|simpl; tauto].
  intros [H|[]]. inversion H; subst. split; [reflexivity|].
  exists ta, tn. replace (S (posicion st) - 1) with (posicion st) by lia.
  repeat split; auto.
  - destruct (tk_tipo ta); try discriminate; reflexivity.
  - destruct (tk_tipo tn); try discriminate; reflexivity.
Qed.

Lemma declaraciones_spec fuel : forall st st',
  analizar_tokens_fuel fuel st = Some st' ->
  Dict.keys (tabla_simbolos st')
  = Dict.keys (tabla_simbolos st) ++ map snd (declaraciones fuel st)
  /\ StronglySorted antes (declaraciones fuel st)
  /\ forall i n, In (i, n) (declaraciones fuel st) ->
       posicion st < i
       /\ exists token_tipo token_nombre,
            nth_error (tokens st) (i - 1) = Some token_tipo
            /\ tk_tipo token_tipo = TIPO_DATO
            /\ nth_error (tokens st) i = Some token_nombre
            /\ tk_tipo token_nombre = IDENTIFICADOR
            /\ tk_valor token_nombre = n.
Proof.
  induction fuel as [|fuel IH]; intros st st'; simpl.
  - destruct (posicion st <? length (tokens st)); [discriminate|].
    intros H; inversion H; subst. rewrite app_nil_r.
    repeat split; [constructor | destruct H0 | destruct H0].
  - destruct (posicion st <? length (tokens st)) eqn:Ep.
    + apply Nat.ltb_lt in Ep.
      destruct (paso_sigue st Ep) as [st1 [H1 [T1 P1 _ _ _]]].
      rewrite H1. intros H.
      destruct (IH _ _ H) as [K [S2 I2]].
      assert (I1 : forall i n, In (i, n) (declaracion_exitosa st) ->
                 i = S (posicion st)).
      { intros i n Hi. apply (declaracion_exitosa_spec _ _ _ Hi). }
      split; [|split].
      * rewrite K, (paso_keys _ _ H1), map_app, app_assoc. reflexivity.
      * unfold declaracion_exitosa in *.
        destruct (nth_error (tokens st) (posicion st)); [|exact S2].
        destruct (nth_error (tokens st) (S (posicion st))); [|exact S2].
        destruct (_ && _ && _); [|exact S2].
        simpl. constructor; [exact S2|].
        apply Forall_forall. intros [i n] Hi.
        destruct (I2 i n Hi) as [Hlt _]. unfold antes. simpl. lia.
      * intros i n Hi. apply in_app_or in Hi. destruct Hi as [Hi|Hi].
        -- destruct (declaracion_exitosa_spec _ _ _ Hi) as [-> Hx].
           split; [lia | exact Hx].
        -- destruct (I2 i n Hi) as [Hlt Hx]. rewrite T1 in Hx.
           split; [lia | exact Hx].
    + intros H; inversion H; subst. rewrite app_nil_r.
      repeat split; [constructor | destruct H0 | destruct H0].
Qed.

Lemma msg_no_usada_inj n1 n2 : msg_no_usada n1 = msg_no_usada n2 -> n1 = n2.
Proof.
  unfold msg_no_usada. intros H.
  apply app_inv_head in H. apply app_inv_tail in H. exact H.
Qed.

Lemma msg_sin_inicializar_inj n1 n2 :
  msg_sin_inicializar n1 = msg_sin_inicializar n2 -> n1 = n2.
Proof.
  unfold msg_sin_inicializar. intros H.
  apply app_inv_head in H. apply app_inv_tail in H. exact H.
Qed.

Lemma msg_no_usada_sin_inicializar n1 n2 :
  msg_no_usada n1 <> msg_sin_inicializar n2.
Proof.
  unfold msg_no_usada, msg_sin_inicializar. intros H.
  apply (f_equal (@rev char)) in H.
  rewrite !rev_app_distr in H. discriminate H.
Qed.

Lemma In_advertencias_no_usadas d n l :
  In (advertencia_en (msg_no_usada n) l) (advertencias_no_usadas d) ->
  exists v, In v (Dict.values d) /\ nombre v = n /\ usada v = false.
Proof.
  unfold advertencias_no_usadas. rewrite in_map_iff.
  intros [v [Hv Hin]]. apply filter_In in Hin. destruct Hin as [Hin Hc].
  pose proof (f_equal mensaje Hv) as Hm. cbn [mensaje advertencia_en] in Hm.
  apply msg_no_usada_inj in Hm.
  exists v. repeat split; auto. destruct (usada v); [discriminate|reflexivity].
Qed.

Lemma In_advertencias_sin_inicializar d n l :
  In (advertencia_en (msg_sin_inicializar n) l)
     (advertencias_sin_inicializar d) ->
  exists v, In v (Dict.values d) /\ nombre v = n /\ usada v = true.
Proof.
  unfold advertencias_sin_inicializar. rewrite in_map_iff.
  intros [v [Hv Hin]]. apply filter_In in Hin. destruct Hin as [Hin Hc].
  pose proof (f_equal mensaje Hv) as Hm. cbn [mensaje advertencia_en] in Hm.
  apply msg_sin_inicializar_inj in Hm.
  exists v. repeat split; auto. destruct (usada v); [reflexivity|discriminate].
Qed.

Lemma valor_unico d v1 v2 :
  tabla_bien_formada d ->
  In v1 (Dict.values d) -> In v2 (Dict.values d) ->
  nombre v1 = nombre v2 -> v1 = v2.
Proof.
  intros [Hnd Hn] H1 H2 He. unfold Dict.values in *.
  apply in_map_iff in H1. destruct H1 as [[k1 w1] [E1 I1]].
  apply in_map_iff in H2. destruct H2 as [[k2 w2] [E2 I2]].
  simpl in *. subst w1 w2.
  rewrite Forall_forall in Hn.
  pose proof (Hn _ I1) as N1. pose proof (Hn _ I2) as N2. simpl in *.
  assert (k1 = k2) by congruence. subst k2.
  pose proof (dict_In_get _ _ _ Hnd I1) as G1.
  pose proof (dict_In_get _ _ _ Hnd I2) as G2. congruence.
Qed.

Lemma advertencias_excluyentes d n l1 l2 :
  tabla_bien_formada d ->
  ~ (In (advertencia_en (msg_no_usada n) l1)
        (advertencias_no_usadas d ++ advertencias_sin_inicializar d)
     /\ In (advertencia_en (msg_sin_inicializar n) l2)
           (advertencias_no_usadas d ++ advertencias_sin_inicializar d)).
Proof.
  intros Hd [H1 H2].
  apply in_app_or in H1. apply in_app_or in H2.
  assert (X1 : In (advertencia_en (msg_no_usada n) l1)
                  (advertencias_no_usadas d)).
  { destruct H1 as [H1|H1]; [assumption|]. exfalso.
    unfold advertencias_sin_inicializar in H1. apply in_map_iff in H1.
    destruct H1 as [v [Hv _]]. pose proof (f_equal mensaje Hv) as Hm.
    cbn [mensaje advertencia_en] in Hm.
    symmetry in Hm. exact (msg_no_usada_sin_inicializar _ _ Hm). }
  assert (X2 : In (advertencia_en (msg_sin_inicializar n) l2)
                  (advertencias_sin_inicializar d)).
  { destruct H2 as [H2|H2]; [|assumption]. exfalso.
    unfold advertencias_no_usadas in H2. apply in_map_iff in H2.
    destruct H2 as [v [Hv _]]. pose proof (f_equal mensaje Hv) as Hm.
    cbn [mensaje advertencia_en] in Hm.
    exact (msg_no_usada_sin_inicializar _ _ Hm). }
  apply In_advertencias_no_usadas in X1. destruct X1 as [v1 [I1 [N1 U1]]].
  apply In_advertencias_sin_inicializar in X2. destruct X2 as [v2 [I2 [N2 U2]]].
  assert (v1 = v2) by (apply (valor_unico d); congruence).
  congruence.
Qed.

(** C7, as stated, fails for the order of the warnings: they are not
    emitted in one pass over the table.  On the three lines [int a;],
    [a;], [int b;] the table holds [a] and then [b], but the warning for
    [b] ("no usada", line 3) comes before the warning for [a] ("usada
    sin inicializar", line 1). *)
Lemma C7_un_recorrido_counterexample :
  exists r,
    analizar latin1 estado_inicial c7_codigo_cruzado = Some r
    /\ Dict.keys (tabla_simbolos r) = [lit "a"; lit "b"]
    /\ advertencias r
       = [advertencia_en (msg_no_usada (lit "b")) 3;
          advertencia_en (msg_sin_inicializar (lit "a")) 1]
    /\ advertencias_en_un_recorrido (tabla_simbolos r)
       = [advertencia_en (msg_sin_inicializar (lit "a")) 1;
          advertencia_en (msg_no_usada (lit "b")) 3]
    /\ advertencias r <> advertencias_en_un_recorrido (tabla_simbolos r).
Proof.
  eexists. split; [vm_compute; reflexivity|].
  split; [reflexivity|]. split; [reflexivity|]. split; [reflexivity|].
  intros H. apply (f_equal (map e_linea)) in H. discriminate H.
Qed.

(** C7, amended. At the end of a run the keys of the symbol table are, in
    order, the names of the declarations that succeeded, which happen
    from left to right in the token sequence, each name once.  The
    warnings come from two passes over the table: first the "declarada
    pero no usada" ones for the symbols not used, then the "usada sin
    inicializar" ones for the symbols used and not initialized, each
    group in the order of the table; no name gets a warning of each
    kind. *)
Theorem C7_orden_de_insercion :
  forall U st codigo,
    exists r,
      analizar U st codigo = Some r
      /\ let decls :=
           declaraciones (length (tokens r)) (mkEstado [] [] [] (tokens r) 0) in
         Dict.keys (tabla_simbolos r) = map snd decls
         /\ StronglySorted antes decls
         /\ NoDup (map snd decls)
         /\ (forall i n, In (i, n) decls ->
               exists token_tipo token_nombre,
                 nth_error (tokens r) (i - 1) = Some token_tipo
                 /\ tk_tipo token_tipo = TIPO_DATO
                 /\ nth_error (tokens r) i = Some token_nombre
                 /\ tk_tipo token_nombre = IDENTIFICADOR
                 /\ tk_valor token_nombre = n)
         /\ advertencias r
            = advertencias_no_usadas (tabla_simbolos r)
              ++ advertencias_sin_inicializar (tabla_simbolos r)
         /\ (forall n l1 l2,
               ~ (In (advertencia_en (msg_no_usada n) l1) (advertencias r)
                  /\ In (advertencia_en (msg_sin_inicializar n) l2)
                        (advertencias r))).
Proof.
  intros U st codigo.
  destruct (tokenizar_total U codigo) as [[|t ts] H].
  - exists estado_sin_tokens. split; [apply analizar_sin_tokens; exact H|].
    simpl. repeat split; try constructor.
    + intros i n [].
    + intros n l1 l2 [[] _].
  - destruct (analizar_con_tokens U st codigo (t :: ts) H)
      as [st1 [H1 [[T1 _ C1 _ _] [_ R]]]]; [discriminate|].
    exists (estado_final st1). split; [exact R|].
    unfold analizar_tokens in H1. simpl_st.
    rewrite Nat.sub_0_r in H1.
    destruct (declaraciones_spec _ _ _ H1) as [K [S1 I1]]. simpl_st.
    pose proof (cambio_bien_formada _ _ C1 tabla_vacia_bien_formada) as Hbf.
    unfold estado_final. simpl_st. rewrite T1.
    assert (K' : Dict.keys (tabla_simbolos st1)
                 = map snd (declaraciones (length (t :: ts))
                              (mkEstado [] [] [] (t :: ts) 0))) by exact K.
    split; [exact K'|]. split; [exact S1|]. split.
    { rewrite <- K'. apply Hbf. }
    split; [intros i n Hi; apply (I1 i n Hi)|].
    split; [reflexivity|].
    intros n l1 l2. apply advertencias_excluyentes. exact Hbf.
Qed.

Lemma C7_orden_de_insercion_witness :
  exists r,
    analizar latin1 estado_inicial c7_codigo = Some r
    /\ In (1, lit "a")
          (declaraciones (length (tokens r)) (mkEstado [] [] [] (tokens r) 0))
    /\ Dict.keys (tabla_simbolos r) = [lit "a"; lit "b"]
    /\ (exists token_tipo token_nombre,
          nth_error (tokens r) (1 - 1) = Some token_tipo
          /\ tk_tipo token_tipo = TIPO_DATO
          /\ nth_error (tokens r) 1 = Some token_nombre
          /\ tk_tipo token_nombre = IDENTIFICADOR
          /\ tk_valor token_nombre = lit "a")
    /\ advertencias r
       = [advertencia_en (msg_no_usada (lit "b")) 1;
          advertencia_en (msg_sin_inicializar (lit "a")) 1].
Proof.
  destruct (C7_orden_de_insercion latin1 estado_inicial c7_codigo)
    as [r [H1 [H2 [_ [_ [H3 [H4 _]]]]]]].
  exists r. split; [exact H1|].
  assert (Hr : Some r = analizar latin1 estado_inicial c7_codigo)
    by (symmetry; exact H1).
  vm_compute in Hr. injection Hr as Hr.
  assert (Hin : In (1, lit "a")
                   (declaraciones (length (tokens r))
                                  (mkEstado [] [] [] (tokens r) 0))).
  { rewrite Hr. vm_compute. left. reflexivity. }
  split; [exact Hin|].
  split; [rewrite Hr; reflexivity|].
  split; [exact (H3 1 (lit "a") Hin)|].
  rewrite Hr. reflexivity.
Defined.

(* ================================================================== *)
(** * The used flag *)

(** C2. On [int z; int w = z;] the run leaves [z] not used: the [z] after
    [=] is consumed by the initialization handler as the value token and
    never reaches the identifier handler, the only place where [usada]
    is set.  Both symbols get the warning "declarada pero no usada" and
    there is no warning "usada sin inicializar" for [z]. *)
Theorem C2_valor_leido_no_marca_uso :
  forall U st,
    exists r,
      analizar U st (lit "int z; int w = z;") = Some r
      /\ tabla_simbolos r
         = [(lit "z", mkVariable (lit "z") (lit "int") 1 false false);
            (lit "w", mkVariable (lit "w") (lit "int") 1 true false)]
      /\ errores r = []
      /\ advertencias r
         = [advertencia_en (msg_no_usada (lit "z")) 1;
            advertencia_en (msg_no_usada (lit "w")) 1]
      /\ ~ In (advertencia_en (msg_sin_inicializar (lit "z")) 1)
              (advertencias r).
Proof.
  intros U st. eexists. split; [vm_compute; reflexivity|].
  repeat split.
  intros [H|[H|[]]]; discriminate H.
Qed.

(* ================================================================== *)
(** * The lexer *)

Lemma linea_omitida_false U linea0 :
  linea_omitida U linea0 = false ->
  strip U linea0 <> [] /\ startswith (lit "//") (strip U linea0) = false.
Proof.
  unfold linea_omitida. intros H. apply orb_false_iff in H.
  destruct H as [H1 H2]. split; [|exact H2].
  destruct (strip U linea0); [discriminate | discriminate].
Qed.

(** C9. [tokenizar] returns a token list for every string.  Every token
    comes from a line that is neither empty nor a [//] line once trimmed,
    carries the number of that line counted from 1, and its text is what
    stands in the trimmed line at its column, counted from 0; so a line
    that is passed over gives no token.  Characters that no rule matches
    give no token, and leading blanks do not count in the column. *)
Theorem C9_tokenizar :
  forall U codigo,
    exists ts,
      tokenizar U codigo = Some ts
      /\ (forall t, In t ts ->
            exists linea0,
              1 <= tk_linea t
              /\ nth_error (split_nl codigo) (tk_linea t - 1) = Some linea0
              /\ strip U linea0 <> []
              /\ startswith (lit "//") (strip U linea0) = false
              /\ tk_valor t <> []
              /\ tk_valor t
                 = slice (strip U linea0) (tk_columna t)
                         (tk_columna t + length (tk_valor t)))
      /\ (forall i linea0 t,
            nth_error (split_nl codigo) i = Some linea0 ->
            linea_omitida U linea0 = true ->
            In t ts -> tk_linea t <> S i)
      /\ tokenizar U (lit "  @ int # x")
         = Some [mkToken TIPO_DATO (lit "int") 1 2;
                 mkToken IDENTIFICADOR (lit "x") 1 8].
Proof.
  intros U codigo. unfold tokenizar at 1.
  destruct (tokenizar_lineas_spec U (split_nl codigo) 1) as [ts [H1 H2]].
  exists ts. split; [exact H1|].
  assert (H3 : forall t, In t ts ->
            exists linea0,
              1 <= tk_linea t
              /\ nth_error (split_nl codigo) (tk_linea t - 1) = Some linea0
              /\ linea_omitida U linea0 = false
              /\ tk_valor t <> []
              /\ tk_valor t
                 = slice (strip U linea0) (tk_columna t)
                         (tk_columna t + length (tk_valor t))).
  { intros t Ht. destruct (H2 t Ht) as [i [l0 [G1 [G2 [G3 [G4 G5]]]]]].
    exists l0. rewrite G2. replace (1 + i - 1) with i by lia.
    repeat split; auto. lia. }
  split; [|split].
  - intros t Ht. destruct (H3 t Ht) as [l0 [G1 [G2 [G3 [G4 G5]]]]].
    destruct (linea_omitida_false _ _ G3) as [G6 G7].
    exists l0. repeat split; auto.
  - intros i linea0 t Hi Hom Ht Hl.
    destruct (H3 t Ht) as [l0 [G1 [G2 [G3 _]]]].
    rewrite Hl in G2. replace (S i - 1) with i in G2 by lia.
    congruence.
  - vm_compute. reflexivity.
Qed.

Lemma C9_tokenizar_witness :
  exists ts,
    tokenizar latin1 c9_codigo = Some ts
    /\ In (mkToken BOOLEANO (lit "true") 2 10) ts
    /\ exists linea0,
         nth_error (split_nl c9_codigo) (2 - 1) = Some linea0
         /\ strip latin1 linea0 <> []
         /\ lit "true" = slice (strip latin1 linea0) 10 (10 + 4).
Proof.
  destruct (C9_tokenizar latin1 c9_codigo) as [ts [H1 [H2 _]]].
  exists ts. split; [exact H1|].
  assert (Hin : In (mkToken BOOLEANO (lit "true") 2 10) ts).
  { assert (Hr : Some ts = tokenizar latin1 c9_codigo) by (symmetry; exact H1).
    vm_compute in Hr. injection Hr as Hr. rewrite Hr.
    vm_compute. do 3 right. left. reflexivity. }
  split; [exact Hin|].
  destruct (H2 _ Hin) as [linea0 [_ [G2 [G3 [_ [_ G6]]]]]].
  exists linea0. split; [exact G2|]. split; [exact G3 | exact G6].
Defined.

(* ================================================================== *)
(** * Further properties *)

(** ** The matcher is sound and complete for [matches] *)

Lemma last_of_cons prev c w : last_of prev (c :: w) = last_of (Some c) w.
Proof.
  unfold last_of. simpl.
  destruct (rev w) as [|x l] eqn:E; simpl; reflexivity.
Qed.

Lemma last_of_app prev w1 w2 :
  last_of (last_of prev w1) w2 = last_of prev (w1 ++ w2).
Proof.
  revert prev. induction w1 as [|c w1 IH]; intros prev; simpl.
  - reflexivity.
  - rewrite !last_of_cons. apply IH.
Qed.

Lemma prefix_app l s' : prefix l (l ++ s') = Some s'.
Proof.
  induction l as [|x l IH]; simpl; [reflexivity|].
  rewrite N.eqb_refl. exact IH.
Qed.

Lemma prefix_inv l s s' : prefix l s = Some s' -> s = l ++ s'.
Proof.
  revert s. induction l as [|x l IH]; intros [|y s]; simpl; try discriminate.
  - intros H; inversion H; reflexivity.
  - intros H; inversion H; reflexivity.
  - destruct (N.eqb x y) eqn:E; [|discriminate].
    apply N.eqb_eq in E. subst y. intros H. rewrite (IH _ H). reflexivity.
Qed.

Lemma rep_sound p k prev pos s x :
  rep p k prev pos s = Some x ->
  exists w s',
    s = w ++ s' /\ forallb p w = true
    /\ k (last_of prev w) (pos + length w) s' = Some x.
Proof.
  revert prev pos. induction s as [|c s IH]; intros prev pos; simpl.
  - intros H. exists [], []. simpl. rewrite Nat.add_0_r. auto.
  - assert (Hk : k prev pos (c :: s) = Some x ->
                 exists w s',
                   c :: s = w ++ s' /\ forallb p w = true
                   /\ k (last_of prev w) (pos + length w) s' = Some x).
    { intros H. exists [], (c :: s). simpl. rewrite Nat.add_0_r. auto. }
    destruct (p c) eqn:Ep; [|assumption].
    destruct (rep p k (Some c) (S pos) s) as [r|] eqn:E; [|assumption].
    intros H; inversion H; subst r.
    destruct (IH _ _ E) as [w [s' [H1 [H2 H3]]]].
    exists (c :: w), s'. rewrite last_of_cons. simpl.
    rewrite Ep, H2, Nat.add_succ_r. subst s. auto.
Qed.

Lemma run_sound r : forall k prev pos s x,
  run r k prev pos s = Some x ->
  exists w s',
    s = w ++ s' /\ matches r prev w s'
    /\ k (last_of prev w) (pos + length w) s' = Some x.
Proof.
  induction r as [l|p|a IHa b IHb|a IHa b IHb|a IHa|p|p|wd];
    intros k prev pos s x; simpl.
  - destruct (prefix l s) as [s'|] eqn:E; [|discriminate].
    apply prefix_inv in E. intros H. exists l, s'. auto.
  - destruct s as [|c s]; [discriminate|].
    destruct (p c) eqn:Ep; [|discriminate]. intros H.
    exists [c], s. rewrite Nat.add_1_r. repeat split; eauto.
  - intros H. destruct (IHa _ _ _ _ _ H) as [w1 [s1 [E1 [M1 H1]]]].
    destruct (IHb _ _ _ _ _ H1) as [w2 [s2 [E2 [M2 H2]]]].
    exists (w1 ++ w2), s2. subst s s1.
    rewrite last_of_app, length_app, Nat.add_assoc in *.
    rewrite app_assoc. repeat split; auto.
    exists w1, w2. auto.
  - destruct (run a k prev pos s) as [e|] eqn:E.
    + intros H; inversion H; subst e.
      destruct (IHa _ _ _ _ _ E) as [w [s' [E1 [M1 H1]]]].
      exists w, s'. auto.
    + intros H. destruct (IHb _ _ _ _ _ H) as [w [s' [E1 [M1 H1]]]].
      exists w, s'. auto.
  - destruct (run a k prev pos s) as [e|] eqn:E.
    + intros H; inversion H; subst e.
      destruct (IHa _ _ _ _ _ E) as [w [s' [E1 [M1 H1]]]].
      exists w, s'. auto.
    + intros H. exists [], s. simpl. rewrite Nat.add_0_r. auto.
  - intros H. destruct (rep_sound _ _ _ _ _ _ H) as [w [s' [E1 [M1 H1]]]].
    exists w, s'. auto.
  - destruct s as [|c s]; [discriminate|].
    destruct (p c) eqn:Ep; [|discriminate]. intros H.
    destruct (rep_sound _ _ _ _ _ _ H) as [w [s' [E1 [M1 H1]]]].
    exists (c :: w), s'. rewrite last_of_cons. simpl.
    rewrite Ep, M1, Nat.add_succ_r. subst s.
    repeat split; auto. discriminate.
  - destruct (xorb _ _) eqn:E; [|discriminate]. intros H.
    exists [], s. simpl. rewrite Nat.add_0_r. auto.
Qed.

Lemma rep_k p k prev pos s x :
  k prev pos s = Some x -> exists y, rep p k prev pos s = Some y.
Proof.
  intros H. destruct s as [|c s]; simpl; [eauto|].
  destruct (p c); [|eauto].
  destruct (rep p k (Some c) (S pos) s); eauto.
Qed.

Lemma rep_complete p k w : forall prev pos s' x,
  forallb p w = true ->
  k (last_of prev w) (pos + length w) s' = Some x ->
  exists y, rep p k prev pos (w ++ s') = Some y.
Proof.
  induction w as [|c w IH]; intros prev pos s' x Hw Hk.
  - simpl in *. rewrite Nat.add_0_r in Hk. eapply rep_k; eassumption.
  - simpl in Hw. apply andb_true_iff in Hw. destruct Hw as [Hc Hw].
    rewrite last_of_cons in Hk. simpl in Hk. rewrite Nat.add_succ_r in Hk.
    simpl. rewrite Hc.
    destruct (IH (Some c) (S pos) s' x Hw Hk) as [y Hy].
    rewrite Hy. eauto.
Qed.

Lemma run_complete r : forall k prev pos w s' x,
  matches r prev w s' ->
  k (last_of prev w) (pos + length w) s' = Some x ->
  exists y, run r k prev pos (w ++ s') = Some y.
Proof.
  induction r as [l|p|a IHa b IHb|a IHa b IHb|a IHa|p|p|wd];
    intros k prev pos w s' x; simpl.
  - intros -> Hk. rewrite prefix_app. eauto.
  - intros [c [-> Hc]] Hk. simpl. rewrite Hc.
    simpl in Hk. rewrite Nat.add_1_r in Hk. eauto.
  - intros [w1 [w2 [-> [M1 M2]]]] Hk.
    rewrite <- last_of_app, length_app, Nat.add_assoc in Hk.
    destruct (IHb _ _ _ _ _ _ M2 Hk) as [y Hy].
    rewrite <- app_assoc. eapply IHa; eassumption.
  - intros [M|M] Hk.
    + destruct (IHa _ _ _ _ _ _ M Hk) as [y ->]. eauto.
    + destruct (run a k prev pos (w ++ s')); [eauto|].
      eapply IHb; eassumption.
  - intros [->|M] Hk.
    + simpl in *. rewrite Nat.add_0_r in Hk.
      destruct (run a k prev pos s'); eauto.
    + destruct (IHa _ _ _ _ _ _ M Hk) as [y ->]. eauto.
  - intros Hw Hk. eapply rep_complete; eassumption.
  - intros [Hne Hw] Hk. destruct w as [|c w]; [congruence|].
    simpl in Hw. apply andb_true_iff in Hw. destruct Hw as [Hc Hw].
    simpl. rewrite Hc. rewrite last_of_cons in Hk. simpl in Hk.
    rewrite Nat.add_succ_r in Hk.
    eapply rep_complete; eassumption.
  - intros [-> Hx] Hk. simpl in *. rewrite Hx.
    rewrite Nat.add_0_r in Hk. eauto.
Qed.

(** ** The patterns of the lexer *)

Lemma alts_matches L prev w s' : In w L <-> matches (alts L) prev w s'.
Proof.
  induction L as [|x L IH].
  - simpl. split; [tauto | intros [c [_ H]]; discriminate].
  - destruct L as [|y L].
    + simpl. split; [intros [H|[]]; auto | auto].
    + change (alts (x :: y :: L)) with (Alt (Lit x) (alts (y :: L))).
      cbn [matches]. rewrite <- IH. simpl. split.
      * intros [H|H]; auto.
      * intros [H|H]; auto.
Qed.

Lemma palabra_matches wd L prev w s' :
  In w L ->
  xorb (is_word wd prev) (is_word wd (hd_error (w ++ s'))) = true ->
  xorb (is_word wd (last_of prev w)) (is_word wd (hd_error s')) = true ->
  matches (seqs [Bnd wd; alts L; Bnd wd]) prev w s'.
Proof.
  intros Hin B1 B2. cbn [seqs matches].
  exists [], w. split; [reflexivity|]. split.
  - split; [reflexivity | exact B1].
  - exists w, []. rewrite app_nil_r. split; [reflexivity|]. split.
    + apply alts_matches. exact Hin.
    + split; [reflexivity | exact B2].
Qed.

Lemma palabra_matches_inv wd L prev w s' :
  matches (seqs [Bnd wd; alts L; Bnd wd]) prev w s' -> In w L.
Proof.
  cbn [seqs matches].
  intros [w1 [w2 [-> [[-> _] [w3 [w4 [-> [M [-> _]]]]]]]]].
  simpl. rewrite app_nil_r. eapply alts_matches. exact M.
Qed.

Lemma match_at_patron U prev pos s g e :
  match_at (patron_compilado U) prev pos s = Some (g, e) ->
  exists t,
    g = TipoToken_name t /\ t <> DESCONOCIDO
    /\ run (patron_de U t) accept prev pos s = Some e
    /\ (t = IDENTIFICADOR ->
        run (patron_de U TIPO_DATO) accept prev pos s = None
        /\ run (patron_de U PALABRA_CLAVE) accept prev pos s = None
        /\ run (patron_de U BOOLEANO) accept prev pos s = None).
Proof.
  unfold patron_compilado, patrones. cbn [map match_at fst snd].
  repeat
    match goal with
    | |- match run ?r accept prev pos s with _ => _ end = _ -> _ =>
        let E := fresh "E" in
        destruct (run r accept prev pos s) eqn:E;
        [ let H := fresh "H" in
          intros H;
          match type of H with
          | Some (TipoToken_name ?t0, _) = _ =>
              injection H as <- <-;
              exists t0;
              split; [reflexivity|];
              split; [discriminate|];
              split; [exact E|];
              first [ intros X; discriminate X
                    | intros _; repeat split; assumption ]
          end
        | ]
    end.
  discriminate.
Qed.

Lemma finditer_fuel_patron U subject fuel : forall pos g ini fin,
  In (g, ini, fin) (finditer_fuel fuel (patron_compilado U) subject pos) ->
  exists t w s',
    g = TipoToken_name t /\ t <> DESCONOCIDO
    /\ skipn ini subject = w ++ s'
    /\ fin = ini + length w
    /\ matches (patron_de U t) (before subject ini) w s'
    /\ (t = IDENTIFICADOR ->
        run (patron_de U TIPO_DATO) accept (before subject ini) ini (w ++ s')
        = None
        /\ run (patron_de U PALABRA_CLAVE) accept (before subject ini) ini
               (w ++ s') = None
        /\ run (patron_de U BOOLEANO) accept (before subject ini) ini
               (w ++ s') = None).
Proof.
  induction fuel as [|fuel IH]; intros pos g ini fin;
    cbn [finditer_fuel]; [intros []|].
  destruct (length subject <? pos); [intros []|].
  destruct (match_at (patron_compilado U) (before subject pos) pos
                     (skipn pos subject)) as [[g0 e]|] eqn:E.
  - cbn [In]. intros [H|H]; [|eapply IH; eassumption].
    inversion H; subst g0 pos e. clear H.
    destruct (match_at_patron _ _ _ _ _ _ E) as [t [Hg [Ht [Hr Hi]]]].
    destruct (run_sound _ _ _ _ _ _ Hr) as [w [s' [Hs [Hm Ha]]]].
    unfold accept in Ha. inversion Ha; subst fin.
    exists t, w, s'. rewrite <- Hs. auto 10.
  - intros H. eapply IH; eassumption.
Qed.

Lemma forma_de_patron U t prev pos w s' :
  t <> DESCONOCIDO ->
  matches (patron_de U t) prev w s' ->
  (t = IDENTIFICADOR ->
   run (patron_de U TIPO_DATO) accept prev pos (w ++ s') = None
   /\ run (patron_de U PALABRA_CLAVE) accept prev pos (w ++ s') = None
   /\ run (patron_de U BOOLEANO) accept prev pos (w ++ s') = None) ->
  forma U t w.
Proof.
  intros Ht Hm Hi. destruct t; cbn [forma]; try congruence;
    unfold patron_de, patrones in Hm;
    cbn [find fst snd TipoToken_eqb] in Hm.
  - (* TIPO_DATO *) exact (palabra_matches_inv _ _ _ _ _ Hm).
  - (* IDENTIFICADOR *)
    cbn [seqs matches word_bnd] in Hm.
    destruct Hm as [w1 [w2 [-> [[-> B1] Hm]]]].
    destruct Hm as [w3 [w4 [-> [[c [-> Hc]] Hm]]]].
    destruct Hm as [w5 [w6 [-> [H5 [-> B2]]]]].
    rewrite !last_of_app in B2. rewrite app_nil_r in *. simpl in B1, B2.
    cbn [app]. split; [exists c, w5; auto|].
    intros Hr. destruct (Hi eq_refl) as [N1 [N2 N3]].
    assert (Hk : forall L,
              In (c :: w5) L ->
              exists y,
                run (seqs [Bnd (isword U); alts L; Bnd (isword U)])
                    accept prev pos ((c :: w5) ++ s') = Some y).
    { intros L HL.
      apply (run_complete _ accept prev pos (c :: w5) s'
                          (pos + length (c :: w5)));
        [|reflexivity].
      apply palabra_matches; assumption. }
    unfold reservadas in Hr. apply in_app_or in Hr.
    destruct Hr as [Hr|Hr]; [|apply in_app_or in Hr; destruct Hr as [Hr|Hr]];
      destruct (Hk _ Hr) as [y Hy].
    + assert (Hy' : run (patron_de U TIPO_DATO) accept prev pos
                        ((c :: w5) ++ s') = Some y) by exact Hy.
      cbn [app] in *. congruence.
    + assert (Hy' : run (patron_de U PALABRA_CLAVE) accept prev pos
                        ((c :: w5) ++ s') = Some y) by exact Hy.
      cbn [app] in *. congruence.
    + assert (Hy' : run (patron_de U BOOLEANO) accept prev pos
                        ((c :: w5) ++ s') = Some y) by exact Hy.
      cbn [app] in *. congruence.
  - (* NUMERO *)
    cbn [seqs matches word_bnd] in Hm.
    destruct Hm as [w1 [w2 [-> [[-> _] Hm]]]].
    destruct Hm as [w3 [w4 [-> [[Hne H3] Hm]]]].
    destruct Hm as [wo [w5 [-> [Ho Hm]]]].
    destruct Hm as [w6 [w7 [-> [H6 [-> _]]]]].
    simpl. rewrite app_nil_r.
    destruct Ho as [-> | ->].
    + left. simpl. split.
      * destruct w3; [congruence | discriminate].
      * rewrite forallb_app, H3, H6. reflexivity.
    + right. exists w3, w6. auto.
  - (* CADENA *)
    cbn [seqs matches] in Hm.
    destruct Hm as [w1 [w2 [-> [-> Hm]]]].
    destruct Hm as [w3 [w4 [-> [H3 ->]]]].
    exists w3. auto.
  - (* BOOLEANO *) exact (palabra_matches_inv _ _ _ _ _ Hm).
  - (* OPERADOR *) exact Hm.
  - (* PALABRA_CLAVE *) exact (palabra_matches_inv _ _ _ _ _ Hm).
  - (* PARENTESIS *) exact Hm.
Qed.

(** ** From matches to tokens *)

Lemma slice_skipn s i w s' :
  skipn i s = w ++ s' -> slice s i (i + length w) = w.
Proof.
  intros H. unfold slice. rewrite H.
  replace (i + length w - i) with (length w + 0) by lia.
  rewrite firstn_app_2. simpl. apply app_nil_r.
Qed.

Lemma tokens_de_matches_Forall2 linea n ms : forall ts,
  tokens_de_matches linea n ms = Some ts -> Forall2 (de_match linea n) ms ts.
Proof.
  induction ms as [|[[g ini] fin] ms IH]; intros ts; simpl.
  - intros H; inversion H. constructor.
  - destruct (TipoToken_getitem g) as [tipo|] eqn:Eg; [|discriminate].
    destruct (tokens_de_matches linea n ms) as [resto|]; [|discriminate].
    intros H; inversion H; subst ts. constructor; [|apply IH; reflexivity].
    repeat split; assumption.
Qed.

Lemma Forall2_In_r {A B : Type} (R : A -> B -> Prop) l1 l2 y :
  Forall2 R l1 l2 -> In y l2 -> exists x, In x l1 /\ R x y.
Proof.
  induction 1 as [|a b l1 l2 Hab _ IH]; simpl; [tauto|].
  intros [<-|H]; [exists a; auto|].
  destruct (IH H) as [x [Hx Rx]]. exists x. auto.
Qed.

Lemma tokenizar_lineas_In U lineas : forall n ts t,
  tokenizar_lineas U n lineas = Some ts -> In t ts ->
  exists linea0 m,
    In linea0 lineas
    /\ linea_omitida U linea0 = false
    /\ In m (finditer (patron_compilado U) (strip U linea0))
    /\ de_match (strip U linea0) (tk_linea t) m t.
Proof.
  induction lineas as [|linea0 resto IH]; intros n ts t;
    cbn [tokenizar_lineas].
  - intros H; inversion H. intros [].
  - cbv zeta. fold (linea_omitida U linea0).
    destruct (linea_omitida U linea0) eqn:Hom.
    + intros H Ht. destruct (IH _ _ _ H Ht) as [l0 [m [H1 H2]]].
      exists l0, m. split; [right; assumption | assumption].
    + destruct (tokens_de_matches _ _ _) as [tl|] eqn:El; [|discriminate].
      destruct (tokenizar_lineas U (S n) resto) as [tr|] eqn:Er;
        [|discriminate].
      intros H; inversion H; subst ts. intros Ht.
      apply in_app_or in Ht. destruct Ht as [Ht|Ht].
      * apply tokens_de_matches_Forall2 in El.
        destruct (Forall2_In_r _ _ _ _ El Ht) as [m [Hm Rm]].
        exists linea0, m. split; [left; reflexivity|].
        split; [assumption|]. split; [assumption|].
        destruct Rm as [R1 [R2 [R3 R4]]]. rewrite R3. repeat split; auto.
      * destruct (IH _ _ _ Er Ht) as [l0 [m [H1 H2]]].
        exists l0, m. split; [right; assumption | assumption].
Qed.

Lemma tokenizar_forma U codigo ts t :
  tokenizar U codigo = Some ts -> In t ts ->
  forma U (tk_tipo t) (tk_valor t).
Proof.
  intros H Ht. unfold tokenizar in H.
  destruct (tokenizar_lineas_In _ _ _ _ _ H Ht)
    as [l0 [[[g ini] fin] [_ [_ [Hm [R1 [R2 [_ R4]]]]]]]].
  simpl in R1, R2, R4.
  apply finditer_fuel_patron in Hm.
  destruct Hm as [t0 [w [s' [Hg [Hd [Hs [Hf [Hma Hi]]]]]]]].
  subst g. rewrite TipoToken_getitem_name in R1. inversion R1; subst t0.
  rewrite R2, Hf, (slice_skipn _ _ _ _ Hs).
  eapply forma_de_patron; eassumption.
Qed.

(** ** Order of the matches and of the tokens *)

Lemma finditer_fuel_sorted groups subject fuel : forall pos,
  StronglySorted match_antes (finditer_fuel fuel groups subject pos).
Proof.
  induction fuel as [|fuel IH]; intros pos; cbn [finditer_fuel];
    [constructor|].
  destruct (length subject <? pos); [constructor|].
  destruct (match_at groups (before subject pos) pos (skipn pos subject))
    as [[g e]|] eqn:E; [|apply IH].
  constructor; [apply IH|].
  apply Forall_forall. intros [[g' ini'] fin'] Hin.
  destruct (match_at_inv _ _ _ _ _ _ E) as [r [_ [Hb _]]].
  destruct (finditer_fuel_inv _ _ _ _ _ _ _ Hin) as [r' [_ [Hp _]]].
  unfold match_antes. simpl.
  destruct (e =? pos) eqn:Ee; [apply Nat.eqb_eq in Ee|]; lia.
Qed.

Lemma StronglySorted_app {A : Type} (R : A -> A -> Prop) l1 l2 :
  StronglySorted R l1 -> StronglySorted R l2 ->
  (forall a b, In a l1 -> In b l2 -> R a b) ->
  StronglySorted R (l1 ++ l2).
Proof.
  induction l1 as [|x l1 IH]; simpl; intros H1 H2 H; [assumption|].
  inversion H1 as [|? ? S1 F1]; subst.
  constructor.
  - apply IH; auto.
  - apply Forall_app. split; [assumption|].
    apply Forall_forall. intros b Hb. apply H; auto.
Qed.

Lemma tokens_de_linea_sorted linea n ms : forall ts,
  Forall2 (de_match linea n) ms ts ->
  StronglySorted match_antes ms ->
  (forall m, In m ms -> snd (fst m) <= snd m <= length linea) ->
  StronglySorted precede ts.
Proof.
  induction ms as [|m ms IH]; intros ts HF HS Hb;
    inversion HF as [|? t ? ts' Hmt HF']; subst; [constructor|].
  inversion HS as [|? ? HS' Hall]; subst.
  constructor.
  - apply IH; auto. intros m' Hm'. apply Hb. right; assumption.
  - apply Forall_forall. intros t2 Ht2.
    destruct (Forall2_In_r _ _ _ _ HF' Ht2) as [m2 [Hm2 [_ [_ [L2 C2]]]]].
    destruct Hmt as [_ [V1 [L1 C1]]].
    rewrite Forall_forall in Hall. specialize (Hall _ Hm2).
    unfold match_antes in Hall.
    right. split; [congruence|].
    assert (Hlen : length (tk_valor t) = snd m - snd (fst m)).
    { rewrite V1. unfold slice. rewrite length_firstn, length_skipn.
      specialize (Hb m (or_introl eq_refl)). lia. }
    specialize (Hb m (or_introl eq_refl)). lia.
Qed.

Lemma tokenizar_lineas_sorted U lineas : forall n ts,
  tokenizar_lineas U n lineas = Some ts ->
  StronglySorted precede ts /\ Forall (fun t => n <= tk_linea t) ts.
Proof.
  induction lineas as [|linea0 resto IH]; intros n ts;
    cbn [tokenizar_lineas].
  - intros H; inversion H. split; constructor.
  - cbv zeta.
    assert (Hresto : forall tr,
              tokenizar_lineas U (S n) resto = Some tr ->
              StronglySorted precede tr
              /\ Forall (fun t => S n <= tk_linea t) tr).
    { intros tr Hr. apply IH. exact Hr. }
    destruct (_ || _).
    + intros H. destruct (Hresto _ H) as [S1 F1]. split; [assumption|].
      eapply Forall_impl; [|exact F1]. simpl. intros; lia.
    + destruct (tokens_de_matches _ _ _) as [tl|] eqn:El; [|discriminate].
      destruct (tokenizar_lineas U (S n) resto) as [tr|] eqn:Er;
        [|discriminate].
      intros H; inversion H; subst ts.
      destruct (Hresto _ eq_refl) as [S1 F1].
      apply tokens_de_matches_Forall2 in El.
      assert (Fl : Forall (fun t => tk_linea t = n) tl).
      { apply Forall_forall. intros t Ht.
        destruct (Forall2_In_r _ _ _ _ El Ht) as [m [_ [_ [_ [L _]]]]].
        exact L. }
      split.
      * apply StronglySorted_app; [|assumption|].
        -- eapply tokens_de_linea_sorted; [exact El| |].
           ++ apply finditer_fuel_sorted.
           ++ intros [[g ini] fin] Hm.
              destruct (finditer_fuel_inv _ _ _ _ _ _ _ Hm)
                as [r [_ [_ [Hb _]]]]. simpl. lia.
        -- intros a b Ha Hb. rewrite Forall_forall in Fl, F1.
           left. specialize (Fl _ Ha). specialize (F1 _ Hb). lia.
      * apply Forall_app. split.
        -- eapply Forall_impl; [|exact Fl]. simpl. intros; lia.
        -- eapply Forall_impl; [|exact F1]. simpl. intros; lia.
Qed.

(** ** Lines are tokenized one by one *)

Lemma split_nl_cons s : exists l ls, split_nl s = l :: ls.
Proof.
  induction s as [|c s [l [ls IH]]]; simpl; [eauto|].
  destruct (N.eqb c 10%N); [eauto|]. rewrite IH. eauto.
Qed.

Lemma split_nl_app a b :
  split_nl (a ++ 10%N :: b) = split_nl a ++ split_nl b.
Proof.
  induction a as [|c a IH]; simpl; [reflexivity|].
  destruct (N.eqb c 10%N); [rewrite IH; reflexivity|].
  rewrite IH. destruct (split_nl_cons a) as [l [ls ->]]. reflexivity.
Qed.

Lemma tokens_de_matches_desplazar linea k n ms :
  tokens_de_matches linea (k + n) ms
  = option_map (map (desplazar k)) (tokens_de_matches linea n ms).
Proof.
  induction ms as [|[[g ini] fin] ms IH]; simpl; [reflexivity|].
  destruct (TipoToken_getitem g); [|reflexivity].
  rewrite IH. destruct (tokens_de_matches linea n ms); reflexivity.
Qed.

Lemma tokenizar_lineas_desplazar U k lineas : forall n,
  tokenizar_lineas U (k + n) lineas
  = option_map (map (desplazar k)) (tokenizar_lineas U n lineas).
Proof.
  induction lineas as [|linea0 resto IH]; intros n; cbn [tokenizar_lineas];
    [reflexivity|].
  cbv zeta. rewrite <- Nat.add_succ_r, IH, tokens_de_matches_desplazar.
  destruct (_ || _); [reflexivity|].
  destruct (tokens_de_matches _ n _); [|reflexivity].
  destruct (tokenizar_lineas U (S n) resto); [|reflexivity].
  simpl. rewrite map_app. reflexivity.
Qed.

Lemma tokenizar_lineas_app U l1 : forall n l2,
  tokenizar_lineas U n (l1 ++ l2)
  = match tokenizar_lineas U n l1,
          tokenizar_lineas U (length l1 + n) l2 with
    | Some t1, Some t2 => Some (t1 ++ t2)
    | _, _ => None
    end.
Proof.
  induction l1 as [|linea0 l1 IH]; intros n l2.
  - simpl. destruct (tokenizar_lineas U n l2); reflexivity.
  - cbn [app tokenizar_lineas length]. cbv zeta.
    rewrite IH.
    replace (S (length l1) + n) with (length l1 + S n) by lia.
    destruct (_ || _); [reflexivity|].
    destruct (tokens_de_matches _ _ _) as [tl|]; [|reflexivity].
    destruct (tokenizar_lineas U (S n) l1) as [t1|]; [|reflexivity].
    destruct (tokenizar_lineas U (length l1 + S n) l2) as [t2|];
      [|reflexivity].
    rewrite app_assoc. reflexivity.
Qed.

(** ** Bounds kept by the dispatch loop *)

Ltac nth_bounds :=
  repeat match goal with
         | H : nth_error ?l ?i = Some _ |- _ =>
             lazymatch goal with
             | _ : i < length l |- _ => fail
             | _ => let B := fresh "Hb" in
                    assert (B : i < length l)
                      by (apply nth_error_Some; rewrite H; discriminate)
             end
         end.

Lemma dict_length_update {V : Type} k (f : V -> V) d :
  length (Dict.update k f d) = length d.
Proof.
  induction d as [|[k' v'] d IH]; simpl; [reflexivity|].
  destruct (PyStr.eqb k' k); simpl; [reflexivity | rewrite IH; reflexivity].
Qed.

Ltac cerrar_fino :=
  split; simpl_st;
  [ reflexivity
  | lia
  | first [ exists []; rewrite app_nil_r; split; [reflexivity | simpl; lia]
          | eexists; split; [reflexivity | simpl; lia] ]
  | rewrite ?dict_length_update, ?length_app; simpl; lia ].

Lemma analizar_inicializacion_fino st variable st' :
  posicion st < length (tokens st) ->
  analizar_inicializacion st variable = Some st' ->
  fino st st' /\ length (tabla_simbolos st') = length (tabla_simbolos st).
Proof.
  intros Hpos. rewrite analizar_inicializacion_eq.
  destruct (nth_error (tokens st) (S (posicion st))) eqn:E1.
  - nth_bounds.
    destruct (verificar_compatibilidad_tipos _ _ _) as [[|]|];
      intros H; inversion H; subst st'; (split; [cerrar_fino|]);
      simpl_st; rewrite ?dict_length_update; reflexivity.
  - intros H; inversion H; subst st'. split; [cerrar_fino | reflexivity].
Qed.

Lemma analizar_asignacion_fino st k st' :
  posicion st < length (tokens st) ->
  analizar_asignacion st k = Some st' ->
  fino st st' /\ length (tabla_simbolos st') = length (tabla_simbolos st).
Proof.
  intros Hpos. rewrite analizar_asignacion_eq.
  destruct (nth_error (tokens st) (S (posicion st))) eqn:E1.
  - nth_bounds. destruct (Dict.get _ _); [|discriminate].
    destruct (verificar_compatibilidad_tipos _ _ _) as [[|]|];
      intros H; inversion H; subst st'; (split; [cerrar_fino|]);
      simpl_st; rewrite ?dict_length_update; reflexivity.
  - destruct (nth_error (tokens st) (posicion st)); [|discriminate].
    intros H; inversion H; subst st'. split; [cerrar_fino | reflexivity].
Qed.

Lemma fino_trans st1 st2 st3 :
  fino st1 st2 -> fino st2 st3 ->
  length (errores st2) = length (errores st1) ->
  fino st1 st3.
Proof.
  intros [T1 P1 [e1 [E1 L1]] D1] [T2 P2 [e2 [E2 L2]] D2] Hl.
  rewrite T1 in *. split.
  - congruence.
  - lia.
  - assert (e1 = []).
    { rewrite E1, length_app in Hl. destruct e1; [reflexivity|simpl in Hl; lia]. }
    subst e1. rewrite app_nil_r in E1. exists e2. rewrite E2, E1. auto.
  - lia.
Qed.

Lemma paso_fino st st' :
  posicion st < length (tokens st) -> paso st = Some st' -> fino st st'.
Proof.
  intros Hpos. unfold paso.
  destruct (nth_error (tokens st) (posicion st)) as [ta|] eqn:Ea;
    [|discriminate].
  destruct (tk_tipo ta);
    try (intros H; inversion H; subst st'; cerrar_fino).
  - (* TIPO_DATO *)
    rewrite analizar_declaracion_eq, Ea.
    destruct (nth_error (tokens st) (S (posicion st))) as [tn|] eqn:En;
      [|intros H; inversion H; subst st'; cerrar_fino].
    nth_bounds.
    destruct (negb _); [intros H; inversion H; subst st'; cerrar_fino|].
    destruct (Dict.mem _ _) eqn:Em;
      [intros H; inversion H; subst st'; cerrar_fino|].
    cbv zeta. rewrite dict_set_new by exact Em.
    set (st2 := avanzar (con_tabla (avanzar st) _)).
    assert (F2 : fino st st2) by (subst st2; cerrar_fino).
    destruct (nth_error (tokens st) (S (S (posicion st)))) as [t|] eqn:E2;
      [|intros H; inversion H; subst st'; exact F2].
    destruct (TipoToken_eqb (tk_tipo t) ASIGNACION);
      [|intros H; inversion H; subst st'; exact F2].
    intros H. nth_bounds.
    apply analizar_inicializacion_fino in H;
      [|subst st2; simpl_st; assumption].
    destruct H as [[T3 P3 [e3 [E3 L3]] D3] Hl].
    subst st2; simpl_st. split; simpl_st.
    + assumption.
    + lia.
    + exists e3. auto.
    + rewrite Hl, length_app. simpl. lia.
  - (* IDENTIFICADOR *)
    rewrite analizar_identificador_eq, Ea.
    destruct (Dict.mem _ _);
      [|intros H; inversion H; subst st'; cerrar_fino].
    cbv zeta.
    destruct (nth_error (tokens st) (S (posicion st))) as [t|] eqn:E1;
      [|intros H; inversion H; subst st'; cerrar_fino].
    nth_bounds.
    destruct (TipoToken_eqb (tk_tipo t) ASIGNACION);
      [|intros H; inversion H; subst st'; cerrar_fino].
    intros H. apply analizar_asignacion_fino in H; [|simpl_st; assumption].
    destruct H as [[T3 P3 [e3 [E3 L3]] D3] Hl]. simpl_st.
    split; simpl_st.
    + assumption.
    + lia.
    + exists e3. auto.
    + rewrite Hl, dict_length_update. lia.
  - (* PALABRA_CLAVE *)
    unfold analizar_palabra_clave. rewrite Ea.
    destruct (in_list _ _); intros H; injection H as <-; [|cerrar_fino].
    unfold analizar_estructura_control. destruct (negb _); cerrar_fino.
Qed.

Lemma analizar_tokens_fuel_inv (P : Estado -> Prop) :
  (forall st st',
     posicion st < length (tokens st) -> P st -> paso st = Some st' -> P st') ->
  forall fuel st st',
    P st -> analizar_tokens_fuel fuel st = Some st' -> P st'.
Proof.
  intros Hstep. induction fuel as [|fuel IH]; intros st st' HP; simpl.
  - destruct (posicion st <? length (tokens st)); [discriminate|].
    intros H; inversion H; subst; assumption.
  - destruct (posicion st <? length (tokens st)) eqn:E.
    + apply Nat.ltb_lt in E.
      destruct (paso st) as [st1|] eqn:E1; [|discriminate].
      apply IH. eapply Hstep; eassumption.
    + intros H; inversion H; subst; assumption.
Qed.

Lemma analizar_tokens_fuel_sale fuel : forall st st',
  analizar_tokens_fuel fuel st = Some st' ->
  length (tokens st') <= posicion st'.
Proof.
  induction fuel as [|fuel IH]; intros st st'; simpl.
  - destruct (posicion st <? length (tokens st)) eqn:E; [discriminate|].
    intros H; inversion H; subst. apply Nat.ltb_ge in E. exact E.
  - destruct (posicion st <? length (tokens st)) eqn:E.
    + destruct (paso st) as [st1|]; [apply IH | discriminate].
    + intros H; inversion H; subst. apply Nat.ltb_ge in E. exact E.
Qed.

Lemma analizar_tokens_fuel_fino fuel st st' :
  posicion st <= length (tokens st) ->
  analizar_tokens_fuel fuel st = Some st' ->
  tokens st' = tokens st
  /\ posicion st' = length (tokens st)
  /\ length (errores st') + posicion st
     <= length (errores st) + posicion st'
  /\ 2 * length (tabla_simbolos st') + posicion st
     <= 2 * length (tabla_simbolos st) + posicion st'.
Proof.
  intros Hpos Hrun.
  assert (Hinv :
    tokens st' = tokens st
    /\ posicion st <= posicion st' <= length (tokens st)
    /\ length (errores st') + posicion st
       <= length (errores st) + posicion st'
    /\ 2 * length (tabla_simbolos st') + posicion st
       <= 2 * length (tabla_simbolos st) + posicion st').
  { revert Hrun. apply analizar_tokens_fuel_inv with
      (P := fun s =>
         tokens s = tokens st
         /\ posicion st <= posicion s <= length (tokens st)
         /\ length (errores s) + posicion st
            <= length (errores st) + posicion s
         /\ 2 * length (tabla_simbolos s) + posicion st
            <= 2 * length (tabla_simbolos st) + posicion s).
    - intros s s' Hs [T [P [E D]]] Hp.
      destruct (paso_fino _ _ Hs Hp) as [T1 P1 [es [E1 L1]] D1].
      rewrite T in *. rewrite E1, length_app.
      repeat split; try congruence; lia.
    - repeat split; lia. }
  destruct Hinv as [T [P [E D]]].
  pose proof (analizar_tokens_fuel_sale _ _ _ Hrun) as Hfin.
  rewrite T in Hfin. repeat split; try assumption. lia.
Qed.

(* ================================================================== *)
(** * The lexer: further properties *)

(** X1. The text of every token has the shape of its type: a type keyword
    is one of the seven type names, a control keyword one of the ten
    words, a boolean [true] or [false]; a number is a run of
    digits, alone or followed by a point and a run of digits that may be
    empty (the [5.] of [5.a] is a number); a string is enclosed in double quotes with none
    inside; an assignment is [=], a semicolon [;], a parenthesis one
    bracket character, an operator a run of operator characters; an
    identifier starts with a letter or underscore, continues with
    letters, digits and underscores, and is never a reserved word.  No
    token has the type DESCONOCIDO. *)
Theorem X1_forma_de_los_tokens :
  forall U codigo,
    exists ts,
      tokenizar U codigo = Some ts
      /\ forall t, In t ts ->
           forma U (tk_tipo t) (tk_valor t) /\ tk_tipo t <> DESCONOCIDO.
Proof.
  intros U codigo. destruct (tokenizar_total U codigo) as [ts H].
  exists ts. split; [exact H|]. intros t Ht.
  pose proof (tokenizar_forma _ _ _ _ H Ht) as Hf.
  split; [exact Hf|]. intros Hd. rewrite Hd in Hf. exact Hf.
Qed.

Lemma X1_forma_de_los_tokens_witness :
  exists ts,
    tokenizar latin1 x_codigo = Some ts
    /\ In (mkToken IDENTIFICADOR (lit "total") 1 4) ts
    /\ forma latin1 IDENTIFICADOR (lit "total").
Proof.
  destruct (X1_forma_de_los_tokens latin1 x_codigo) as [ts [H1 H2]].
  exists ts. split; [exact H1|].
  assert (Hin : In (mkToken IDENTIFICADOR (lit "total") 1 4) ts).
  { assert (Hr : Some ts = tokenizar latin1 x_codigo) by (symmetry; exact H1).
    vm_compute in Hr. injection Hr as Hr. rewrite Hr.
    vm_compute. right. left. reflexivity. }
  split; [exact Hin | exact (proj1 (H2 _ Hin))].
Defined.

Example numero_con_punto_final :
  tokenizar latin1 (lit "5.a")
  = Some [mkToken NUMERO (lit "5.") 1 0; mkToken IDENTIFICADOR (lit "a") 1 2]
  /\ tokenizar latin1 (lit "5.")
     = Some [mkToken NUMERO (lit "5") 1 0].
Proof. split; vm_compute; reflexivity. Qed.

(** X2. The tokens come out in source order and do not overlap: of two
    tokens of the list, the earlier one is on an earlier line, or on the
    same line and ends at or before the column where the later one
    starts. *)
Theorem X2_tokens_en_orden :
  forall U codigo,
    exists ts,
      tokenizar U codigo = Some ts /\ StronglySorted precede ts.
Proof.
  intros U codigo. destruct (tokenizar_total U codigo) as [ts H].
  exists ts. split; [exact H|].
  exact (proj1 (tokenizar_lineas_sorted _ _ _ _ H)).
Qed.

(** X3. Lines are tokenized independently of each other: the tokens of
    two texts joined by a newline are the tokens of the first followed by
    the tokens of the second, moved down by the number of lines of the
    first. *)
Theorem X3_tokenizar_por_lineas :
  forall U a b,
    exists ta tb,
      tokenizar U a = Some ta
      /\ tokenizar U b = Some tb
      /\ tokenizar U (a ++ [10%N] ++ b)
         = Some (ta ++ map (desplazar (length (split_nl a))) tb).
Proof.
  intros U a b.
  destruct (tokenizar_total U a) as [ta Ha].
  destruct (tokenizar_total U b) as [tb Hb].
  exists ta, tb. split; [exact Ha|]. split; [exact Hb|].
  unfold tokenizar in *. cbn [app].
  rewrite split_nl_app, tokenizar_lineas_app, Ha.
  rewrite tokenizar_lineas_desplazar, Hb. reflexivity.
Qed.

(* ================================================================== *)
(** * The analyzer: further properties *)

Lemma advertencias_cuenta d :
  length (advertencias_no_usadas d ++ advertencias_sin_inicializar d)
  = length (filter (fun v => negb (usada v && inicializada v))
                   (Dict.values d)).
Proof.
  unfold advertencias_no_usadas, advertencias_sin_inicializar.
  rewrite length_app, !length_map.
  induction (Dict.values d) as [|v vs IH]; simpl; [reflexivity|].
  destruct (usada v), (inicializada v); simpl; lia.
Qed.

Lemma analizar_cases U st codigo :
  exists ts,
    tokenizar U codigo = Some ts
    /\ ((ts = [] /\ analizar U st codigo = Some estado_sin_tokens)
        \/ (ts <> []
            /\ exists st1,
                 analizar_tokens (mkEstado [] [] [] ts 0) = Some st1
                 /\ analizar U st codigo = Some (estado_final st1))).
Proof.
  destruct (tokenizar_total U codigo) as [[|t ts] H].
  - exists []. split; [exact H|]. left. split; [reflexivity|].
    apply analizar_sin_tokens. exact H.
  - exists (t :: ts). split; [exact H|]. right. split; [discriminate|].
    destruct (analizar_con_tokens U st codigo (t :: ts) H)
      as [st1 [H1 [_ [_ R]]]]; [discriminate|].
    exists st1. auto.
Qed.

(** X4. Every run ends with the cursor at the end of the token list.  It
    reports at most one error per token (one error when there is no
    token), declares at most one symbol per two tokens, and gives at most
    one warning per symbol. *)
Theorem X4_tamanos_de_un_analisis :
  forall U st codigo,
    exists r ts,
      analizar U st codigo = Some r
      /\ tokenizar U codigo = Some ts
      /\ tokens r = ts
      /\ posicion r = length ts
      /\ length (errores r) <= Nat.max 1 (length ts)
      /\ 2 * length (tabla_simbolos r) <= length ts
      /\ length (advertencias r) <= length (tabla_simbolos r).
Proof.
  intros U st codigo.
  destruct (analizar_cases U st codigo) as [ts [Ht [[-> R]|[Hne [st1 [H1 R]]]]]].
  - exists estado_sin_tokens, []. repeat split; auto.
  - exists (estado_final st1), ts. split; [exact R|]. split; [exact Ht|].
    unfold analizar_tokens in H1.
    apply analizar_tokens_fuel_fino in H1; [|simpl; lia].
    simpl_st. destruct H1 as [T [P [E D]]].
    unfold estado_final. simpl_st. simpl in E, D.
    repeat split; try assumption; try lia.
    rewrite advertencias_cuenta. unfold Dict.values.
    etransitivity; [apply filter_length_le|]. rewrite length_map. lia.
Qed.

(** X5. The number of warnings of a run is the number of symbols that are
    not both used and initialized; so a run has no warning exactly when
    every declared symbol is used and initialized. *)
Theorem X5_advertencias_exactas :
  forall U st codigo,
    exists r,
      analizar U st codigo = Some r
      /\ length (advertencias r)
         = length (filter (fun v => negb (usada v && inicializada v))
                          (Dict.values (tabla_simbolos r)))
      /\ (advertencias r = [] <->
          forall v, In v (Dict.values (tabla_simbolos r)) ->
                    usada v = true /\ inicializada v = true).
Proof.
  intros U st codigo.
  assert (H : exists r,
             analizar U st codigo = Some r
             /\ advertencias r
                = advertencias_no_usadas (tabla_simbolos r)
                  ++ advertencias_sin_inicializar (tabla_simbolos r)).
  { destruct (analizar_cases U st codigo)
      as [ts [Ht [[-> R]|[Hne [st1 [H1 R]]]]]].
    - exists estado_sin_tokens. split; [exact R | reflexivity].
    - exists (estado_final st1). split; [exact R | reflexivity]. }
  destruct H as [r [R A]]. exists r. split; [exact R|].
  assert (Hc := advertencias_cuenta (tabla_simbolos r)).
  rewrite <- A in Hc. split; [exact Hc|]. split.
  - intros Hnil v Hv. rewrite Hnil in Hc. simpl in Hc.
    destruct (usada v && inicializada v) eqn:Eb.
    + apply andb_true_iff in Eb. exact Eb.
    + exfalso.
      assert (Hin : In v (filter (fun v => negb (usada v && inicializada v))
                                 (Dict.values (tabla_simbolos r)))).
      { apply filter_In. split; [exact Hv|]. rewrite Eb. reflexivity. }
      destruct (filter _ _); [destruct Hin | discriminate].
  - intros Hall.
    assert (Hf : forall vs,
              (forall v, In v vs -> usada v = true /\ inicializada v = true) ->
              filter (fun v => negb (usada v && inicializada v)) vs = []).
    { intros vs. induction vs as [|v vs IH]; intros Hvs; [reflexivity|].
      simpl. destruct (Hvs v (or_introl eq_refl)) as [-> ->]. simpl.
      apply IH. intros v' Hv'. apply Hvs. right. exact Hv'. }
    rewrite (Hf _ Hall) in Hc.
    destruct (advertencias r); [reflexivity|discriminate].
Qed.

Lemma X5_advertencias_exactas_witness :
  exists r,
    analizar latin1 estado_inicial x5_codigo = Some r
    /\ advertencias r = []
    /\ forall v, In v (Dict.values (tabla_simbolos r)) ->
                 usada v = true /\ inicializada v = true.
Proof.
  destruct (X5_advertencias_exactas latin1 estado_inicial x5_codigo)
    as [r [H1 [_ H2]]].
  exists r. split; [exact H1|].
  assert (Hr : Some r = analizar latin1 estado_inicial x5_codigo)
    by (symmetry; exact H1).
  vm_compute in Hr. injection Hr as Hr.
  assert (Ha : advertencias r = []) by (rewrite Hr; reflexivity).
  split; [exact Ha | exact (proj1 H2 Ha)].
Defined.

Lemma persiste_refl v : persiste v v.
Proof. repeat split; auto. Qed.

Lemma persiste_trans v1 v2 v3 : persiste v1 v2 -> persiste v2 v3 -> persiste v1 v3.
Proof.
  intros [N1 [T1 [L1 [I1 U1]]]] [N2 [T2 [L2 [I2 U2]]]].
  repeat split; try congruence; auto.
Qed.

Lemma dict_get_app {V : Type} k (d1 d2 : Dict.dict V) :
  Dict.get k (d1 ++ d2)
  = match Dict.get k d1 with Some v => Some v | None => Dict.get k d2 end.
Proof.
  induction d1 as [|[k' v'] d1 IH]; simpl; [reflexivity|].
  destruct (PyStr.eqb k' k); [reflexivity | exact IH].
Qed.

Lemma cambio_persiste d d' :
  cambio d d' ->
  forall k v, Dict.get k d = Some v ->
              exists v', Dict.get k d' = Some v' /\ persiste v v'.
Proof.
  induction 1 as [d|d k0 Hm|d k0 v0 tok Hg Hv|d tt tn Hm|d1 d2 d3 _ IH1 _ IH2];
    intros k v Hk.
  - exists v. split; [assumption | apply persiste_refl].
  - rewrite dict_get_update, Hk. destruct (PyStr.eqb k0 k); simpl.
    + eexists; split; [reflexivity|]. repeat split; auto.
    + exists v. split; [reflexivity | apply persiste_refl].
  - rewrite dict_get_update, Hk. destruct (PyStr.eqb k0 k); simpl.
    + eexists; split; [reflexivity|]. repeat split; auto.
    + exists v. split; [reflexivity | apply persiste_refl].
  - rewrite dict_get_app, Hk. exists v. split; [reflexivity|].
    apply persiste_refl.
  - destruct (IH1 _ _ Hk) as [v2 [H2 P2]].
    destruct (IH2 _ _ H2) as [v3 [H3 P3]].
    exists v3. split; [assumption | eapply persiste_trans; eassumption].
Qed.

(** X6. The dispatch loop, started in any state, ends, keeps the tokens,
    never emits a warning and only appends to the error list; it never
    removes a symbol, never changes the name, the type or the
    declaration line of a symbol, and never takes back an initialized or
    a used flag. *)
Theorem X6_simbolos_persistentes :
  forall st,
    exists st',
      analizar_tokens st = Some st'
      /\ tokens st' = tokens st
      /\ advertencias st' = advertencias st
      /\ (exists es, errores st' = errores st ++ es)
      /\ forall k v,
           Dict.get k (tabla_simbolos st) = Some v ->
           exists v',
             Dict.get k (tabla_simbolos st') = Some v' /\ persiste v v'.
Proof.
  intros st.
  destruct (analizar_tokens_termina st) as [st' [H [[T _ C A E] _]]].
  exists st'. repeat split; try assumption.
  apply cambio_persiste. exact C.
Qed.

Lemma X6_simbolos_persistentes_witness :
  Dict.get (lit "n") (tabla_simbolos x6_estado)
  = Some (mkVariable (lit "n") (lit "int") 1 true false)
  /\ exists st' v',
       analizar_tokens x6_estado = Some st'
       /\ Dict.get (lit "n") (tabla_simbolos st') = Some v'
       /\ persiste (mkVariable (lit "n") (lit "int") 1 true false) v'.
Proof.
  split; [reflexivity|].
  destruct (X6_simbolos_persistentes x6_estado) as [st' [H1 [_ [_ [_ H2]]]]].
  destruct (H2 (lit "n") _ eq_refl) as [v' [G P]].
  exists st', v'. auto.
Defined.

Lemma Forall_values_update (P : Variable_ -> Prop) k f d :
  (forall v, P v -> P (f v)) ->
  Forall P (Dict.values d) -> Forall P (Dict.values (Dict.update k f d)).
Proof.
  intros Hf. induction d as [|[k' v'] d IH]; simpl; [auto|].
  intros H. inversion H as [|? ? Hv Hd]; subst.
  destruct (PyStr.eqb k' k); simpl; constructor; auto.
Qed.

Lemma procede_marcar_usada ts v : procede ts v -> procede ts (marcar_usada v).
Proof. intros [i [tt [tn H]]]. exists i, tt, tn. exact H. Qed.

Lemma procede_marcar_inicializada ts v :
  procede ts v -> procede ts (marcar_inicializada v).
Proof. intros [i [tt [tn H]]]. exists i, tt, tn. exact H. Qed.

Lemma analizar_inicializacion_procede ts st variable st' :
  analizar_inicializacion st variable = Some st' ->
  Forall (procede ts) (Dict.values (tabla_simbolos st)) ->
  Forall (procede ts) (Dict.values (tabla_simbolos st')).
Proof.
  rewrite analizar_inicializacion_eq.
  destruct (nth_error _ _); [|intros H; inversion H; auto].
  destruct (verificar_compatibilidad_tipos _ _ _) as [[|]|];
    intros H; inversion H; simpl_st; auto.
  apply Forall_values_update. apply procede_marcar_inicializada.
Qed.

Lemma analizar_asignacion_procede ts st k st' :
  analizar_asignacion st k = Some st' ->
  Forall (procede ts) (Dict.values (tabla_simbolos st)) ->
  Forall (procede ts) (Dict.values (tabla_simbolos st')).
Proof.
  rewrite analizar_asignacion_eq.
  destruct (nth_error (tokens st) (S (posicion st))).
  - destruct (Dict.get _ _); [|discriminate].
    destruct (verificar_compatibilidad_tipos _ _ _) as [[|]|];
      intros H; inversion H; simpl_st; auto.
    apply Forall_values_update. apply procede_marcar_inicializada.
  - destruct (nth_error _ _); [|discriminate].
    intros H; inversion H; auto.
Qed.

Lemma paso_procede st st' :
  paso st = Some st' ->
  Forall (procede (tokens st)) (Dict.values (tabla_simbolos st)) ->
  Forall (procede (tokens st)) (Dict.values (tabla_simbolos st')).
Proof.
  unfold paso.
  destruct (nth_error (tokens st) (posicion st)) as [ta|] eqn:Ea;
    [|discriminate].
  destruct (tk_tipo ta) eqn:Et;
    try (intros H; inversion H; subst st'; simpl_st; auto; fail).
  - (* TIPO_DATO *)
    rewrite analizar_declaracion_eq, Ea.
    destruct (nth_error (tokens st) (S (posicion st))) as [tn|] eqn:En;
      [|intros H; inversion H; auto].
    destruct (TipoToken_eqb (tk_tipo tn) IDENTIFICADOR) eqn:Ei; cbn [negb];
      [|intros H; inversion H; auto].
    destruct (Dict.mem _ _) eqn:Em; [intros H; inversion H; auto|].
    cbv zeta. rewrite dict_set_new by exact Em.
    intros H Hd.
    assert (Hd2 : Forall (procede (tokens st))
                    (Dict.values (tabla_simbolos st
                                  ++ [(tk_valor tn, nueva_variable ta tn)]))).
    { unfold Dict.values. rewrite map_app. apply Forall_app.
      split; [exact Hd|]. constructor; [|constructor].
      exists (posicion st), ta, tn. repeat split; auto.
      destruct (tk_tipo tn); try discriminate; reflexivity. }
    destruct (nth_error (tokens st) (S (S (posicion st)))) as [t|];
      [|inversion H; exact Hd2].
    destruct (TipoToken_eqb (tk_tipo t) ASIGNACION);
      [|inversion H; exact Hd2].
    eapply analizar_inicializacion_procede; [exact H | exact Hd2].
  - (* IDENTIFICADOR *)
    rewrite analizar_identificador_eq, Ea.
    destruct (Dict.mem _ _); [|intros H; inversion H; auto].
    cbv zeta. intros H Hd.
    assert (Hd2 : Forall (procede (tokens st))
                    (Dict.values (Dict.update (tk_valor ta) marcar_usada
                                              (tabla_simbolos st)))).
    { apply Forall_values_update; [apply procede_marcar_usada | exact Hd]. }
    destruct (nth_error (tokens st) (S (posicion st))) as [t|];
      [|inversion H; exact Hd2].
    destruct (TipoToken_eqb (tk_tipo t) ASIGNACION);
      [|inversion H; exact Hd2].
    eapply analizar_asignacion_procede; [exact H | exact Hd2].
  - (* PALABRA_CLAVE *)
    unfold analizar_palabra_clave. rewrite Ea.
    destruct (in_list _ _); intros H; injection H as <-; auto.
    unfold analizar_estructura_control. destruct (negb _); auto.
Qed.

Lemma analizar_tokens_procede ts st1 :
  analizar_tokens (mkEstado [] [] [] ts 0) = Some st1 ->
  Forall (procede ts) (Dict.values (tabla_simbolos st1)).
Proof.
  unfold analizar_tokens. intros H.
  refine (proj2 (analizar_tokens_fuel_inv
                   (fun s => tokens s = ts
                             /\ Forall (procede ts)
                                       (Dict.values (tabla_simbolos s)))
                   _ _ _ _ _ H)).
  - intros s s' Hs [T F] Hp.
    destruct (paso_sigue s Hs) as [s2 [H2 [T2 _ _ _ _]]].
    assert (s2 = s') by congruence. subst s2.
    split; [congruence|]. rewrite <- T in *. eapply paso_procede; eassumption.
  - split; [reflexivity | constructor].
Qed.

(** X7. Every symbol in the table at the end of a run is stored under its
    own name; its type is one of the seven names of [tipos_validos], its
    name is an identifier that is not a reserved word, and its
    declaration line is the line, counted from 1, of the identifier
    token that follows a type keyword in the token list. *)
Theorem X7_simbolos_bien_formados :
  forall U st codigo,
    exists r,
      analizar U st codigo = Some r
      /\ forall k v,
           Dict.get k (tabla_simbolos r) = Some v ->
           nombre v = k
           /\ In (tipo v) tipos_validos
           /\ forma U IDENTIFICADOR k
           /\ 1 <= linea_declaracion v
           /\ procede (tokens r) v.
Proof.
  intros U st codigo.
  destruct (analizar_cases U st codigo)
    as [ts [Ht [[-> R]|[Hne [st1 [H1 R]]]]]].
  - exists estado_sin_tokens. split; [exact R|]. intros k v H. discriminate H.
  - exists (estado_final st1). split; [exact R|].
    unfold estado_final. simpl_st. intros k v Hg.
    destruct (analizar_tokens_termina (mkEstado [] [] [] ts 0))
      as [st1' [H1' [[T _ C _ _] _]]].
    assert (st1' = st1) by congruence. subst st1'. simpl_st.
    pose proof (cambio_bien_formada _ _ C tabla_vacia_bien_formada)
      as [_ Hn].
    pose proof (analizar_tokens_procede _ _ H1) as Hp.
    apply dict_get_In in Hg.
    rewrite Forall_forall in Hn, Hp.
    pose proof (Hn _ Hg) as Hk. simpl in Hk.
    assert (Hv : In v (Dict.values (tabla_simbolos st1))).
    { unfold Dict.values. change v with (snd (k, v)). apply in_map. exact Hg. }
    pose proof (Hp _ Hv) as Hpv.
    destruct Hpv as [i [tt [tn [Ei [Eti [En [Etn [Hnom [Htip Hlin]]]]]]]]].
    apply nth_error_In in Ei, En.
    pose proof (tokenizar_forma _ _ _ _ Ht Ei) as Ftt.
    pose proof (tokenizar_forma _ _ _ _ Ht En) as Ftn.
    rewrite Eti in Ftt. rewrite Etn in Ftn.
    pose proof (proj2 (tokenizar_lineas_sorted _ _ _ _ Ht)) as Hl.
    rewrite Forall_forall in Hl. specialize (Hl _ En).
    split; [exact Hk|]. split; [rewrite Htip; exact Ftt|].
    split; [rewrite <- Hk, Hnom; exact Ftn|].
    split; [rewrite Hlin; exact Hl|].
    rewrite T. exact (Hp _ Hv).
Qed.

Lemma X7_simbolos_bien_formados_witness :
  exists r v,
    analizar latin1 estado_inicial x_codigo = Some r
    /\ Dict.get (lit "total") (tabla_simbolos r) = Some v
    /\ nombre v = lit "total"
    /\ In (tipo v) tipos_validos
    /\ 1 <= linea_declaracion v.
Proof.
  destruct (X7_simbolos_bien_formados latin1 estado_inicial x_codigo)
    as [r [H1 H2]].
  assert (Hr : Some r = analizar latin1 estado_inicial x_codigo)
    by (symmetry; exact H1).
  vm_compute in Hr. injection Hr as Hr.
  assert (Hg : Dict.get (lit "total") (tabla_simbolos r)
               = Some (mkVariable (lit "total") (lit "int") 1 true true)).
  { rewrite Hr. reflexivity. }
  destruct (H2 _ _ Hg) as [G1 [G2 [_ [G4 _]]]].
  exists r, (mkVariable (lit "total") (lit "int") 1 true true).
  split; [exact H1|]. split; [exact Hg|]. split; [exact G1|].
  split; [exact G2 | exact G4].
Defined.

Lemma skipn_nth_error {A : Type} (l : list A) i x :
  nth_error l i = Some x -> skipn i l = x :: skipn (S i) l.
Proof.
  revert i. induction l as [|y l IH]; intros [|i]; simpl; try discriminate.
  - intros H; inversion H; reflexivity.
  - intros H. rewrite (IH _ H). reflexivity.
Qed.

Lemma sin_declaraciones_fuel fuel : forall st,
  tabla_simbolos st = [] ->
  Forall (fun t => tk_tipo t <> TIPO_DATO) (tokens st) ->
  posicion st <= length (tokens st) ->
  length (tokens st) - posicion st <= fuel ->
  analizar_tokens_fuel fuel st
  = Some (mkEstado []
            (errores st
             ++ errores_de_usos (skipn (posicion st) (tokens st)))
            (advertencias st) (tokens st) (length (tokens st))).
Proof.
  induction fuel as [|fuel IH]; intros st Ht Hf Hp Hfuel.
  - simpl. assert (E : posicion st = length (tokens st)) by lia.
    rewrite E, Nat.ltb_irrefl, skipn_all, app_nil_r.
    destruct st; simpl in *. subst. reflexivity.
  - simpl. destruct (posicion st <? length (tokens st)) eqn:Ep.
    + apply Nat.ltb_lt in Ep.
      destruct (nth_error (tokens st) (posicion st)) as [t|] eqn:Et;
        [|apply nth_error_None in Et; lia].
      rewrite (skipn_nth_error _ _ _ Et). cbn [errores_de_usos].
      assert (Hnt : tk_tipo t <> TIPO_DATO).
      { rewrite Forall_forall in Hf. apply Hf.
        eapply nth_error_In; eassumption. }
      assert (Hgo : forall st1,
                paso st = Some st1 ->
                tabla_simbolos st1 = [] ->
                tokens st1 = tokens st ->
                posicion st1 = S (posicion st) ->
                advertencias st1 = advertencias st ->
                forall es, errores st1 = errores st ++ es ->
                match paso st with
                | Some st' => analizar_tokens_fuel fuel st'
                | None => None
                end
                = Some (mkEstado []
                          (errores st ++ es
                           ++ errores_de_usos (skipn (S (posicion st))
                                                     (tokens st)))
                          (advertencias st) (tokens st)
                          (length (tokens st)))).
      { intros st1 H1 T1 K1 P1 A1 es E1. rewrite H1.
        rewrite IH; rewrite ?T1, ?K1, ?P1, ?A1, ?E1; auto; try lia.
        rewrite <- app_assoc. reflexivity. }
      unfold paso in *. rewrite Et in *.
      destruct (tk_tipo t) eqn:Ek; try congruence;
        try (apply (Hgo (avanzar st)); auto;
             simpl_st; rewrite app_nil_r; reflexivity).
      * (* IDENTIFICADOR *)
        rewrite analizar_identificador_eq, Et in *. rewrite Ht in *.
        cbn [Dict.mem Dict.get] in *.
        eapply Hgo; simpl_st; auto.
      * (* PALABRA_CLAVE *)
        unfold analizar_palabra_clave in *. rewrite Et in *.
        unfold analizar_estructura_control in *.
        destruct (in_list (tk_valor t) _); cbn [andb];
          [destruct (negb (buscar_parentesis _))|];
          eapply Hgo; simpl_st; auto; rewrite app_nil_r; reflexivity.
    + apply Nat.ltb_ge in Ep. assert (E : posicion st = length (tokens st)) by lia.
      rewrite E, skipn_all, app_nil_r.
      destruct st; simpl in *. subst. reflexivity.
Qed.

(** X8. When the text has tokens but no type keyword, nothing is declared
    and every use is reported: the run ends with an empty table, no
    warning, and exactly one error "no declarada" for each identifier
    token and one error "Se esperaba '('" for each [if], [while] or [for]
    that no opening parenthesis follows, in token order.  An [=] after
    an undeclared identifier starts no assignment check. *)
Theorem X8_sin_declaraciones :
  forall U st codigo ts,
    tokenizar U codigo = Some ts ->
    ts <> [] ->
    Forall (fun t => tk_tipo t <> TIPO_DATO) ts ->
    analizar U st codigo
    = Some (mkEstado [] (errores_de_usos ts) [] ts (length ts)).
Proof.
  intros U st codigo ts Ht Hne Hf.
  unfold analizar. rewrite Ht. unfold limpiar_estado, con_tokens. simpl_st.
  destruct ts as [|t ts]; [congruence|].
  unfold analizar_tokens.
  rewrite sin_declaraciones_fuel by (simpl_st; auto; lia).
  reflexivity.
Qed.

Lemma X8_sin_declaraciones_witness :
  exists ts,
    tokenizar latin1 x8_codigo = Some ts
    /\ ts <> []
    /\ Forall (fun t => tk_tipo t <> TIPO_DATO) ts
    /\ analizar latin1 estado_inicial x8_codigo
       = Some (mkEstado [] (errores_de_usos ts) [] ts (length ts))
    /\ map e_linea (errores_de_usos ts) = [1; 2; 2].
Proof.
  eexists. split; [vm_compute; reflexivity|].
  split; [discriminate|].
  assert (Hf : Forall (fun t => tk_tipo t <> TIPO_DATO)
                 [mkToken IDENTIFICADOR (lit "y") 1 0;
                  mkToken ASIGNACION (lit "=") 1 2;
                  mkToken NUMERO (lit "5") 1 4;
                  mkToken PUNTO_COMA (lit ";") 1 5;
                  mkToken PALABRA_CLAVE (lit "while") 2 0;
                  mkToken IDENTIFICADOR (lit "y") 2 6]).
  { repeat constructor; discriminate. }
  split; [exact Hf|]. split; [|reflexivity].
  apply X8_sin_declaraciones; [reflexivity | discriminate | exact Hf].
Defined.

Lemma verificar_compatibilidad_tipos_tipos d d' destino token_valor :
  option_map tipo (Dict.get (tk_valor token_valor) d)
  = option_map tipo (Dict.get (tk_valor token_valor) d') ->
  verificar_compatibilidad_tipos d destino token_valor
  = verificar_compatibilidad_tipos d' destino token_valor.
Proof.
  unfold verificar_compatibilidad_tipos, Dict.mem. intros H.
  destruct (tk_tipo token_valor); try reflexivity.
  destruct (Dict.get (tk_valor token_valor) d) as [v|],
           (Dict.get (tk_valor token_valor) d') as [v'|];
    simpl in H; try discriminate; [|reflexivity].
  inversion H as [Ht]. rewrite Ht. reflexivity.
Qed.

Lemma dict_get_update_tipo k k0 f d :
  (forall v, tipo (f v) = tipo v) ->
  option_map tipo (Dict.get k0 (Dict.update k f d))
  = option_map tipo (Dict.get k0 d).
Proof.
  intros Hf. rewrite dict_get_update.
  destruct (PyStr.eqb k k0); [|reflexivity].
  destruct (Dict.get k0 d); simpl; [rewrite Hf|]; reflexivity.
Qed.

Lemma verificar_compatibilidad_tipos_update k f d destino token_valor :
  (forall v, tipo (f v) = tipo v) ->
  verificar_compatibilidad_tipos (Dict.update k f d) destino token_valor
  = verificar_compatibilidad_tipos d destino token_valor.
Proof.
  intros Hf. apply verificar_compatibilidad_tipos_tipos.
  apply dict_get_update_tipo. exact Hf.
Qed.

(** X9. After a rejected redeclaration the name is treated as a use of
    the old symbol: the next iteration of the loop marks the existing
    symbol as used and keeps its type and line; an initializer that
    follows is checked as an assignment against the old type. *)
Theorem X9_redeclaracion_cuenta_como_uso :
  forall st token_tipo token_nombre v,
    nth_error (tokens st) (posicion st) = Some token_tipo ->
    tk_tipo token_tipo = TIPO_DATO ->
    nth_error (tokens st) (S (posicion st)) = Some token_nombre ->
    tk_tipo token_nombre = IDENTIFICADOR ->
    Dict.get (tk_valor token_nombre) (tabla_simbolos st) = Some v ->
    exists st1 st2 v',
      paso st = Some st1
      /\ tabla_simbolos st1 = tabla_simbolos st
      /\ errores st1 = errores st ++ [error_ya_declarada token_nombre]
      /\ posicion st1 = S (posicion st)
      /\ paso st1 = Some st2
      /\ Dict.get (tk_valor token_nombre) (tabla_simbolos st2) = Some v'
      /\ usada v' = true
      /\ persiste v v'
      /\ (forall token_igual token_valor,
            nth_error (tokens st) (S (S (posicion st))) = Some token_igual ->
            tk_tipo token_igual = ASIGNACION ->
            nth_error (tokens st) (S (S (S (posicion st)))) = Some token_valor ->
            verificar_compatibilidad_tipos
              (tabla_simbolos st) (tipo v) token_valor = Some false ->
            errores st2
            = errores st1
              ++ [error_incompatible_asignacion
                    (tk_valor token_nombre) token_valor]).
Proof.
  intros st tt tn v Htt Ktt Htn Ktn Hv.
  assert (Hm : Dict.mem (tk_valor tn) (tabla_simbolos st) = true).
  { apply dict_mem_get. eauto. }
  set (st1 := agregar_error (avanzar st) (error_ya_declarada tn)).
  assert (H1 : paso st = Some st1).
  { unfold paso. rewrite Htt, Ktt, analizar_declaracion_eq, Htt, Htn, Ktn, Hm.
    reflexivity. }
  assert (Hp1 : paso st1 = analizar_identificador st1).
  { unfold paso. subst st1. simpl_st. rewrite Htn, Ktn. reflexivity. }
  set (d1 := Dict.update (tk_valor tn) marcar_usada (tabla_simbolos st)).
  assert (Hd1 : Dict.get (tk_valor tn) d1 = Some (marcar_usada v)).
  { subst d1. rewrite dict_get_update, str_eqb_refl, Hv. reflexivity. }
  assert (Hu : persiste v (marcar_usada v)) by (repeat split; auto).
  rewrite analizar_identificador_eq in Hp1. subst st1. simpl_st.
  rewrite Htn, Hm in Hp1. cbv zeta in Hp1. simpl_st. fold d1 in Hp1.
  destruct (nth_error (tokens st) (S (S (posicion st)))) as [teq|] eqn:Eeq.
  - destruct (TipoToken_eqb (tk_tipo teq) ASIGNACION) eqn:Keq.
    + rewrite analizar_asignacion_eq in Hp1. simpl_st.
      rewrite Hd1, ?Eeq in Hp1.
      destruct (nth_error (tokens st) (S (S (S (posicion st))))) as [tv|]
        eqn:Ev.
      * unfold d1 in Hp1 at 1.
        rewrite verificar_compatibilidad_tipos_update in Hp1 by reflexivity.
        cbn [tipo marcar_usada] in Hp1.
        destruct (verificar_compatibilidad_tipos_total
                    (tabla_simbolos st) (tipo v) tv) as [[|] Hb];
          rewrite Hb in Hp1.
        -- eexists _, _, (marcar_inicializada (marcar_usada v)).
           split; [exact H1|]. repeat split; try exact Hp1; simpl_st; auto.
           ++ rewrite dict_get_update, str_eqb_refl, Hd1. reflexivity.
           ++ intros teq' tv' E1 _ E2 Hf.
              inversion E2; subst tv'. congruence.
        -- eexists _, _, (marcar_usada v).
           split; [exact H1|]. repeat split; try exact Hp1; simpl_st; auto.
           intros teq' tv' E1 _ E2 Hf. inversion E2; subst tv'. reflexivity.
      * eexists _, _, (marcar_usada v).
        split; [exact H1|]. repeat split; try exact Hp1; simpl_st; auto.
        intros teq' tv' _ _ E2 _. discriminate E2.
    + eexists _, _, (marcar_usada v).
      split; [exact H1|]. repeat split; try exact Hp1; simpl_st; auto.
      intros teq' tv' E1 K1 _ _. inversion E1; subst teq'.
      rewrite K1 in Keq. discriminate Keq.
  - eexists _, _, (marcar_usada v).
    split; [exact H1|]. repeat split; try exact Hp1; simpl_st; auto.
    intros teq' tv' E1 _ _ _. discriminate E1.
Qed.

Lemma X9_redeclaracion_cuenta_como_uso_witness :
  exists st1 st2 v',
    paso x9_estado = Some st1
    /\ errores st1
       = [error_ya_declarada (mkToken IDENTIFICADOR (lit "x") 2 6)]
    /\ paso st1 = Some st2
    /\ Dict.get (lit "x") (tabla_simbolos st2) = Some v'
    /\ usada v' = true
    /\ tipo v' = lit "int"
    /\ errores st2
       = errores st1
         ++ [error_incompatible_asignacion
               (lit "x") (mkToken NUMERO (lit "1.5") 2 10)].
Proof.
  destruct (X9_redeclaracion_cuenta_como_uso
              x9_estado
              (mkToken TIPO_DATO (lit "float") 2 0)
              (mkToken IDENTIFICADOR (lit "x") 2 6)
              (mkVariable (lit "x") (lit "int") 1 false false)
              eq_refl eq_refl eq_refl eq_refl eq_refl)
    as [st1 [st2 [v' [H1 [_ [H3 [_ [H5 [H6 [H7 [[_ [H8 _]] H9]]]]]]]]]]].
  exists st1, st2, v'.
  split; [exact H1|]. split; [exact H3|]. split; [exact H5|].
  split; [exact H6|]. split; [exact H7|]. split; [exact H8|].
  exact (H9 (mkToken ASIGNACION (lit "=") 2 8)
            (mkToken NUMERO (lit "1.5") 2 10)
            eq_refl eq_refl eq_refl eq_refl).
Defined.

Lemma dict_update_app_new {V : Type} k (f : V -> V) v d :
  Dict.mem k d = false ->
  Dict.update k f (d ++ [(k, v)]) = d ++ [(k, f v)].
Proof.
  unfold Dict.mem. induction d as [|[k' v'] d IH]; simpl.
  - rewrite str_eqb_refl. reflexivity.
  - destruct (PyStr.eqb k' k); [discriminate|].
    intros H. rewrite IH by assumption. reflexivity.
Qed.

Lemma dict_mem_false_get {V : Type} k (d : Dict.dict V) :
  Dict.mem k d = false -> Dict.get k d = None.
Proof. unfold Dict.mem. destruct (Dict.get k d); [discriminate|reflexivity]. Qed.

(** X10. A declaration initialized with its own name is accepted: for
    every type other than void, [T x = x] on a fresh name [x] adds no
    error, and the new symbol is entered as initialized and not used. *)
Theorem X10_autoinicializacion :
  forall st token_tipo token_nombre token_igual token_valor,
    nth_error (tokens st) (posicion st) = Some token_tipo ->
    nth_error (tokens st) (S (posicion st)) = Some token_nombre ->
    nth_error (tokens st) (S (S (posicion st))) = Some token_igual ->
    nth_error (tokens st) (S (S (S (posicion st)))) = Some token_valor ->
    tk_tipo token_nombre = IDENTIFICADOR ->
    tk_tipo token_igual = ASIGNACION ->
    tk_tipo token_valor = IDENTIFICADOR ->
    tk_valor token_valor = tk_valor token_nombre ->
    In (tk_valor token_tipo) tipos_con_valor ->
    Dict.mem (tk_valor token_nombre) (tabla_simbolos st) = false ->
    analizar_declaracion st
    = Some (mkEstado
              (tabla_simbolos st
               ++ [(tk_valor token_nombre,
                    mkVariable (tk_valor token_nombre) (tk_valor token_tipo)
                               (tk_linea token_nombre) true false)])
              (errores st) (advertencias st) (tokens st)
              (S (S (S (S (posicion st)))))).
Proof.
  intros st tt tn teq tv Htt Htn Heq Htv Kn Keq Kv Hval Htipo Hm.
  rewrite analizar_declaracion_eq, Htt, Htn, Kn, Hm, Heq, Keq.
  cbn [negb TipoToken_eqb]. cbv zeta.
  rewrite dict_set_new by exact Hm.
  rewrite analizar_inicializacion_eq. simpl_st. rewrite Htv.
  assert (Hc : verificar_compatibilidad_tipos
                 (tabla_simbolos st ++ [(tk_valor tn, nueva_variable tt tn)])
                 (tipo (nueva_variable tt tn)) tv = Some true).
  { unfold verificar_compatibilidad_tipos, Dict.mem.
    rewrite Kv, Hval, dict_get_app_new, (dict_mem_false_get _ _ Hm).
    cbn [tipo nueva_variable].
    unfold tipos_con_valor in Htipo. cbn [In] in Htipo.
    repeat (destruct Htipo as [<-|Htipo]; [reflexivity|]).
    destruct Htipo. }
  rewrite Hc. cbn [nombre nueva_variable].
  rewrite dict_update_app_new by exact Hm. reflexivity.
Qed.

Lemma X10_autoinicializacion_witness :
  In (lit "char") tipos_con_valor
  /\ Dict.mem (lit "c") (tabla_simbolos x10_estado) = false
  /\ analizar_declaracion x10_estado
     = Some (mkEstado
               [(lit "c", mkVariable (lit "c") (lit "char") 1 true false)]
               [] [] (tokens x10_estado) 4).
Proof.
  assert (Hin : In (lit "char") tipos_con_valor).
  { do 4 right. left. reflexivity. }
  split; [exact Hin|]. split; [reflexivity|].
  exact (X10_autoinicializacion
           x10_estado
           (mkToken TIPO_DATO (lit "char") 1 0)
           (mkToken IDENTIFICADOR (lit "c") 1 5)
           (mkToken ASIGNACION (lit "=") 1 7)
           (mkToken IDENTIFICADOR (lit "c") 1 9)
           eq_refl eq_refl eq_refl eq_refl eq_refl eq_refl eq_refl eq_refl
           Hin eq_refl).
Defined.

(** X11. When the text ends right after an [=]: a declaration [T x =]
    still enters [x], not initialized, and adds the error
    "Inicializacion incompleta" at the line of the name; an assignment
    [x =] to a declared [x] marks [x] as used and adds the error
    "Asignacion incompleta" at the line of the [=].  In both cases the
    cursor ends at the end of the tokens. *)
Theorem X11_fin_tras_el_igual :
  forall st token_inicio token_igual,
    nth_error (tokens st) (posicion st) = Some token_inicio ->
    (forall token_nombre,
       tk_tipo token_inicio = TIPO_DATO ->
       nth_error (tokens st) (S (posicion st)) = Some token_nombre ->
       tk_tipo token_nombre = IDENTIFICADOR ->
       Dict.mem (tk_valor token_nombre) (tabla_simbolos st) = false ->
       nth_error (tokens st) (S (S (posicion st))) = Some token_igual ->
       tk_tipo token_igual = ASIGNACION ->
       nth_error (tokens st) (S (S (S (posicion st)))) = None ->
       paso st
       = Some (mkEstado
                 (tabla_simbolos st
                  ++ [(tk_valor token_nombre,
                       nueva_variable token_inicio token_nombre)])
                 (errores st
                  ++ [error_en (msg_inicializacion_incompleta
                                  (tk_valor token_nombre)
                                  (tk_linea token_nombre))
                               (tk_linea token_nombre)])
                 (advertencias st) (tokens st)
                 (S (S (S (posicion st))))))
    /\ (tk_tipo token_inicio = IDENTIFICADOR ->
        Dict.mem (tk_valor token_inicio) (tabla_simbolos st) = true ->
        nth_error (tokens st) (S (posicion st)) = Some token_igual ->
        tk_tipo token_igual = ASIGNACION ->
        nth_error (tokens st) (S (S (posicion st))) = None ->
        paso st
        = Some (mkEstado
                  (Dict.update (tk_valor token_inicio) marcar_usada
                               (tabla_simbolos st))
                  (errores st
                   ++ [error_en (msg_asignacion_incompleta
                                   (tk_valor token_inicio))
                                (tk_linea token_igual)])
                  (advertencias st) (tokens st)
                  (S (S (posicion st))))).
Proof.
  intros st ti teq Hti. split.
  - intros tn Ki Htn Kn Hm Heq Keq Hfin.
    unfold paso. rewrite Hti, Ki.
    rewrite analizar_declaracion_eq, Hti, Htn, Kn, Hm, Heq, Keq.
    cbn [negb TipoToken_eqb]. cbv zeta.
    rewrite dict_set_new by exact Hm.
    rewrite analizar_inicializacion_eq. simpl_st. rewrite Hfin.
    reflexivity.
  - intros Ki Hm Heq Keq Hfin.
    unfold paso. rewrite Hti, Ki.
    rewrite analizar_identificador_eq, Hti, Hm, Heq, Keq. cbv zeta.
    rewrite analizar_asignacion_eq. simpl_st. rewrite Hfin, Heq.
    reflexivity.
Qed.

Lemma X11_fin_tras_el_igual_witness :
  (exists st',
     paso x11_estado = Some st'
     /\ Dict.get (lit "y") (tabla_simbolos st')
        = Some (mkVariable (lit "y") (lit "int") 2 false false)
     /\ map e_linea (errores st') = [2]
     /\ posicion st' = length (tokens st'))
  /\ (exists st',
        paso x11_estado_asignacion = Some st'
        /\ Dict.get (lit "x") (tabla_simbolos st')
           = Some (mkVariable (lit "x") (lit "int") 1 false true)
        /\ map e_linea (errores st') = [3]
        /\ posicion st' = length (tokens st')).
Proof.
  split.
  - eexists. split.
    + exact (proj1 (X11_fin_tras_el_igual
                      x11_estado (mkToken TIPO_DATO (lit "int") 2 0)
                      (mkToken ASIGNACION (lit "=") 3 0) eq_refl)
               (mkToken IDENTIFICADOR (lit "y") 2 4)
               eq_refl eq_refl eq_refl eq_refl eq_refl eq_refl eq_refl).
    + repeat split.
  - eexists. split.
    + exact (proj2 (X11_fin_tras_el_igual
                      x11_estado_asignacion
                      (mkToken IDENTIFICADOR (lit "x") 2 0)
                      (mkToken ASIGNACION (lit "=") 3 0) eq_refl)
               eq_refl eq_refl eq_refl eq_refl eq_refl).
    + repeat split.
Defined.

(** X12. The compatibility check looks at the type of the symbol that the
    value token names and at nothing else in the table: two tables that
    give that name the same type give the same answer.  So the answer
    does not depend on whether the symbol read is initialized or used:
    marking any symbol leaves every check as it was. *)
Theorem X12_compatibilidad_solo_mira_tipos :
  forall d d' destino token_valor,
    option_map tipo (Dict.get (tk_valor token_valor) d)
    = option_map tipo (Dict.get (tk_valor token_valor) d') ->
    verificar_compatibilidad_tipos d destino token_valor
    = verificar_compatibilidad_tipos d' destino token_valor
    /\ (forall k,
          verificar_compatibilidad_tipos
            (Dict.update k marcar_inicializada d) destino token_valor
          = verificar_compatibilidad_tipos d destino token_valor
          /\ verificar_compatibilidad_tipos
               (Dict.update k marcar_usada d) destino token_valor
             = verificar_compatibilidad_tipos d destino token_valor).
Proof.
  intros d d' destino token_valor H. split.
  - apply verificar_compatibilidad_tipos_tipos. exact H.
  - intros k.
    split; apply verificar_compatibilidad_tipos_update; reflexivity.
Qed.

Lemma X12_compatibilidad_solo_mira_tipos_witness :
  verificar_compatibilidad_tipos
    [(lit "z", mkVariable (lit "z") (lit "int") 1 false false)]
    (lit "int") (mkToken IDENTIFICADOR (lit "z") 1 15)
  = verificar_compatibilidad_tipos
      [(lit "a", mkVariable (lit "a") (lit "bool") 1 true true);
       (lit "z", mkVariable (lit "z") (lit "int") 7 true true)]
      (lit "int") (mkToken IDENTIFICADOR (lit "z") 1 15).
Proof.
  exact (proj1 (X12_compatibilidad_solo_mira_tipos
                  [(lit "z", mkVariable (lit "z") (lit "int") 1 false false)]
                  [(lit "a", mkVariable (lit "a") (lit "bool") 1 true true);
                   (lit "z", mkVariable (lit "z") (lit "int") 7 true true)]
                  (lit "int") (mkToken IDENTIFICADOR (lit "z") 1 15)
                  eq_refl)).
Defined.

(** ** Diagnostics come out in line order *)

Lemma lineas_de_tabla_update k f d :
  (forall v, linea_declaracion (f v) = linea_declaracion v) ->
  lineas_de_tabla (Dict.update k f d) = lineas_de_tabla d.
Proof.
  intros Hf. unfold lineas_de_tabla, Dict.values.
  induction d as [|[k' v'] d IH]; simpl; [reflexivity|].
  destruct (PyStr.eqb k' k); simpl; [rewrite Hf | rewrite IH]; reflexivity.
Qed.

Ltac linea_ok :=
  match goal with
  | H : nth_error (tokens ?st) ?i = Some ?t |- linea_entre _ _ _ _ =>
      exists i, t; split; [simpl_st; lia|]; split; [exact H | reflexivity]
  end.

Ltac resolver_lineas :=
  let H := fresh "H" in
  intros H; inversion H; subst; clear H; split; simpl_st;
  rewrite ?lineas_de_tabla_update by reflexivity;
  first
    [ left; reflexivity
    | right; eexists; split;
      [ first [ rewrite map_app; reflexivity
              | unfold lineas_de_tabla, Dict.values; rewrite !map_app;
                reflexivity ]
      | linea_ok ] ].

Lemma paso_lineas st st' :
  paso st = Some st' ->
  agrega_linea st st' (map e_linea (errores st)) (map e_linea (errores st'))
  /\ agrega_linea st st' (lineas_de_tabla (tabla_simbolos st))
                  (lineas_de_tabla (tabla_simbolos st')).
Proof.
  unfold paso, agrega_linea.
  destruct (nth_error (tokens st) (posicion st)) as [ta|] eqn:Ea;
    [|discriminate].
  destruct (tk_tipo ta); try resolver_lineas.
  - (* TIPO_DATO *)
    rewrite analizar_declaracion_eq, Ea.
    destruct (nth_error (tokens st) (S (posicion st))) as [tn|] eqn:En;
      [|resolver_lineas].
    destruct (negb _); [resolver_lineas|].
    destruct (Dict.mem _ _) eqn:Em; [resolver_lineas|].
    cbv zeta. rewrite dict_set_new by exact Em.
    destruct (nth_error (tokens st) (S (S (posicion st)))) as [t|] eqn:E2;
      [|resolver_lineas].
    destruct (TipoToken_eqb (tk_tipo t) ASIGNACION); [|resolver_lineas].
    rewrite analizar_inicializacion_eq. simpl_st.
    destruct (nth_error (tokens st) (S (S (S (posicion st))))) as [tv|] eqn:E3;
      [|resolver_lineas].
    destruct (verificar_compatibilidad_tipos _ _ _) as [[|]|];
      [resolver_lineas | resolver_lineas | discriminate].
  - (* IDENTIFICADOR *)
    rewrite analizar_identificador_eq, Ea.
    destruct (Dict.mem _ _); [|resolver_lineas].
    cbv zeta.
    destruct (nth_error (tokens st) (S (posicion st))) as [t|] eqn:E1;
      [|resolver_lineas].
    destruct (TipoToken_eqb (tk_tipo t) ASIGNACION); [|resolver_lineas].
    rewrite analizar_asignacion_eq. simpl_st. rewrite E1.
    destruct (nth_error (tokens st) (S (S (posicion st)))) as [tv|] eqn:E2;
      [|resolver_lineas].
    destruct (Dict.get _ _); [|discriminate].
    destruct (verificar_compatibilidad_tipos _ _ _) as [[|]|];
      [resolver_lineas | resolver_lineas | discriminate].
  - (* PALABRA_CLAVE *)
    unfold analizar_palabra_clave. rewrite Ea.
    destruct (in_list _ _); [|resolver_lineas].
    unfold analizar_estructura_control. destruct (negb _); resolver_lineas.
Qed.

Lemma StronglySorted_nth {A : Type} (R : A -> A -> Prop) l :
  StronglySorted R l ->
  forall i j a b,
    i < j -> nth_error l i = Some a -> nth_error l j = Some b -> R a b.
Proof.
  induction 1 as [|x l HS IH HF]; intros i j a b Hij Hi Hj.
  - destruct i; discriminate.
  - destruct j as [|j]; [lia|]. simpl in Hj.
    destruct i as [|i]; simpl in Hi.
    + inversion Hi; subst. rewrite Forall_forall in HF. apply HF.
      eapply nth_error_In; eassumption.
    + eapply IH; [|eassumption|eassumption]. lia.
Qed.

Lemma precede_lineas_crecientes ts :
  StronglySorted precede ts -> lineas_crecientes ts.
Proof.
  intros HS i j ti tj Hij Hi Hj.
  destruct (Nat.eq_dec i j) as [->|Hne].
  - assert (ti = tj) by congruence. subst. lia.
  - assert (Hp : precede ti tj).
    { eapply StronglySorted_nth; [exact HS| |exact Hi|exact Hj]. lia. }
    destruct Hp as [H|[H _]]; lia.
Qed.

Lemma ordenadas_agrega ts pos pos' L L' :
  lineas_crecientes ts ->
  ordenadas ts pos L ->
  pos <= pos' ->
  (L' = L \/ exists l, L' = L ++ [l] /\ linea_entre ts pos pos' l) ->
  ordenadas ts pos' L'.
Proof.
  intros Hc [HS HF] Hp HL.
  assert (HF' : Forall (linea_entre ts 0 pos') L).
  { eapply Forall_impl; [|exact HF].
    intros l [i [t [Hi Ht]]]. exists i, t. split; [lia | exact Ht]. }
  destruct HL as [->|[l [-> Hl]]]; [split; assumption|].
  split.
  - apply StronglySorted_app; [assumption | repeat constructor|].
    intros a b Ha [<-|[]]. rewrite Forall_forall in HF.
    destruct (HF _ Ha) as [i [ti [Hi [Eti ->]]]].
    destruct Hl as [j [tj [Hj [Etj ->]]]].
    eapply Hc; [|exact Eti|exact Etj]. lia.
  - apply Forall_app. split; [assumption|]. constructor; [|constructor].
    destruct Hl as [j [tj [Hj Etj]]]. exists j, tj. split; [lia|exact Etj].
Qed.

Lemma analizar_tokens_ordenadas ts st1 :
  lineas_crecientes ts ->
  analizar_tokens (mkEstado [] [] [] ts 0) = Some st1 ->
  ordenadas ts (posicion st1) (map e_linea (errores st1))
  /\ ordenadas ts (posicion st1) (lineas_de_tabla (tabla_simbolos st1)).
Proof.
  intros Hc H. unfold analizar_tokens in H.
  refine (proj2 (analizar_tokens_fuel_inv
                   (fun s =>
                      tokens s = ts
                      /\ ordenadas ts (posicion s) (map e_linea (errores s))
                      /\ ordenadas ts (posicion s)
                                   (lineas_de_tabla (tabla_simbolos s)))
                   _ _ _ _ _ H)).
  - intros s s' Hs [T [O1 O2]] Hp.
    destruct (paso_sigue s Hs) as [s2 [H2 [T2 P2 _ _ _]]].
    assert (s2 = s') by congruence. subst s2.
    destruct (paso_lineas _ _ Hp) as [A1 A2].
    unfold agrega_linea in A1, A2. rewrite T in A1, A2.
    split; [congruence|].
    split;
      [ exact (ordenadas_agrega _ _ _ _ _ Hc O1 (Nat.lt_le_incl _ _ P2) A1)
      | exact (ordenadas_agrega _ _ _ _ _ Hc O2 (Nat.lt_le_incl _ _ P2) A2) ].
  - split; [reflexivity|]. split; split; constructor.
Qed.

Lemma StronglySorted_map_filter {A : Type} (f : A -> nat) (c : A -> bool) l :
  StronglySorted le (map f l) -> StronglySorted le (map f (filter c l)).
Proof.
  induction l as [|x l IH]; simpl; [auto|].
  intros H. inversion H as [|? ? HS HF]; subst.
  destruct (c x); simpl; [|auto].
  constructor; [auto|].
  rewrite Forall_forall in *. intros y Hy. apply HF.
  apply in_map_iff in Hy. destruct Hy as [z [<- Hz]].
  apply filter_In in Hz. apply in_map. tauto.
Qed.

Lemma analizar_ordenado U st codigo :
  exists r,
    analizar U st codigo = Some r
    /\ StronglySorted le (map e_linea (errores r))
    /\ StronglySorted le (lineas_de_tabla (tabla_simbolos r))
    /\ advertencias r
       = advertencias_no_usadas (tabla_simbolos r)
         ++ advertencias_sin_inicializar (tabla_simbolos r).
Proof.
  destruct (analizar_cases U st codigo)
    as [ts [Ht [[-> R]|[Hne [st1 [H1 R]]]]]].
  - exists estado_sin_tokens. split; [exact R|].
    repeat split; simpl; repeat constructor.
  - exists (estado_final st1). split; [exact R|].
    pose proof (precede_lineas_crecientes _
                  (proj1 (tokenizar_lineas_sorted _ _ _ _ Ht))) as Hc.
    destruct (analizar_tokens_ordenadas _ _ Hc H1) as [[S1 _] [S2 _]].
    unfold estado_final. simpl_st. auto.
Qed.

(** X13. The errors of a run are listed in line order: the line numbers
    of the error list never decrease. *)
Theorem X13_errores_en_orden_de_linea :
  forall U st codigo,
    exists r,
      analizar U st codigo = Some r
      /\ StronglySorted le (map e_linea (errores r)).
Proof.
  intros U st codigo.
  destruct (analizar_ordenado U st codigo) as [r [R [S1 _]]].
  exists r. auto.
Qed.

(** X14. The symbols of the table are in the order of their declaration
    lines, and so is each of the two groups of warnings: the warnings of
    a run are the "no usada" ones in line order followed by the "sin
    inicializar" ones in line order, each at the declaration line of its
    symbol. *)
Theorem X14_simbolos_y_advertencias_en_orden :
  forall U st codigo,
    exists r,
      analizar U st codigo = Some r
      /\ StronglySorted le (lineas_de_tabla (tabla_simbolos r))
      /\ advertencias r
         = advertencias_no_usadas (tabla_simbolos r)
           ++ advertencias_sin_inicializar (tabla_simbolos r)
      /\ StronglySorted le
           (map e_linea (advertencias_no_usadas (tabla_simbolos r)))
      /\ StronglySorted le
           (map e_linea (advertencias_sin_inicializar (tabla_simbolos r))).
Proof.
  intros U st codigo.
  destruct (analizar_ordenado U st codigo) as [r [R [_ [S2 A]]]].
  exists r. split; [exact R|]. split; [exact S2|]. split; [exact A|].
  unfold advertencias_no_usadas, advertencias_sin_inicializar.
  rewrite !map_map. cbn [e_linea advertencia_en].
  split; apply StronglySorted_map_filter; exact S2.
Qed.

(* ================================================================== *)
(** * The report: properties *)

Lemma split_nl_join l :
  l <> [] -> split_nl (join_nl l) = concat (map split_nl l).
Proof.
  induction l as [|x l IH]; [congruence|]. intros _.
  destruct l as [|y l].
  - simpl. rewrite app_nil_r. reflexivity.
  - change (join_nl (x :: y :: l)) with (x ++ 10%N :: join_nl (y :: l)).
    rewrite split_nl_app, IH by discriminate. reflexivity.
Qed.

Lemma split_nl_sin_salto s : sin_salto s = true -> split_nl s = [s].
Proof.
  induction s as [|c s IH]; simpl; [reflexivity|].
  intros H. apply andb_true_iff in H. destruct H as [Hc Hs].
  destruct (N.eqb c 10%N); [discriminate|].
  rewrite (IH Hs). reflexivity.
Qed.

Lemma split_nl_cabecera s :
  sin_salto s = true -> split_nl (10%N :: s) = [[]; s].
Proof. intros H. simpl. rewrite (split_nl_sin_salto _ H). reflexivity. Qed.

Lemma concat_split_filas l :
  Forall (fun x => sin_salto x = true) l -> concat (map split_nl l) = l.
Proof.
  induction 1 as [|x l Hx _ IH]; simpl; [reflexivity|].
  rewrite (split_nl_sin_salto _ Hx), IH. reflexivity.
Qed.

Lemma sin_salto_app a b : sin_salto (a ++ b) = sin_salto a && sin_salto b.
Proof. apply forallb_app. Qed.

Lemma sin_salto_incl a b :
  (forall c, In c a -> In c b) -> sin_salto b = true -> sin_salto a = true.
Proof.
  unfold sin_salto. rewrite !forallb_forall. intros H Hb c Hc. auto.
Qed.

Lemma sin_salto_digits u : sin_salto (digits u) = true.
Proof. induction u; simpl; auto. Qed.

Lemma sin_salto_of_nat n : sin_salto (of_nat n) = true.
Proof. apply sin_salto_digits. Qed.

Lemma sin_salto_repeat c n :
  N.eqb c 10%N = false -> sin_salto (repeat c n) = true.
Proof. intros H. induction n; simpl; [reflexivity|]. rewrite H. exact IHn. Qed.

Lemma sin_salto_ljust n s : sin_salto s = true -> sin_salto (ljust n s) = true.
Proof.
  intros H. unfold ljust. rewrite sin_salto_app, H.
  apply sin_salto_repeat. reflexivity.
Qed.

Ltac sin_salto_tac :=
  repeat (rewrite sin_salto_app; apply andb_true_intro; split);
  first [ reflexivity
        | assumption
        | apply sin_salto_of_nat
        | apply sin_salto_ljust; assumption
        | apply sin_salto_ljust; apply sin_salto_of_nat ].

Lemma sin_salto_fila kv :
  sin_salto (fst kv) = true -> sin_salto (tipo (snd kv)) = true ->
  sin_salto (fila_simbolo kv) = true.
Proof.
  intros H1 H2. unfold fila_simbolo. cbv zeta.
  destruct (inicializada (snd kv)), (usada (snd kv)); sin_salto_tac.
Qed.

Lemma sin_salto_diagnostico e :
  sin_salto (mensaje e) = true -> sin_salto (linea_diagnostico e) = true.
Proof. intros H. unfold linea_diagnostico. sin_salto_tac. Qed.

Lemma reporte_ultimo st :
  exists A,
    reporte st
    = A ++ [10%N :: match errores st with
                    | [] => rep_exito
                    | _ :: _ => rep_con_errores
                    end].
Proof.
  unfold reporte. eexists. rewrite !app_assoc.
  f_equal. destruct (errores st); reflexivity.
Qed.

(** X15. The last line of the report tells whether the run found errors:
    it is the line "ANALISIS COMPLETADO EXITOSAMENTE" exactly when the
    error list is empty, and the line "ANALISIS COMPLETADO CON ERRORES"
    otherwise, whatever the symbols and the messages are. *)
Theorem X15_ultima_linea_del_reporte :
  forall st,
    (exists antes,
       split_nl (generar_reporte st)
       = antes
         ++ [match errores st with
             | [] => rep_exito
             | _ :: _ => rep_con_errores
             end])
    /\ (last (split_nl (generar_reporte st)) [] = rep_exito
        <-> errores st = [])
    /\ (last (split_nl (generar_reporte st)) [] = rep_con_errores
        <-> errores st <> []).
Proof.
  intros st.
  assert (H : exists antes,
             split_nl (generar_reporte st)
             = antes
               ++ [match errores st with
                   | [] => rep_exito
                   | _ :: _ => rep_con_errores
                   end]).
  { unfold generar_reporte.
    rewrite split_nl_join by (unfold reporte; discriminate).
    destruct (reporte_ultimo st) as [A ->].
    rewrite map_app, concat_app. cbn [map concat]. rewrite app_nil_r.
    rewrite split_nl_cabecera by (destruct (errores st); reflexivity).
    exists (concat (map split_nl A) ++ [[]]).
    rewrite <- app_assoc. reflexivity. }
  split; [exact H|]. destruct H as [antes ->]. rewrite !last_last.
  destruct (errores st); split; split; intros H;
    try reflexivity; try discriminate; congruence.
Qed.

(** ** No diagnostic and no symbol holds a newline *)

Lemma split_nl_lineas s : Forall (fun l => sin_salto l = true) (split_nl s).
Proof.
  induction s as [|c s IH]; simpl; [repeat constructor|].
  destruct (N.eqb c 10%N) eqn:E; [constructor; [reflexivity | exact IH]|].
  destruct (split_nl s) as [|l ls]; [repeat constructor; simpl; rewrite E; reflexivity|].
  inversion IH; subst. constructor; [|assumption].
  simpl. rewrite E. assumption.
Qed.

Lemma In_dropwhile p s c : In c (dropwhile p s) -> In c s.
Proof.
  induction s as [|x s IH]; simpl; [tauto|].
  destruct (p x); [auto | simpl; tauto].
Qed.

Lemma In_firstn_l {A : Type} n (l : list A) x : In x (firstn n l) -> In x l.
Proof.
  revert l. induction n as [|n IH]; intros [|y l]; simpl; try tauto.
  intros [H|H]; auto.
Qed.

Lemma In_skipn_l {A : Type} n (l : list A) x : In x (skipn n l) -> In x l.
Proof.
  revert l. induction n as [|n IH]; intros [|y l]; simpl; try tauto.
  intros H; auto.
Qed.

Lemma sin_salto_strip U s : sin_salto s = true -> sin_salto (strip U s) = true.
Proof.
  apply sin_salto_incl. unfold strip. intros c Hc.
  apply in_rev in Hc. apply In_dropwhile in Hc. apply in_rev in Hc.
  apply In_dropwhile in Hc. exact Hc.
Qed.

Lemma sin_salto_slice s i j : sin_salto s = true -> sin_salto (slice s i j) = true.
Proof.
  apply sin_salto_incl. unfold slice. intros c Hc.
  apply In_firstn_l in Hc. apply In_skipn_l in Hc. exact Hc.
Qed.

Lemma tokenizar_sin_salto U codigo ts :
  tokenizar U codigo = Some ts ->
  Forall (fun t => sin_salto (tk_valor t) = true) ts.
Proof.
  intros H. apply Forall_forall. intros t Ht. unfold tokenizar in H.
  destruct (tokenizar_lineas_In _ _ _ _ _ H Ht)
    as [l0 [m [Hl [_ [_ [_ [R2 _]]]]]]].
  rewrite R2. apply sin_salto_slice, sin_salto_strip.
  pose proof (split_nl_lineas codigo) as Hs. rewrite Forall_forall in Hs.
  apply Hs. exact Hl.
Qed.

Ltac msg_tac :=
  intros;
  unfold msg_declaracion_incompleta, msg_se_esperaba_identificador,
    msg_ya_declarada, msg_inicializacion_incompleta,
    msg_incompatible_inicializacion, msg_no_declarada,
    msg_asignacion_incompleta, msg_incompatible_asignacion,
    msg_se_esperaba_parentesis, msg_no_usada, msg_sin_inicializar, en_linea;
  sin_salto_tac.

Lemma sin_salto_msg_declaracion_incompleta n :
  sin_salto (msg_declaracion_incompleta n) = true.
Proof. msg_tac. Qed.

Lemma sin_salto_msg_se_esperaba_identificador v n :
  sin_salto v = true -> sin_salto (msg_se_esperaba_identificador v n) = true.
Proof. msg_tac. Qed.

Lemma sin_salto_msg_ya_declarada v n :
  sin_salto v = true -> sin_salto (msg_ya_declarada v n) = true.
Proof. msg_tac. Qed.

Lemma sin_salto_msg_inicializacion_incompleta v n :
  sin_salto v = true -> sin_salto (msg_inicializacion_incompleta v n) = true.
Proof. msg_tac. Qed.

Lemma sin_salto_msg_incompatible_inicializacion v n :
  sin_salto v = true -> sin_salto (msg_incompatible_inicializacion v n) = true.
Proof. msg_tac. Qed.

Lemma sin_salto_msg_no_declarada v n :
  sin_salto v = true -> sin_salto (msg_no_declarada v n) = true.
Proof. msg_tac. Qed.

Lemma sin_salto_msg_asignacion_incompleta v :
  sin_salto v = true -> sin_salto (msg_asignacion_incompleta v) = true.
Proof. msg_tac. Qed.

Lemma sin_salto_msg_incompatible_asignacion v n :
  sin_salto v = true -> sin_salto (msg_incompatible_asignacion v n) = true.
Proof. msg_tac. Qed.

Lemma sin_salto_msg_se_esperaba_parentesis v n :
  sin_salto v = true -> sin_salto (msg_se_esperaba_parentesis v n) = true.
Proof. msg_tac. Qed.

Lemma sin_salto_msg_no_usada v :
  sin_salto v = true -> sin_salto (msg_no_usada v) = true.
Proof. msg_tac. Qed.

Lemma sin_salto_msg_sin_inicializar v :
  sin_salto v = true -> sin_salto (msg_sin_inicializar v) = true.
Proof. msg_tac. Qed.

Create HintDb salto.
#[local] Hint Resolve sin_salto_msg_declaracion_incompleta
  sin_salto_msg_se_esperaba_identificador sin_salto_msg_ya_declarada
  sin_salto_msg_inicializacion_incompleta
  sin_salto_msg_incompatible_inicializacion sin_salto_msg_no_declarada
  sin_salto_msg_asignacion_incompleta sin_salto_msg_incompatible_asignacion
  sin_salto_msg_se_esperaba_parentesis sin_salto_msg_no_usada
  sin_salto_msg_sin_inicializar : salto.

Ltac valores_sin_salto Hts :=
  repeat match goal with
         | H : nth_error (tokens ?st) _ = Some ?t |- _ =>
             lazymatch goal with
             | _ : sin_salto (tk_valor t) = true |- _ => fail
             | _ =>
                 let V := fresh "Hv" in
                 assert (V : sin_salto (tk_valor t) = true)
                   by (exact (proj1 (Forall_forall _ _) Hts t
                                (nth_error_In _ _ H)))
             end
         end.

Ltac resolver_mensajes Hts :=
  let H := fresh "H" in
  intros H; inversion H; subst; clear H; simpl_st;
  first
    [ assumption
    | valores_sin_salto Hts;
      apply Forall_app; split; [assumption|];
      constructor; [|constructor];
      cbn [mensaje error_en error_incompatible_inicializacion
           error_incompatible_asignacion nombre nueva_variable
           linea_declaracion];
      auto with salto ].

Lemma paso_mensajes st st' :
  Forall (fun t => sin_salto (tk_valor t) = true) (tokens st) ->
  paso st = Some st' ->
  mensajes_sin_salto (errores st) -> mensajes_sin_salto (errores st').
Proof.
  intros Hts Hp He. revert Hp. unfold paso, mensajes_sin_salto in *.
  destruct (nth_error (tokens st) (posicion st)) as [ta|] eqn:Ea;
    [|discriminate].
  destruct (tk_tipo ta); try resolver_mensajes Hts.
  - (* TIPO_DATO *)
    rewrite analizar_declaracion_eq, Ea.
    destruct (nth_error (tokens st) (S (posicion st))) as [tn|] eqn:En;
      [|resolver_mensajes Hts].
    destruct (negb _); [resolver_mensajes Hts|].
    destruct (Dict.mem _ _) eqn:Em; [resolver_mensajes Hts|].
    cbv zeta. rewrite dict_set_new by exact Em.
    destruct (nth_error (tokens st) (S (S (posicion st)))) as [t|] eqn:E2;
      [|resolver_mensajes Hts].
    destruct (TipoToken_eqb (tk_tipo t) ASIGNACION); [|resolver_mensajes Hts].
    rewrite analizar_inicializacion_eq. simpl_st.
    destruct (nth_error (tokens st) (S (S (S (posicion st))))) as [tv|] eqn:E3;
      [|resolver_mensajes Hts].
    destruct (verificar_compatibilidad_tipos _ _ _) as [[|]|];
      [resolver_mensajes Hts | resolver_mensajes Hts | discriminate].
  - (* IDENTIFICADOR *)
    rewrite analizar_identificador_eq, Ea.
    destruct (Dict.mem _ _); [|resolver_mensajes Hts].
    cbv zeta.
    destruct (nth_error (tokens st) (S (posicion st))) as [t|] eqn:E1;
      [|resolver_mensajes Hts].
    destruct (TipoToken_eqb (tk_tipo t) ASIGNACION); [|resolver_mensajes Hts].
    rewrite analizar_asignacion_eq. simpl_st. rewrite E1.
    destruct (nth_error (tokens st) (S (S (posicion st)))) as [tv|] eqn:E2;
      [|resolver_mensajes Hts].
    destruct (Dict.get _ _); [|discriminate].
    destruct (verificar_compatibilidad_tipos _ _ _) as [[|]|];
      [resolver_mensajes Hts | resolver_mensajes Hts | discriminate].
  - (* PALABRA_CLAVE *)
    unfold analizar_palabra_clave. rewrite Ea.
    destruct (in_list _ _); [|resolver_mensajes Hts].
    unfold analizar_estructura_control.
    destruct (negb _); resolver_mensajes Hts.
Qed.

Lemma analizar_sin_saltos U st codigo :
  exists r,
    analizar U st codigo = Some r
    /\ mensajes_sin_salto (errores r)
    /\ mensajes_sin_salto (advertencias r)
    /\ Forall (fun kv => sin_salto (fst kv) = true
                         /\ sin_salto (tipo (snd kv)) = true)
              (tabla_simbolos r).
Proof.
  destruct (analizar_cases U st codigo)
    as [ts [Ht [[-> R]|[Hne [st1 [H1 R]]]]]].
  - exists estado_sin_tokens. split; [exact R|].
    repeat split; repeat constructor.
  - exists (estado_final st1). split; [exact R|].
    pose proof (tokenizar_sin_salto _ _ _ Ht) as Hts.
    assert (He : tokens st1 = ts /\ mensajes_sin_salto (errores st1)).
    { unfold analizar_tokens in H1.
      refine (analizar_tokens_fuel_inv
                (fun s => tokens s = ts /\ mensajes_sin_salto (errores s))
                _ _ _ _ _ H1).
      - intros s s' Hs [T E] Hp.
        destruct (paso_sigue s Hs) as [s2 [H2 [T2 _ _ _ _]]].
        assert (s2 = s') by congruence. subst s2.
        split; [congruence|]. eapply paso_mensajes; try eassumption.
        rewrite T. exact Hts.
      - split; [reflexivity | constructor]. }
    destruct He as [T He].
    destruct (analizar_tokens_termina (mkEstado [] [] [] ts 0))
      as [st1' [H1' [[_ _ C _ _] _]]].
    assert (st1' = st1) by congruence. subst st1'. simpl_st.
    pose proof (cambio_bien_formada _ _ C tabla_vacia_bien_formada)
      as [_ Hn].
    pose proof (analizar_tokens_procede _ _ H1) as Hp.
    assert (Htab : Forall (fun kv => sin_salto (fst kv) = true
                                     /\ sin_salto (tipo (snd kv)) = true)
                          (tabla_simbolos st1)).
    { rewrite Forall_forall in *. intros [k v] Hkv.
      pose proof (Hn _ Hkv) as Hk. simpl in Hk.
      assert (Hv : In v (Dict.values (tabla_simbolos st1))).
      { unfold Dict.values. change v with (snd (k, v)). apply in_map.
        exact Hkv. }
      destruct (Hp _ Hv) as [i [tt [tn [Ei [_ [En [_ [Hnom [Htip _]]]]]]]]].
      apply nth_error_In in Ei, En. simpl.
      rewrite <- Hk, Hnom, Htip. split; apply Hts; assumption. }
    unfold estado_final. simpl_st.
    split; [exact He|]. split; [|exact Htab].
    assert (Hnom : forall v, In v (Dict.values (tabla_simbolos st1)) ->
                             sin_salto (nombre v) = true).
    { intros v Hv. unfold Dict.values in Hv. apply in_map_iff in Hv.
      destruct Hv as [[k v'] [<- Hkv]].
      rewrite Forall_forall in Hn, Htab.
      pose proof (Hn _ Hkv) as Hk. simpl in *. rewrite Hk.
      exact (proj1 (Htab _ Hkv)). }
    unfold mensajes_sin_salto, advertencias_no_usadas,
      advertencias_sin_inicializar.
    apply Forall_app. split; apply Forall_forall; intros e Hin;
      apply in_map_iff in Hin; destruct Hin as [v [<- Hv]];
      apply filter_In in Hv; destruct Hv as [Hv _];
      cbn [mensaje advertencia_en]; auto with salto.
Qed.

Lemma seccion_split {A : Type} (l : list A) (f : A -> str) titulo :
  sin_salto titulo = true ->
  Forall (fun x => sin_salto (f x) = true) l ->
  concat (map split_nl
            match l with
            | [] => []
            | _ :: _ => [10%N :: titulo; veces 30 45%N] ++ map f l
            end)
  = seccion titulo (map f l).
Proof.
  intros Ht Hl. destruct l as [|x l]; [reflexivity|].
  cbn [app map concat seccion].
  rewrite (split_nl_cabecera _ Ht).
  inversion Hl as [|? ? Hx Hl']; subst.
  rewrite (split_nl_sin_salto (f x) Hx).
  change (split_nl (veces 30 45%N)) with [veces 30 45%N].
  rewrite concat_split_filas; [reflexivity|].
  apply Forall_forall. intros y Hy. apply in_map_iff in Hy.
  destruct Hy as [z [<- Hz]]. rewrite Forall_forall in Hl'. auto.
Qed.

Lemma sin_salto_rep_errores n : sin_salto (rep_errores n) = true.
Proof. unfold rep_errores. sin_salto_tac. Qed.

Lemma sin_salto_rep_advertencias n : sin_salto (rep_advertencias n) = true.
Proof. unfold rep_advertencias. sin_salto_tac. Qed.

Lemma reporte_lineas st :
  mensajes_sin_salto (errores st) ->
  mensajes_sin_salto (advertencias st) ->
  Forall (fun kv => sin_salto (fst kv) = true
                    /\ sin_salto (tipo (snd kv)) = true)
         (tabla_simbolos st) ->
  split_nl (generar_reporte st) = lineas_de_reporte st.
Proof.
  intros He Ha Ht. unfold generar_reporte.
  rewrite split_nl_join by (unfold reporte; discriminate).
  unfold reporte, lineas_de_reporte.
  rewrite !map_app, !concat_app.
  apply (f_equal2 (@app str)); [reflexivity|].
  apply (f_equal2 (@app str)).
  { apply (seccion_split (tabla_simbolos st) fila_simbolo rep_tabla);
      [reflexivity|].
    eapply Forall_impl; [|exact Ht]. intros kv [H1 H2].
    apply sin_salto_fila; assumption. }
  apply (f_equal2 (@app str)).
  { apply (seccion_split (errores st) linea_diagnostico);
      [apply sin_salto_rep_errores|].
    eapply Forall_impl; [|exact He]. intros e.
    apply sin_salto_diagnostico. }
  apply (f_equal2 (@app str)).
  { apply (seccion_split (advertencias st) linea_diagnostico);
      [apply sin_salto_rep_advertencias|].
    eapply Forall_impl; [|exact Ha]. intros e.
    apply sin_salto_diagnostico. }
  apply (f_equal2 (@app str)).
  - cbn [map concat]. rewrite split_nl_cabecera by reflexivity.
    change (split_nl (veces 20 45%N)) with [veces 20 45%N].
    rewrite !split_nl_sin_salto by sin_salto_tac. reflexivity.
  - cbn [map concat]. rewrite app_nil_r.
    destruct (errores st); apply split_nl_cabecera; reflexivity.
Qed.

(** X16. Read line by line, the report of a run is: the title between
    two rules; when there are symbols, an empty line, the heading of the
    table, a rule and one row per symbol in table order; the same for
    the errors and for the warnings, one line "Linea n: mensaje" each, in
    list order, under a heading that gives their number; an empty line,
    the summary with the four counts; an empty line and the closing
    line.  No symbol, error or warning of a run spans two lines. *)
Theorem X16_lineas_del_reporte :
  forall U st codigo,
    exists r,
      analizar U st codigo = Some r
      /\ analizar_reporte U st codigo = Some (generar_reporte r)
      /\ split_nl (generar_reporte r) = lineas_de_reporte r.
Proof.
  intros U st codigo.
  destruct (analizar_sin_saltos U st codigo) as [r [R [He [Ha Ht]]]].
  exists r. split; [exact R|]. split.
  - unfold analizar_reporte. rewrite R. reflexivity.
  - apply reporte_lineas; assumption.
Qed.

(** ** The interactive reader *)

Lemma ultima_vacia_snoc l x : ultima_vacia (l ++ [x]) = es_vacia x.
Proof.
  unfold ultima_vacia. rewrite last_last, length_app. simpl.
  rewrite Nat.add_1_r. reflexivity.
Qed.

Lemma ultima_vacia_inv l :
  ultima_vacia l = true -> exists pre, l = pre ++ [[]].
Proof.
  destruct l as [|x l] using rev_ind; [discriminate|].
  rewrite ultima_vacia_snoc. destruct x; [|discriminate].
  intros _. exists l. reflexivity.
Qed.

Lemma leer_lineas_some entrada : forall lineas ls resto,
  leer_lineas lineas entrada = Some (ls, resto) ->
  exists pre,
    ls = lineas ++ pre
    /\ entrada = pre ++ [] :: resto
    /\ ultima_vacia ls = true
    /\ sin_doble_tras (ultima_vacia lineas) pre = true.
Proof.
  induction entrada as [|linea entrada IH]; intros lineas ls resto H;
    [discriminate|].
  cbn [leer_lineas] in H.
  destruct (es_vacia linea && ultima_vacia lineas) eqn:E.
  - injection H as <- <-. apply andb_prop in E. destruct E as [E1 E2].
    destruct linea; [|discriminate].
    exists []. rewrite app_nil_r. repeat split; assumption.
  - destruct (IH _ _ _ H) as [pre [-> [-> [U1 U2]]]].
    exists (linea :: pre). rewrite <- app_assoc in U1 |- *.
    cbn [app] in U1 |- *.
    repeat split; [exact U1|].
    cbn [sin_doble_tras]. rewrite ultima_vacia_snoc in U2.
    rewrite (andb_comm (ultima_vacia lineas)), E, U2. reflexivity.
Qed.

Lemma leer_lineas_hasta pre : forall lineas resto,
  sin_doble_tras (ultima_vacia lineas) pre = true ->
  ultima_vacia (lineas ++ pre) = true ->
  leer_lineas lineas (pre ++ [] :: resto) = Some (lineas ++ pre, resto).
Proof.
  induction pre as [|a pre IH]; intros lineas resto S1 S2.
  - rewrite app_nil_r in *. cbn [app leer_lineas es_vacia].
    rewrite S2. reflexivity.
  - cbn [sin_doble_tras] in S1. apply andb_prop in S1.
    destruct S1 as [S1 S3]. cbn [app leer_lineas].
    rewrite (andb_comm (es_vacia a)). apply negb_true_iff in S1.
    rewrite S1.
    replace (lineas ++ a :: pre) with ((lineas ++ [a]) ++ pre) in *
      by (rewrite <- app_assoc; reflexivity).
    apply IH; [rewrite ultima_vacia_snoc; exact S3 | exact S2].
Qed.

Lemma leer_lineas_none entrada : forall lineas,
  leer_lineas lineas entrada = None
  <-> sin_doble_tras (ultima_vacia lineas) entrada = true.
Proof.
  induction entrada as [|linea entrada IH]; intros lineas;
    cbn [leer_lineas sin_doble_tras]; [tauto|].
  rewrite (andb_comm (ultima_vacia lineas)).
  destruct (es_vacia linea && ultima_vacia lineas).
  - split; discriminate.
  - rewrite IH, ultima_vacia_snoc. reflexivity.
Qed.

Lemma join_nl_snoc l x :
  l <> [] -> join_nl (l ++ [x]) = join_nl l ++ 10%N :: x.
Proof.
  induction l as [|a l IH]; [congruence|]. intros _.
  destruct l as [|b l]; [reflexivity|].
  change (join_nl ((a :: b :: l) ++ [x]))
    with (a ++ 10%N :: join_nl ((b :: l) ++ [x])).
  rewrite IH by discriminate.
  change (join_nl (a :: b :: l)) with (a ++ 10%N :: join_nl (b :: l)).
  rewrite <- app_assoc. reflexivity.
Qed.

Lemma tokenizar_linea_final U l :
  tokenizar U (join_nl (l ++ [[]])) = tokenizar U (join_nl l).
Proof.
  destruct l as [|a l]; [reflexivity|].
  rewrite join_nl_snoc by discriminate.
  unfold tokenizar. rewrite split_nl_app, tokenizar_lineas_app.
  destruct (tokenizar_lineas U 1 _) as [t1|]; [|reflexivity].
  change (split_nl []) with [@nil char].
  cbn. rewrite app_nil_r. reflexivity.
Qed.

(** X17. The reader of [main] stops at the first empty line that follows
    an empty line: it returns a text exactly when the input has two
    empty lines in a row, the text is then the input up to and with the
    first of the two, it holds no two empty lines in a row, and what
    follows the second is left unread.  On an input with no two empty
    lines in a row the reader runs into the end of the input. *)
Theorem X17_lectura_interactiva :
  forall entrada,
    (leer_lineas [] entrada = None <-> sin_doble entrada = true)
    /\ (forall ls resto,
          leer_lineas [] entrada = Some (ls, resto)
          <-> ((exists pre, ls = pre ++ [[]])
               /\ entrada = ls ++ [] :: resto
               /\ sin_doble ls = true)).
Proof.
  intros entrada. split; [exact (leer_lineas_none entrada [])|].
  intros ls resto. split.
  - intros H. destruct (leer_lineas_some _ _ _ _ H) as [pre [E [-> [U1 U2]]]].
    cbn [app] in E. subst pre.
    split; [exact (ultima_vacia_inv _ U1)|]. split; [reflexivity|exact U2].
  - intros [[pre ->] [-> S]].
    apply (leer_lineas_hasta (pre ++ [[]]) [] resto); [exact S|].
    cbn [app]. apply ultima_vacia_snoc.
Qed.

(** X18. The empty line that ends the text read by [main] has no effect
    on the analysis: the run on the lines read, joined by newlines, is
    the run on the lines typed before that empty line, from any state of
    the analyzer. *)
Theorem X18_linea_final_sin_efecto :
  forall U st entrada ls resto,
    leer_lineas [] entrada = Some (ls, resto) ->
    exists pre,
      ls = pre ++ [[]]
      /\ entrada = pre ++ [[]; []] ++ resto
      /\ analizar U st (join_nl ls) = analizar U st (join_nl pre)
      /\ analizar_reporte U st (join_nl ls)
         = analizar_reporte U st (join_nl pre).
Proof.
  intros U st entrada ls resto H.
  destruct (leer_lineas_some _ _ _ _ H) as [pre0 [E [-> [U1 _]]]].
  cbn [app] in E. subst pre0.
  destruct (ultima_vacia_inv _ U1) as [pre ->].
  exists pre. split; [reflexivity|].
  split; [rewrite <- app_assoc; reflexivity|].
  assert (A : analizar U st (join_nl (pre ++ [[]]))
              = analizar U st (join_nl pre)).
  { unfold analizar. rewrite tokenizar_linea_final. reflexivity. }
  split; [exact A|]. unfold analizar_reporte. rewrite A. reflexivity.
Qed.

Lemma X18_linea_final_sin_efecto_witness :
  leer_lineas [] x17_entrada
  = Some ([lit "int x = 5;"; []; lit "x = 7;"; []], [lit "int y;"])
  /\ exists pre,
       [lit "int x = 5;"; []; lit "x = 7;"; []] = pre ++ [[]]
       /\ x17_entrada = pre ++ [[]; []] ++ [lit "int y;"]
       /\ analizar latin1 estado_inicial
            (join_nl [lit "int x = 5;"; []; lit "x = 7;"; []])
          = analizar latin1 estado_inicial (join_nl pre)
       /\ analizar_reporte latin1 estado_inicial
            (join_nl [lit "int x = 5;"; []; lit "x = 7;"; []])
          = analizar_reporte latin1 estado_inicial (join_nl pre).
Proof.
  split; [reflexivity|].
  exact (X18_linea_final_sin_efecto latin1 estado_inicial x17_entrada
           _ _ eq_refl).
Defined.
